(** * Healthcare ingestion pipeline: model and verified properties

    Shallow embedding of
    - [healthcare_gd_to_s3.py]: the Drive -> S3 incremental ingest Lambda
      (routing rules, change detection, per-file transfer, Glue trigger);
    - [raw_to_refined.py]: the Glue job (column normalisation, the
      per-dataset loop with failure isolation);
    - [run_athena_sql.py]: the Lambda that runs the SQL files of a bucket
      through Athena, one after the other.

    Python [str] values are modelled as [string]; every character is a
    code point below 256.  On that range [str.lower], [str.strip], [\d]
    and [re.IGNORECASE] behave exactly as written out below. *)

From stdpp Require Import gmap strings list fin_maps pretty.
From Stdlib Require Import Ascii String.

Local Open Scope string_scope.
Local Open Scope list_scope.
Local Open Scope nat_scope.

(** ** Python string primitives *)
Module PyStr.

Definition code (c : ascii) : nat := nat_of_ascii c.

(** [str.lower] on one code point: A-Z, and the Latin-1 capitals
    U+00C0..U+00DE without the multiplication sign U+00D7. *)
Definition lower_char (c : ascii) : ascii :=
  let n := code c in
  if ((65 <=? n) && (n <=? 90)) || ((192 <=? n) && (n <=? 222) && negb (n =? 215))
  then ascii_of_nat (n + 32) else c.

Fixpoint lower (s : string) : string :=
  match s with
  | EmptyString => EmptyString
  | String c s' => String (lower_char c) (lower s')
  end.

(** Characters removed by [str.strip()] with no argument. *)
Definition is_space (c : ascii) : bool :=
  let n := code c in
  ((9 <=? n) && (n <=? 13)) || ((28 <=? n) && (n <=? 32)) || (n =? 133) || (n =? 160).

Fixpoint lstrip_by (p : ascii -> bool) (s : string) : string :=
  match s with
  | EmptyString => EmptyString
  | String c s' => if p c then lstrip_by p s' else s
  end.

(** Right strip as one pass: a character is dropped when it is
    strippable and everything after it has been dropped. *)
Fixpoint rstrip_by (p : ascii -> bool) (s : string) : string :=
  match s with
  | EmptyString => EmptyString
  | String c s' =>
      match rstrip_by p s' with
      | EmptyString => if p c then EmptyString else String c EmptyString
      | r => String c r
      end
  end.

Definition strip_by (p : ascii -> bool) (s : string) : string :=
  rstrip_by p (lstrip_by p s).

Definition strip (s : string) : string := strip_by is_space s.

Fixpoint startswith (p s : string) : bool :=
  match p, s with
  | EmptyString, _ => true
  | String a p', String b s' => Ascii.eqb a b && startswith p' s'
  | String _ _, EmptyString => false
  end.

(** [p in s] for strings. *)
Fixpoint contains (p s : string) : bool :=
  startswith p s ||
  match s with
  | EmptyString => false
  | String _ s' => contains p s'
  end.

Fixpoint endswith (suffix s : string) : bool :=
  String.eqb suffix s ||
  match s with
  | EmptyString => false
  | String _ s' => endswith suffix s'
  end.

(** Python truthiness of a [str]. *)
Definition truthy (s : string) : bool :=
  match s with EmptyString => false | _ => true end.

(** Lexicographic order on code points: Python's [a > b] on [str]. *)
Fixpoint gt (a b : string) : bool :=
  match a, b with
  | EmptyString, _ => false
  | String _ _, EmptyString => true
  | String x a', String y b' =>
      if code y <? code x then true
      else if code x <? code y then false
      else gt a' b'
  end.

(** [str(n)] for a non-negative integer. *)
Definition of_nat (n : nat) : string := pretty n.

End PyStr.

(** ** Regular expressions of the routing table

    Every pattern in [ROUTE_RULES] is [^ ... $] over literals, [\d] and
    [.*], compiled with [re.IGNORECASE] and used through
    [pattern.match]. *)
Module Re.

Inductive atom : Type :=
| Lit (c : ascii)      (* a literal character, compared case-insensitively *)
| Digit                (* \d *)
| AnyStar.             (* .*  (the dot does not match a newline) *)

Definition pattern := list atom.

Definition newline : ascii := ascii_of_nat 10.

Definition is_digit (c : ascii) : bool :=
  (48 <=? PyStr.code c) && (PyStr.code c <=? 57).

Definition lit_matches (l c : ascii) : bool :=
  Ascii.eqb (PyStr.lower_char l) (PyStr.lower_char c).

(** [$] without MULTILINE: the end of the string, or just before a
    newline that ends the string. *)
Definition at_end (s : string) : bool :=
  match s with
  | EmptyString => true
  | String c EmptyString => Ascii.eqb c newline
  | _ => false
  end.

(** [pattern.match(s)] for an anchored pattern: does some way of
    matching the atoms in order consume [s] up to [$]? *)
Fixpoint matches (p : pattern) (s : string) : bool :=
  match p with
  | [] => at_end s
  | Lit l :: p' =>
      match s with
      | String c s' => lit_matches l c && matches p' s'
      | EmptyString => false
      end
  | Digit :: p' =>
      match s with
      | String c s' => is_digit c && matches p' s'
      | EmptyString => false
      end
  | AnyStar :: p' =>
      (fix star (t : string) : bool :=
         matches p' t ||
         match t with
         | String c t' => negb (Ascii.eqb c newline) && star t'
         | EmptyString => false
         end) s
  end.

Fixpoint lits (s : string) : pattern :=
  match s with
  | EmptyString => []
  | String c s' => Lit c :: lits s'
  end.

(** [^<pre>\d{4}<post>$] *)
Definition year_pattern (pre post : string) : pattern :=
  lits pre ++ [Digit; Digit; Digit; Digit] ++ lits post.

(** [^<pre>.*<post>$] *)
Definition glob_pattern (pre post : string) : pattern :=
  lits pre ++ [AnyStar] ++ lits post.

(** What it means for a pattern to match the whole of a string: the
    atoms, in order, account for every character of it.  A literal
    stands for its character in either case, [\d] for one digit, [.*]
    for any run of characters other than a newline. *)
Inductive full : pattern -> string -> Prop :=
| full_end : full [] EmptyString
| full_lit (l c : ascii) (p : pattern) (s : string) :
    PyStr.lower_char l = PyStr.lower_char c ->
    full p s -> full (Lit l :: p) (String c s)
| full_digit (c : ascii) (p : pattern) (s : string) :
    is_digit c = true ->
    full p s -> full (Digit :: p) (String c s)
| full_star_stop (p : pattern) (s : string) :
    full p s -> full (AnyStar :: p) s
| full_star_step (c : ascii) (p : pattern) (s : string) :
    c <> newline ->
    full (AnyStar :: p) s -> full (AnyStar :: p) (String c s).

Definition line_break : string := String newline EmptyString.

(** The pattern matches the whole of [s], or the whole of [s] without
    the line break that ends it. *)
Definition accepts (p : pattern) (s : string) : Prop :=
  full p s \/ exists s0, s = s0 +:+ line_break /\ full p s0.

Fixpoint single_line (s : string) : bool :=
  match s with
  | EmptyString => true
  | String c s' => negb (Ascii.eqb c newline) && single_line s'
  end.

(** No literal of the pattern is a newline. *)
Definition newline_free (p : pattern) : bool :=
  forallb (fun a => match a with
                    | Lit l => negb (Ascii.eqb (PyStr.lower_char l) newline)
                    | _ => true
                    end) p.

End Re.

(** ** Dataset routing rules ([healthcare_gd_to_s3.py], lines 42-80) *)

Definition ROUTE_RULES : list (Re.pattern * string) :=
  [ (Re.year_pattern "FY_" "_SNF_VBP_Aggregate_Performance.csv", "snf_vbp_aggregate");
    (Re.year_pattern "FY_" "_SNF_VBP_Facility_Performance.csv", "snf_vbp_facility");
    (Re.glob_pattern "NH_CitationDescriptions_" ".csv", "nh_citation_descriptions");
    (Re.glob_pattern "NH_CovidVaxAverages_" ".csv", "nh_covid_vax_averages");
    (Re.glob_pattern "NH_CovidVaxProvider_" ".csv", "nh_covid_vax_provider");
    (Re.glob_pattern "NH_DataCollectionIntervals_" ".csv", "nh_data_collection_intervals");
    (Re.glob_pattern "NH_FireSafetyCitations_" ".csv", "nh_fire_safety_citations");
    (Re.glob_pattern "NH_HealthCitations_" ".csv", "nh_health_citations");
    (Re.glob_pattern "NH_HlthInspecCutpointsState_" ".csv", "nh_health_inspection_cutpoints_state");
    (Re.glob_pattern "NH_Ownership_" ".csv", "nh_ownership");
    (Re.glob_pattern "NH_Penalties_" ".csv", "nh_penalties");
    (Re.glob_pattern "NH_ProviderInfo_" ".csv", "nh_provider_info");
    (Re.glob_pattern "NH_QualityMsr_Claims_" ".csv", "nh_quality_measure_claims");
    (Re.glob_pattern "NH_QualityMsr_MDS_" ".csv", "nh_quality_measure_mds");
    (Re.glob_pattern "NH_StateUSAverages_" ".csv", "nh_state_us_averages");
    (Re.glob_pattern "NH_SurveyDates_" ".csv", "nh_survey_dates");
    (Re.glob_pattern "NH_SurveySummary_" ".csv", "nh_survey_summary");
    (Re.glob_pattern "PBJ_Daily_Nurse_Staffing_" ".csv", "pbj_daily_nurse_staffing");
    (Re.glob_pattern "Skilled_Nursing_Facility_Quality_Reporting_Program_National_Data_" ".csv",
      "snf_qrp_national");
    (Re.glob_pattern "Skilled_Nursing_Facility_Quality_Reporting_Program_Provider_Data_" ".csv",
      "snf_qrp_provider");
    (Re.glob_pattern "Swing_Bed_SNF_data_" ".csv", "swing_bed_snf") ].

(** The loop of [dataset_folder_for] over an explicit rule list. *)
Fixpoint route (rules : list (Re.pattern * string)) (file_name : string) : string :=
  match rules with
  | [] => "_unmapped"
  | (pattern, folder) :: rest =>
      if Re.matches pattern file_name then folder else route rest file_name
  end.

Definition dataset_folder_for (file_name : string) : string :=
  route ROUTE_RULES file_name.

(** ** The Glue job ([raw_to_refined.py]) *)
Module Refine.

Definition underscore : ascii := ascii_of_nat 95.

(** Character class [[ \t\-\/]]. *)
Definition is_separator (c : ascii) : bool :=
  let n := PyStr.code c in
  (n =? 32) || (n =? 9) || (n =? 45) || (n =? 47).

(** Character class [[a-z0-9_]]. *)
Definition is_word (c : ascii) : bool :=
  let n := PyStr.code c in
  ((97 <=? n) && (n <=? 122)) || ((48 <=? n) && (n <=? 57)) || (n =? 95).

Definition is_underscore (c : ascii) : bool := PyStr.code c =? 95.

(** [re.sub(r"[class]+", "_", s)]: each maximal run of characters of
    the class becomes one underscore.  [in_run] says that the previous
    character already belonged to the run being replaced. *)
Fixpoint sub_runs (cls : ascii -> bool) (in_run : bool) (s : string) : string :=
  match s with
  | EmptyString => EmptyString
  | String c s' =>
      if cls c
      then (if in_run then sub_runs cls true s'
            else String underscore (sub_runs cls true s'))
      else String c (sub_runs cls false s')
  end.

(** [re.sub(r"[^class]", "", s)]. *)
Fixpoint keep_only (cls : ascii -> bool) (s : string) : string :=
  match s with
  | EmptyString => EmptyString
  | String c s' => if cls c then String c (keep_only cls s') else keep_only cls s'
  end.

Definition normalize_col (col : string) : string :=
  let c := PyStr.lower (PyStr.strip col) in
  let c := sub_runs is_separator false c in
  let c := keep_only is_word c in
  let c := sub_runs is_underscore false c in
  let c := PyStr.strip_by is_underscore c in
  if PyStr.truthy c then c else "col".

(** The loop of [uniqueify]; [seen] is the dict of counters, the
    result is [out] in append order. *)
Fixpoint uniqueify_from (seen : gmap string nat) (cols : list string) : list string :=
  match cols with
  | [] => []
  | c :: rest =>
      match seen !! c with
      | None => c :: uniqueify_from (<[c := 1]> seen) rest
      | Some n =>
          (c +:+ "_" +:+ PyStr.of_nat (n + 1))
            :: uniqueify_from (<[c := n + 1]> seen) rest
      end
  end.

Definition uniqueify (cols : list string) : list string := uniqueify_from ∅ cols.

Definition s3_path (bucket prefix dataset : string) : string :=
  "s3://" +:+ bucket +:+ "/" +:+ prefix +:+ "/" +:+ dataset +:+ "/".

Definition missing_path_patterns : list string :=
  [ "path does not exist"; "no such file or directory"; "not found";
    "nosuchkey"; "does not exist" ].

(** [is_missing_path_error], on the message [str(e)] of the exception. *)
Definition is_missing_path_error (msg : string) : bool :=
  existsb (fun p => PyStr.contains p (PyStr.lower msg)) missing_path_patterns.

(** Job arguments read at module level. *)
Record Options : Type := {
  RAW_BUCKET : string;
  RAW_PREFIX : string;
  REFINED_BUCKET : string;
  REFINED_PREFIX : string;
  SKIP_MISSING : bool;
  FAIL_JOB_ON_DATASET_FAILURE : bool;
  DATASETS : list string
}.

(** The Spark side of one dataset, as seen by [run]: what [load] does
    on a raw path (an exception with its message, or a frame with its
    columns), and what the rest of the [try] body does once the
    columns are renamed (lineage, missing tokens, dedup, parquet
    write): [None] when it completes, the message of the exception
    otherwise. *)
Record Spark : Type := {
  load : string -> string + list string;
  transform_and_write : string -> list string -> option string
}.

(** The [results] dict of [run]. *)
Record Results : Type := {
  processed : list (string * string);        (* dataset, refined_path *)
  skipped_missing : list (string * string);  (* dataset, reason *)
  failed : list (string * string)            (* dataset, error *)
}.

(** What the job did to the outside: raw paths it loaded and refined
    paths it wrote, oldest first. *)
Record Trace : Type := {
  loaded : list string;
  written : list string
}.

Inductive Outcome : Type :=
| Returned (r : Results)
| RuntimeError (failed_datasets : list (string * string)).

Definition add_processed (x : string * string) (r : Results) : Results :=
  {| processed := processed r ++ [x];
     skipped_missing := skipped_missing r;
     failed := failed r |}.

Definition add_skipped (x : string * string) (r : Results) : Results :=
  {| processed := processed r;
     skipped_missing := skipped_missing r ++ [x];
     failed := failed r |}.

Definition add_failed (x : string * string) (r : Results) : Results :=
  {| processed := processed r;
     skipped_missing := skipped_missing r;
     failed := failed r ++ [x] |}.

(** [df.withColumn(name, ...)]: Spark resolves [name] against the
    columns of the frame without regard to case
    ([spark.sql.caseSensitive] is off unless the job sets it, and this
    one does not); the columns it resolves to are replaced in place and
    take the new name, and when there is none the new column goes last. *)
Definition with_column (name : string) (cols : list string) : list string :=
  let resolves c := String.eqb (PyStr.lower c) (PyStr.lower name) in
  if existsb resolves cols
  then map (fun c => if resolves c then name else c) cols
  else cols ++ [name].

Section Job.
Variable opts : Options.
Variable spark : Spark.

Definition raw_path_of (dataset : string) : string :=
  s3_path (RAW_BUCKET opts) (RAW_PREFIX opts) dataset.

Definition refined_path_of (dataset : string) : string :=
  s3_path (REFINED_BUCKET opts) (REFINED_PREFIX opts) dataset.

(** The [except Exception as e] handler of the dataset loop. *)
Definition on_exception (dataset msg : string) (r : Results) : Results :=
  if SKIP_MISSING opts && is_missing_path_error msg
  then add_skipped (dataset, msg) r
  else add_failed (dataset, msg) r.

(** One iteration of [for dataset in DATASETS]. *)
Definition run_dataset (st : Trace * Results) (dataset : string) : Trace * Results :=
  let '(tr, r) := st in
  let raw_path := raw_path_of dataset in
  let refined_path := refined_path_of dataset in
  let tr := {| loaded := loaded tr ++ [raw_path]; written := written tr |} in
  match load spark raw_path with
  | inl msg => (tr, on_exception dataset msg r)
  | inr columns =>
      if SKIP_MISSING opts && (List.length columns =? 0)
      then (tr, add_skipped (dataset, "no columns") r)
      else
        let columns := with_column "_ingested_at_utc" (with_column "_source_file" columns) in
        let normalized_cols := uniqueify (map normalize_col columns) in
        match transform_and_write spark refined_path normalized_cols with
        | Some msg => (tr, on_exception dataset msg r)
        | None =>
            ({| loaded := loaded tr; written := written tr ++ [refined_path] |},
             add_processed (dataset, refined_path) r)
        end
  end.

Definition empty_results : Results :=
  {| processed := []; skipped_missing := []; failed := [] |}.

Definition run_loop (datasets : list string) : Trace * Results :=
  fold_left run_dataset datasets ({| loaded := []; written := [] |}, empty_results).

Definition run : Trace * Outcome :=
  let '(tr, results) := run_loop (DATASETS opts) in
  if FAIL_JOB_ON_DATASET_FAILURE opts && (0 <? List.length (failed results))
  then (tr, RuntimeError (failed results))
  else (tr, Returned results).

End Job.

(** The datasets named in the three lists of a [results] dict. *)
Definition recorded (r : Results) : list string :=
  map fst (processed r) ++ map fst (skipped_missing r) ++ map fst (failed r).

End Refine.


(** ** The ingest Lambda ([healthcare_gd_to_s3.py]) *)
Module Ingest.

(** A Drive file resource as listed with
    [fields = files(id, name, mimeType, modifiedTime, size)]. *)
Record FileRecord : Type := {
  id : string;
  name : string;
  mimeType : option string;
  modifiedTime : option string
}.

Inductive Exn : Type :=
| ValueError (msg : string)
| DriveError (msg : string)
| S3Error (msg : string)
| DynamoError (msg : string)
| GlueError (msg : string)
| FileNotFoundError (path : string).

(** Calls that leave the process, in the order they are made. *)
Inductive Event : Type :=
| GetItem (file_id : string)
| PutItem (file_id : string)
| Download (file_id : string)
| Upload (bucket key : string)
| Remove (path : string)
| GetJobRuns (job : string) (max_results : nat)
| StartJobRun (job : string) (arguments : gmap string string).

(** Everything the handler reads or changes: the DynamoDB table keyed
    by [file_id], the bucket contents, the files under [/tmp], the
    number of clock readings made so far, and the call log. *)
Record World : Type := {
  ddb : gmap string (gmap string string);
  s3 : gmap (string * string) string;
  tmp : gmap string string;
  clock : nat;
  log : list Event
}.

(** How the services answer during one invocation.
    - [get_media id]: [inr content], or [inl partial] when the
      download raises after [partial] was written to the open file;
    - [upload_error bucket key], [put_item_error id]: the error
      raised, if any;
    - [remove_fails path]: [os.remove] raises [OSError];
    - [get_job_runs job n]: the [JobRuns] list of the response to a
      request for at most [n] runs, or the
      error raised; [start_job_run job args]: the [JobRunId] of the
      response ([None] when the key is missing), or the error raised;
    - [now n]: what the [n]-th call of [utc_now_iso] returns. *)
Record Services : Type := {
  get_media : string -> string + string;
  upload_error : string -> string -> option string;
  remove_fails : string -> bool;
  put_item_error : string -> option string;
  get_job_runs : string -> nat -> string + list (gmap string string);
  start_job_run : string -> gmap string string -> string + option string;
  now : nat -> string
}.

Inductive Outcome (A : Type) : Type :=
| Ret (a : A)
| Raise (e : Exn).
Arguments Ret {A} a.
Arguments Raise {A} e.

(** Computations that change the world and may raise; an exception
    keeps the changes made before it. *)
Definition M (A : Type) : Type := World -> Outcome A * World.

Definition ret {A} (a : A) : M A := fun w => (Ret a, w).
Definition raise {A} (e : Exn) : M A := fun w => (Raise e, w).
Definition bind {A B} (m : M A) (k : A -> M B) : M B :=
  fun w =>
    match m w with
    | (Ret a, w') => k a w'
    | (Raise e, w') => (Raise e, w')
    end.

Notation "'do' x <-- m ;; k" := (bind m (fun x => k))
  (at level 10, x name, m at level 99, k at level 200).

Definition emit (e : Event) : M unit :=
  fun w => (Ret tt, {| ddb := ddb w; s3 := s3 w; tmp := tmp w;
                       clock := clock w; log := log w ++ [e] |}).

Definition set_ddb (d : gmap string (gmap string string)) : M unit :=
  fun w => (Ret tt, {| ddb := d; s3 := s3 w; tmp := tmp w;
                       clock := clock w; log := log w |}).

Definition set_s3 (b : gmap (string * string) string) : M unit :=
  fun w => (Ret tt, {| ddb := ddb w; s3 := b; tmp := tmp w;
                       clock := clock w; log := log w |}).

Definition set_tmp (t : gmap string string) : M unit :=
  fun w => (Ret tt, {| ddb := ddb w; s3 := s3 w; tmp := t;
                       clock := clock w; log := log w |}).

Definition get_world : M World := fun w => (Ret w, w).

(** The batch counters of [lambda_handler]. *)
Record Counts : Type := {
  processed : nat;
  skipped : nat;
  unmapped : nat
}.

(** The dict returned by [start_glue_job_if_needed]. *)
Inductive GlueResult : Type :=
| NotStarted (reason : string)
| AlreadyRunning (reason : string) (existing_job_run_id : option string)
| Started (job_run_id : option string).

Definition started (r : GlueResult) : bool :=
  match r with Started _ => true | _ => false end.

(** [require_env]: [not value] holds for [None] and for the empty string. *)
Definition require_env (name : string) (value : option string) : M string :=
  match value with
  | Some v => if PyStr.truthy v then ret v
              else raise (ValueError (name +:+ " env var is not set"))
  | None => raise (ValueError (name +:+ " env var is not set"))
  end.

Definition non_terminal (state : option string) : bool :=
  match state with
  | Some s => bool_decide (s ∈ ["STARTING"; "RUNNING"; "STOPPING"])
  | None => false
  end.

Section Handler.
(** [TARGET_S3_BUCKET] after [require_env] at the top of
    [lambda_handler], [S3_PREFIX] after [.strip("/")], and
    [GLUE_JOB_NAME] as read from the environment. *)
Variable TARGET_S3_BUCKET : string.
Variable S3_PREFIX : string.
Variable GLUE_JOB_NAME : option string.
Variable svc : Services.

Definition utc_now_iso : M string :=
  fun w => (Ret (now svc (clock w)),
            {| ddb := ddb w; s3 := s3 w; tmp := tmp w;
               clock := S (clock w); log := log w |}).

Definition build_s3_key (file_name : string) : string :=
  let dataset := dataset_folder_for file_name in
  if PyStr.truthy S3_PREFIX
  then S3_PREFIX +:+ "/" +:+ dataset +:+ "/" +:+ file_name
  else dataset +:+ "/" +:+ file_name.

(** [open(tmp_path, "wb")] creates the file before the first chunk
    arrives; what was written stays when the download raises. *)
Definition download_to_tmp (file_id tmp_path : string) : M unit :=
  do _ <-- emit (Download file_id) ;;
  do w <-- get_world ;;
  match get_media svc file_id with
  | inr content => set_tmp (<[tmp_path := content]> (tmp w))
  | inl partial =>
      do _ <-- set_tmp (<[tmp_path := partial]> (tmp w)) ;;
      raise (DriveError "download failed")
  end.

Definition upload_file_to_s3 (tmp_path bucket key : string) : M unit :=
  do w <-- get_world ;;
  match tmp w !! tmp_path with
  | None => raise (FileNotFoundError tmp_path)
  | Some content =>
      do _ <-- emit (Upload bucket key) ;;
      match upload_error svc bucket key with
      | Some msg => raise (S3Error msg)
      | None => set_s3 (<[(bucket, key) := content]> (s3 w))
      end
  end.

(** [try: os.remove(tmp_path) except OSError: pass] *)
Definition remove_quietly (tmp_path : string) : M unit :=
  do _ <-- emit (Remove tmp_path) ;;
  do w <-- get_world ;;
  if remove_fails svc tmp_path then ret tt
  else set_tmp (delete tmp_path (tmp w)).

Definition should_process_file (file_id drive_modified_time : string) : M bool :=
  do _ <-- emit (GetItem file_id) ;;
  do w <-- get_world ;;
  match ddb w !! file_id with
  | None => ret true
  | Some item =>
      if bool_decide (item = ∅) then ret true
      else
        match item !! "modifiedTime" with
        | None => ret true
        | Some last_modified =>
            if negb (PyStr.truthy last_modified) then ret true
            else ret (PyStr.gt drive_modified_time last_modified)
        end
  end.

Definition update_state (file_id file_name drive_modified_time s3_bucket s3_key : string)
  : M unit :=
  do ts <-- utc_now_iso ;;
  let item : gmap string string :=
    <["file_id" := file_id]>
    (<["file_name" := file_name]>
    (<["modifiedTime" := drive_modified_time]>
    (<["s3_bucket" := s3_bucket]>
    (<["s3_key" := s3_key]>
    (<["dataset_folder" := dataset_folder_for file_name]>
    (<["last_processed_at" := ts]> ∅)))))) in
  do _ <-- emit (PutItem file_id) ;;
  match put_item_error svc file_id with
  | Some msg => raise (DynamoError msg)
  | None =>
      do w <-- get_world ;;
      set_ddb (<[file_id := item]> (ddb w))
  end.

(** [modified_time or ""] *)
Definition or_empty (v : option string) : string := default "" v.

(** [not modified_time] for the result of [f.get("modifiedTime")]. *)
Definition no_timestamp (v : option string) : bool :=
  match v with
  | Some t => negb (PyStr.truthy t)
  | None => true
  end.

(** The CSV-only filter (line 278). *)
Definition is_csv (f : FileRecord) : bool :=
  PyStr.endswith ".csv" (PyStr.lower (name f)).

(** The staging path (line 296). *)
Definition tmp_path_of (f : FileRecord) : string :=
  "/tmp/" +:+ id f +:+ ".csv".

(** Lines 282-288: a file without a timestamp is taken without
    asking the table; otherwise [should_process_file] decides. *)
Definition needs_transfer (f : FileRecord) : M bool :=
  if no_timestamp (modifiedTime f) then ret true
  else should_process_file (id f) (or_empty (modifiedTime f)).

(** Lines 301-312: download, upload, best-effort removal of the
    staged file, then the state update. *)
Definition transfer_and_commit (f : FileRecord) (s3_key : string) : M unit :=
  let tmp_path := tmp_path_of f in
  do _ <-- download_to_tmp (id f) tmp_path ;;
  do _ <-- upload_file_to_s3 tmp_path TARGET_S3_BUCKET s3_key ;;
  do _ <-- remove_quietly tmp_path ;;
  update_state (id f) (name f) (or_empty (modifiedTime f)) TARGET_S3_BUCKET s3_key.

(** Lines 291-294: an unmapped file is counted and still processed. *)
Definition bump_unmapped (c : Counts) (f : FileRecord) : Counts :=
  if String.eqb (dataset_folder_for (name f)) "_unmapped"
  then {| processed := processed c; skipped := skipped c; unmapped := unmapped c + 1 |}
  else c.

(** The body of [for f in files] (lines 271-315); [continue] is an
    early [ret] of the counters. *)
Definition handle_file (c : Counts) (f : FileRecord) : M Counts :=
  if negb (is_csv f) then ret c
  else
    do go <-- needs_transfer f ;;
    if negb go
    then ret {| processed := processed c; skipped := skipped c + 1;
                unmapped := unmapped c |}
    else
      let s3_key := build_s3_key (name f) in
      let c := bump_unmapped c f in
      do _ <-- transfer_and_commit f s3_key ;;
      ret {| processed := processed c + 1; skipped := skipped c;
             unmapped := unmapped c |}.

Fixpoint handle_files (c : Counts) (files : list FileRecord) : M Counts :=
  match files with
  | [] => ret c
  | f :: rest => do c' <-- handle_file c f ;; handle_files c' rest
  end.

(** [for r in runs]: the first run in a non-terminal state. *)
Fixpoint first_active (runs : list (gmap string string))
  : option (string * option string) :=
  match runs with
  | [] => None
  | r :: rest =>
      if non_terminal (r !! "JobRunState")
      then Some (or_empty (r !! "JobRunState"), r !! "Id")
      else first_active rest
  end.

Definition start_glue_job_if_needed (processed_files skipped_files unmapped_files : Z)
  : M GlueResult :=
  if (processed_files <=? 0)%Z
  then ret (NotStarted "No new/changed files to process")
  else
    do job <-- require_env "GLUE_JOB_NAME" GLUE_JOB_NAME ;;
    do _ <-- emit (GetJobRuns job 5) ;;
    match
      match get_job_runs svc job 5 with
      | inr runs => first_active runs
      | inl _ => None            (* except Exception: print a warning *)
      end
    with
    | Some (state, run_id) =>
        ret (AlreadyRunning ("Glue job already " +:+ state) run_id)
    | None =>
        do ts <-- utc_now_iso ;;
        let arguments : gmap string string :=
          <["--triggered_by" := "drive_to_s3_lambda"]>
          (<["--s3_bucket" := TARGET_S3_BUCKET]>
          (<["--s3_prefix" := S3_PREFIX]>
          (<["--processed_files" := pretty processed_files]>
          (<["--skipped_files" := pretty skipped_files]>
          (<["--unmapped_files" := pretty unmapped_files]>
          (<["--run_ts_utc" := ts]> ∅)))))) in
        do _ <-- emit (StartJobRun job arguments) ;;
        match start_job_run svc job arguments with
        | inl msg => raise (GlueError msg)
        | inr job_run_id => ret (Started job_run_id)
        end
    end.

(** [lambda_handler] from the file loop on, for the listing [files]
    returned by Drive. *)
Definition ingest (files : list FileRecord) : M (Counts * GlueResult) :=
  do c <-- handle_files {| processed := 0; skipped := 0; unmapped := 0 |} files ;;
  do glue_result <-- start_glue_job_if_needed
                    (Z.of_nat (processed c)) (Z.of_nat (skipped c))
                    (Z.of_nat (unmapped c)) ;;
  ret (c, glue_result).

End Handler.

Definition empty_world : World :=
  {| ddb := ∅; s3 := ∅; tmp := ∅; clock := 0; log := [] |}.

(** A run counts as active when its [JobRunState] is one of
    STARTING, RUNNING, STOPPING. *)
Definition active (r : gmap string string) : bool :=
  non_terminal (r !! "JobRunState").

(** The decision of lines 282-288 as a function of the table entry of
    the file. *)
Definition stale (entry : option (gmap string string)) (f : FileRecord) : bool :=
  no_timestamp (modifiedTime f)
  || match entry with
     | None => true
     | Some item =>
         match item !! "modifiedTime" with
         | None => true
         | Some last_modified =>
             negb (PyStr.truthy last_modified)
             || PyStr.gt (or_empty (modifiedTime f)) last_modified
         end
     end.

(** A listed file carries a timestamp the change detector can use. *)
Definition dated (f : FileRecord) : bool := negb (no_timestamp (modifiedTime f)).

(** The table holds, for [f], a non-empty timestamp that the listed one
    does not exceed. *)
Definition settled (d : gmap string (gmap string string)) (f : FileRecord) : Prop :=
  exists item last_modified,
    d !! id f = Some item
    /\ item !! "modifiedTime" = Some last_modified
    /\ PyStr.truthy last_modified = true
    /\ PyStr.gt (or_empty (modifiedTime f)) last_modified = false.


End Ingest.

(** ** Concrete runs *)
Module Scenario.
Import Ingest.

Definition f_owner : FileRecord :=
  {| id := "f1"; name := "NH_Ownership_Oct2024.csv";
     mimeType := Some "text/csv";
     modifiedTime := Some "2024-10-01T08:00:00.000Z" |}.

Definition f_undated : FileRecord :=
  {| id := "f2"; name := "unknownfile.csv";
     mimeType := None; modifiedTime := None |}.

Definition running_run : gmap string string :=
  <["JobRunState" := "RUNNING"]> (<["Id" := "jr_0"]> ∅).

Definition succeeded_run : gmap string string :=
  <["JobRunState" := "SUCCEEDED"]> (<["Id" := "jr_old"]> ∅).

(** Every service answers. *)
Definition healthy : Services :=
  {| get_media := fun _ => inr "a,b";
     upload_error := fun _ _ => None;
     remove_fails := fun _ => false;
     put_item_error := fun _ => None;
     get_job_runs := fun _ _ => inr [succeeded_run];
     start_job_run := fun _ _ => inr (Some "jr_1");
     now := fun n => "2024-10-02T00:00:0" +:+ pretty n +:+ "+00:00" |}.

(** The bucket refuses every upload. *)
Definition s3_down : Services :=
  {| get_media := get_media healthy;
     upload_error := fun _ _ => Some "AccessDenied";
     remove_fails := remove_fails healthy;
     put_item_error := put_item_error healthy;
     get_job_runs := get_job_runs healthy;
     start_job_run := start_job_run healthy;
     now := now healthy |}.

(** A run of the job is in progress. *)
Definition glue_busy : Services :=
  {| get_media := get_media healthy;
     upload_error := upload_error healthy;
     remove_fails := remove_fails healthy;
     put_item_error := put_item_error healthy;
     get_job_runs := fun _ _ => inr [succeeded_run; running_run];
     start_job_run := start_job_run healthy;
     now := now healthy |}.

(** The listing of job runs raises. *)
Definition glue_check_down : Services :=
  {| get_media := get_media healthy;
     upload_error := upload_error healthy;
     remove_fails := remove_fails healthy;
     put_item_error := put_item_error healthy;
     get_job_runs := fun _ _ => inl "ThrottlingException";
     start_job_run := start_job_run healthy;
     now := now healthy |}.

Definition zero : Counts := {| processed := 0; skipped := 0; unmapped := 0 |}.

(** The world after a first clean run over the undated file. *)
Definition after_undated : World :=
  snd (handle_files "bkt" "raw" healthy zero [f_undated] empty_world).

(** The world after a first clean run over the dated file. *)
Definition after_owner : World :=
  snd (handle_files "bkt" "raw" healthy zero [f_owner] empty_world).

End Scenario.


(** ** Shapes of strings, for statements about column names and keys *)
Module Shape.

Fixpoint all_chars (p : ascii -> bool) (s : string) : bool :=
  match s with
  | EmptyString => true
  | String c s' => p c && all_chars p s'
  end.

Definition starts_with_char (p : ascii -> bool) (s : string) : bool :=
  match s with
  | EmptyString => false
  | String c _ => p c
  end.

Fixpoint ends_with_char (p : ascii -> bool) (s : string) : bool :=
  match s with
  | EmptyString => false
  | String c EmptyString => p c
  | String _ s' => ends_with_char p s'
  end.

(** Two adjacent characters of the class somewhere in the string. *)
Fixpoint has_run (p : ascii -> bool) (s : string) : bool :=
  match s with
  | EmptyString => false
  | String c s' => (p c && starts_with_char p s') || has_run p s'
  end.

(** A column name as [normalize_col] leaves it: not empty, made of
    [a-z0-9_] only, no underscore first or last, no two underscores in a
    row. *)
Definition clean (s : string) : bool :=
  PyStr.truthy s
  && all_chars Refine.is_word s
  && negb (has_run Refine.is_underscore s)
  && negb (starts_with_char Refine.is_underscore s)
  && negb (ends_with_char Refine.is_underscore s).

End Shape.

(** ** Classes of characters, by code point, for statements about names *)
Module Chars.

Definition digit (c : ascii) : bool := (48 <=? PyStr.code c) && (PyStr.code c <=? 57).
Definition small (c : ascii) : bool := (97 <=? PyStr.code c) && (PyStr.code c <=? 122).


Definition small_alnum (c : ascii) : bool := small c || digit c.




(** A non-empty string of small letters and digits. *)
Definition word (s : string) : bool := PyStr.truthy s && Shape.all_chars small_alnum s.

End Chars.

(** ** Reading [uniqueify] by position *)
Module Position.

(** How often [c] occurs in [l]. *)
Definition occurrences (c : string) (l : list string) : nat :=
  List.length (filter (fun x => x = c) l).

(** The name given to an occurrence of [c] that has [k] earlier
    occurrences in the row. *)
Definition name_after (k : nat) (c : string) : string :=
  if k =? 0 then c else c +:+ "_" +:+ PyStr.of_nat (k + 1).

(** The counter [uniqueify] keeps for [c], 0 when [c] has not been seen. *)
Definition counted (seen : gmap string nat) (c : string) : nat := default 0 (seen !! c).

End Position.

(** ** [standardize_missing]: which columns are rewritten

    ([raw_to_refined.py], lines 122-143.)  The function builds one select
    expression per field of the schema: the column itself for the two
    lineage names and for every field that is not a string, and the
    null-if-missing rewrite for the other string fields. *)
Module Missing.

Inductive DataType : Type :=
| StringType
| OtherType.

Inductive ColExpr : Type :=
| Col (c : string)                (* F.col(c) *)
| NullIfMissing (c : string).     (* F.when(<missing>, None).otherwise(F.col(c)).alias(c) *)

Definition lineage_columns : list string := ["_source_file"; "_ingested_at_utc"].

Definition standardize_field (field : string * DataType) : ColExpr :=
  let c := fst field in
  if bool_decide (c ∈ lineage_columns) then Col c
  else match snd field with
       | StringType => NullIfMissing c
       | OtherType => Col c
       end.

Definition standardize_missing (schema : list (string * DataType)) : list ColExpr :=
  map standardize_field schema.

End Missing.

(** ** Job arguments of [raw_to_refined.py] (lines 24-81) *)
Module JobConfig.

Definition DEFAULT_DATASETS : list string :=
  [ "snf_vbp_aggregate"; "snf_vbp_facility"; "nh_citation_descriptions";
    "nh_covid_vax_averages"; "nh_covid_vax_provider"; "nh_data_collection_intervals";
    "nh_fire_safety_citations"; "nh_health_citations";
    "nh_health_inspection_cutpoints_state"; "nh_ownership"; "nh_penalties";
    "nh_provider_info"; "nh_quality_measure_claims"; "nh_quality_measure_mds";
    "nh_state_us_averages"; "nh_survey_dates"; "nh_survey_summary";
    "pbj_daily_nurse_staffing"; "snf_qrp_national"; "snf_qrp_provider";
    "swing_bed_snf" ].

Definition comma : ascii := ascii_of_nat 44.
Definition slash : ascii := ascii_of_nat 47.

Definition is_comma (c : ascii) : bool := PyStr.code c =? 44.
Definition is_slash (c : ascii) : bool := PyStr.code c =? 47.

(** [s.split(",")]: the pieces between commas, empty pieces included. *)
Fixpoint split_commas (s : string) : list string :=
  match s with
  | EmptyString => [EmptyString]
  | String c s' =>
      if is_comma c then EmptyString :: split_commas s'
      else match split_commas s' with
           | piece :: pieces => String c piece :: pieces
           | [] => [String c EmptyString]
           end
  end.

(** [",".join(names)] *)
Fixpoint join_commas (names : list string) : string :=
  match names with
  | [] => EmptyString
  | [d] => d
  | d :: rest => d +:+ String comma (join_commas rest)
  end.

(** Lines 77-81, for the value [datasets_raw] of the DATASETS argument
    (the empty string when the argument is not given). *)
Definition parse_datasets (datasets_raw : string) : list string :=
  if PyStr.truthy (PyStr.strip datasets_raw)
  then map (fun d => PyStr.strip_by is_slash (PyStr.strip d))
           (filter (fun d => PyStr.truthy (PyStr.strip d) = true)
                   (split_commas datasets_raw))
  else DEFAULT_DATASETS.

(** A dataset name that the parser hands back as it is: no comma, no
    blank or slash at either end, not empty. *)
Definition plain (d : string) : bool :=
  PyStr.truthy d
  && Shape.all_chars (fun c => negb (is_comma c)) d
  && negb (Shape.starts_with_char (fun c => PyStr.is_space c || is_slash c) d)
  && negb (Shape.ends_with_char (fun c => PyStr.is_space c || is_slash c) d).

End JobConfig.

(** ** Module-level settings of [healthcare_gd_to_s3.py] (lines 16-28) *)
Module IngestConfig.

(** [S3_PREFIX = os.environ.get("S3_PREFIX", "").strip("/")] *)
Definition S3_PREFIX (env_value : option string) : string :=
  PyStr.strip_by JobConfig.is_slash (default "" env_value).

End IngestConfig.

(** ** Reading the call log and the state table of the ingest Lambda *)
Module IngestLog.
Import Ingest.

Definition is_upload (e : Event) : bool :=
  match e with Upload _ _ => true | _ => false end.

Definition is_put_item (e : Event) : bool :=
  match e with PutItem _ => true | _ => false end.

Definition is_glue_call (e : Event) : bool :=
  match e with GetJobRuns _ _ | StartJobRun _ _ => true | _ => false end.

Definition count (p : Event -> bool) (events : list Event) : nat :=
  List.length (List.filter p events).

(** The item that [update_state] writes (lines 196-205) for a file stored
    under [s3_key] at time [ts]. *)
Definition state_item (s3_bucket s3_key ts : string) (f : FileRecord)
  : gmap string string :=
  <["file_id" := id f]>
  (<["file_name" := name f]>
  (<["modifiedTime" := or_empty (modifiedTime f)]>
  (<["s3_bucket" := s3_bucket]>
  (<["s3_key" := s3_key]>
  (<["dataset_folder" := dataset_folder_for (name f)]>
  (<["last_processed_at" := ts]> ∅)))))).

(** An item of the table, stored under [k], names an object that is in
    the bucket, under the key built from the file name it records. *)
Definition backed (bucket prefix : string) (objects : gmap (string * string) string)
    (k : string) (item : gmap string string) : Prop :=
  item !! "file_id" = Some k
  /\ item !! "s3_bucket" = Some bucket
  /\ exists file_name,
      item !! "file_name" = Some file_name
      /\ item !! "s3_key" = Some (build_s3_key prefix file_name)
      /\ item !! "dataset_folder" = Some (dataset_folder_for file_name)
      /\ is_Some (objects !! (bucket, build_s3_key prefix file_name)).

Definition consistent (bucket prefix : string) (w : World) : Prop :=
  map_Forall (backed bucket prefix (s3 w)) (ddb w).

End IngestLog.

(** ** Outcomes of the dataset loop, side by side *)
Module Merge.
Import Refine.

Definition results_app (a b : Results) : Results :=
  {| processed := processed a ++ processed b;
     skipped_missing := skipped_missing a ++ skipped_missing b;
     failed := failed a ++ failed b |}.

Definition trace_app (a b : Trace) : Trace :=
  {| loaded := loaded a ++ loaded b; written := written a ++ written b |}.

(** What the loop has when it did [a] and then [b]. *)
Definition state_app (a b : Trace * Results) : Trace * Results :=
  (trace_app (fst a) (fst b), results_app (snd a) (snd b)).

Definition initial : Trace * Results :=
  ({| loaded := []; written := [] |}, empty_results).

End Merge.

(** ** Concrete runs of the Glue job *)
Module Runs.
Import Refine.

(** The job told not to skip anything. *)
Definition strict : Options :=
  {| RAW_BUCKET := "lake"; RAW_PREFIX := "raw";
     REFINED_BUCKET := "lake"; REFINED_PREFIX := "refined";
     SKIP_MISSING := false; FAIL_JOB_ON_DATASET_FAILURE := false;
     DATASETS := ["nh_ownership"; "nh_penalties"; "swing_bed_snf"] |}.

(** Ownership loads with three columns, the raw path of the penalties
    is missing, and every other path holds a frame without columns. *)
Definition partial_lake : Spark :=
  {| load := fun path =>
       if String.eqb path "s3://lake/raw/nh_ownership/"
       then inr ["Provider ID"; "Owner Name"; "Owner Name"]
       else if String.eqb path "s3://lake/raw/nh_penalties/"
       then inl "Path does not exist: s3://lake/raw/nh_penalties/"
       else inr [];
     transform_and_write := fun _ _ => None |}.

End Runs.

(** ** The Athena runner ([run_athena_sql.py]) *)
Module Athena.

(** A response of [list_objects_v2]: the keys of [Contents] (none when
    the field is absent), whether [IsTruncated] is set, and the
    continuation token. *)
Record Page : Type := {
  Contents : list string;
  IsTruncated : bool;
  NextContinuationToken : option string
}.

(** [r["QueryExecution"]["Status"]]. *)
Record Status : Type := {
  State : string;
  StateChangeReason : option string
}.

Inductive Exn : Type :=
| ClientError (msg : string)
| ValueError (msg : string)
| TimeoutError (msg : string)
| RuntimeError (msg : string).

Inductive Event : Type :=
| ListObjects (bucket prefix : string) (token : option string)
| GetObject (bucket key : string)
| StartQuery (sql database output workgroup : string)
| GetQueryExecution (qid : string)
| Sleep (seconds : Z).

(** The number of [get_query_execution] calls made so far, and the call
    log. *)
Record World : Type := {
  polls : nat;
  log : list Event
}.

(** How S3 and Athena answer: an error message, or the response.  The
    answer to [get_query_execution] depends on the number of such calls
    made before it. *)
Record Services : Type := {
  list_objects_v2 : string -> string -> option string -> string + Page;
  get_object : string -> string -> string + string;
  start_query_execution : string -> string + string;
  get_query_execution : string -> nat -> string + Status
}.

(** The module-level settings (lines 8-17), after their conversions. *)
Record Config : Type := {
  SQL_BUCKET : string;
  SQL_PREFIX : string;
  ATHENA_DATABASE : string;
  ATHENA_OUTPUT_S3 : string;
  ATHENA_WORKGROUP : string;
  POLL_SECONDS : Z;
  MAX_POLLS : Z
}.

(** [os.environ["SQL_PREFIX"].strip("/") + "/"] *)
Definition sql_prefix_of (env_value : string) : string :=
  PyStr.strip_by JobConfig.is_slash env_value +:+ "/".

(** [os.environ["ATHENA_OUTPUT_S3"].rstrip("/") + "/"] *)
Definition output_location_of (env_value : string) : string :=
  PyStr.rstrip_by JobConfig.is_slash env_value +:+ "/".

(** A call returns, raises, or is still in its [while True] loop when
    the steps allowed to it run out. *)
Inductive Outcome (A : Type) : Type :=
| Ret (a : A)
| Raise (e : Exn)
| Running.
Arguments Ret {A} a.
Arguments Raise {A} e.
Arguments Running {A}.

Definition M (A : Type) : Type := World -> Outcome A * World.

Definition ret {A} (a : A) : M A := fun w => (Ret a, w).
Definition raise {A} (e : Exn) : M A := fun w => (Raise e, w).
Definition running {A} : M A := fun w => (Running, w).
Definition bind {A B} (m : M A) (k : A -> M B) : M B :=
  fun w =>
    match m w with
    | (Ret a, w') => k a w'
    | (Raise e, w') => (Raise e, w')
    | (Running, w') => (Running, w')
    end.

Notation "'do' x <-- m ;; k" := (bind m (fun x => k))
  (at level 10, x name, m at level 99, k at level 200).

Definition emit (e : Event) : M unit :=
  fun w => (Ret tt, {| polls := polls w; log := log w ++ [e] |}).

(** The next answer of [get_query_execution] is number [polls]. *)
Definition next_poll : M nat :=
  fun w => (Ret (polls w), {| polls := S (polls w); log := log w |}).

(** [keys.sort()] on a list of [str]: ascending code-point order. *)
Fixpoint insert (x : string) (l : list string) : list string :=
  match l with
  | [] => [x]
  | y :: l' => if PyStr.gt x y then y :: insert x l' else x :: l
  end.

Fixpoint sort (l : list string) : list string :=
  match l with
  | [] => []
  | x :: l' => insert x (sort l')
  end.

(** No element exceeds a later one. *)
Fixpoint ascending (l : list string) : bool :=
  match l with
  | [] => true
  | x :: l' => forallb (fun y => negb (PyStr.gt x y)) l' && ascending l'
  end.

Definition is_sql (key : string) : bool := PyStr.endswith ".sql" (PyStr.lower key).

Definition terminal (state : string) : bool :=
  bool_decide (state ∈ ["SUCCEEDED"; "FAILED"; "CANCELLED"]).

(** [if token:] before the request. *)
Definition request_token (token : option string) : option string :=
  match token with
  | Some t => if PyStr.truthy t then Some t else None
  | None => None
  end.

(** One entry of [results]. *)
Record Result : Type := {
  sql_key : string;
  query_execution_id : string;
  state : string
}.

(** The dict returned by [lambda_handler]; the first form has no
    [results] entry. *)
Inductive Response : Type :=
| NoFiles (body : string)
| Ran (body : string) (results : list Result).

Section Runner.
Variable cfg : Config.
Variable svc : Services.

(** The [while True] loop of [list_sql_keys], for at most [steps]
    requests. *)
Fixpoint list_pages (steps : nat) (bucket prefix : string)
    (token : option string) (keys : list string) : M (list string) :=
  match steps with
  | 0 => running
  | S steps' =>
      let args_token := request_token token in
      do _ <-- emit (ListObjects bucket prefix args_token) ;;
      match list_objects_v2 svc bucket prefix args_token with
      | inl msg => raise (ClientError msg)
      | inr resp =>
          let keys := keys ++ List.filter is_sql (Contents resp) in
          if IsTruncated resp
          then list_pages steps' bucket prefix (NextContinuationToken resp) keys
          else ret keys
      end
  end.

Definition list_sql_keys (steps : nat) (bucket prefix : string) : M (list string) :=
  do keys <-- list_pages steps bucket prefix None [] ;;
  ret (sort keys).

Definition get_sql (bucket key : string) : M string :=
  do _ <-- emit (GetObject bucket key) ;;
  match get_object svc bucket key with
  | inl msg => raise (ClientError msg)
  | inr body => ret body
  end.

Definition start_query (sql : string) : M string :=
  do _ <-- emit (StartQuery sql (ATHENA_DATABASE cfg) (ATHENA_OUTPUT_S3 cfg)
                   (ATHENA_WORKGROUP cfg)) ;;
  match start_query_execution svc sql with
  | inl msg => raise (ClientError msg)
  | inr qid => ret qid
  end.

(** [time.sleep] refuses a negative length. *)
Definition sleep (seconds : Z) : M unit :=
  if (seconds <? 0)%Z then raise (ValueError "sleep length must be non-negative")
  else emit (Sleep seconds).

(** [for _ in range(n)] of [wait_for_query], then the [raise]. *)
Fixpoint wait_loop (n : nat) (qid : string) : M Status :=
  match n with
  | 0 => raise (TimeoutError ("Athena query " +:+ qid +:+ " did not finish in time"))
  | S n' =>
      do _ <-- emit (GetQueryExecution qid) ;;
      do i <-- next_poll ;;
      match get_query_execution svc qid i with
      | inl msg => raise (ClientError msg)
      | inr status =>
          if terminal (State status) then ret status
          else
            do _ <-- sleep (POLL_SECONDS cfg) ;;
            wait_loop n' qid
      end
  end.

(** [range(MAX_POLLS)] is empty for a negative bound. *)
Definition wait_for_query (qid : string) : M Status :=
  wait_loop (Z.to_nat (MAX_POLLS cfg)) qid.

(** The body of [for key in keys] (lines 75-91). *)
Definition run_key (results : list Result) (key : string) : M (list Result) :=
  do body <-- get_sql (SQL_BUCKET cfg) key ;;
  let sql := PyStr.strip body in
  if negb (PyStr.truthy sql) then ret results
  else
    do qid <-- start_query sql ;;
    do final <-- wait_for_query qid ;;
    let reason := default "" (StateChangeReason final) in
    let results :=
      results ++ [{| sql_key := key; query_execution_id := qid;
                     state := State final |}] in
    if negb (String.eqb (State final) "SUCCEEDED")
    then raise (RuntimeError ("Athena query failed for " +:+ key +:+ ". State="
                                +:+ State final +:+ ". Reason=" +:+ reason))
    else ret results.

Fixpoint run_keys (results : list Result) (keys : list string) : M (list Result) :=
  match keys with
  | [] => ret results
  | key :: rest => do results' <-- run_key results key ;; run_keys results' rest
  end.

Definition location : string :=
  "s3://" +:+ SQL_BUCKET cfg +:+ "/" +:+ SQL_PREFIX cfg.

Definition lambda_handler (steps : nat) : M Response :=
  do keys <-- list_sql_keys steps (SQL_BUCKET cfg) (SQL_PREFIX cfg) ;;
  match keys with
  | [] => ret (NoFiles ("No .sql files found under " +:+ location))
  | _ =>
      do results <-- run_keys [] keys ;;
      ret (Ran ("Ran " +:+ PyStr.of_nat (List.length results)
                  +:+ " Athena queries successfully from " +:+ location)
               results)
  end.

End Runner.

Definition empty_world : World := {| polls := 0; log := [] |}.

(** The service hands out [pages], one per request, starting with the
    request that carries [token]: every page but the last is truncated
    and names a non-empty token for the next one. *)
Inductive serves (svc : Services) (bucket prefix : string)
  : option string -> list Page -> Prop :=
| serves_last (token : option string) (page : Page) :
    list_objects_v2 svc bucket prefix token = inr page ->
    IsTruncated page = false ->
    serves svc bucket prefix token [page]
| serves_more (token : option string) (page : Page) (next : string) (pages : list Page) :
    list_objects_v2 svc bucket prefix token = inr page ->
    IsTruncated page = true ->
    NextContinuationToken page = Some next ->
    PyStr.truthy next = true ->
    serves svc bucket prefix (Some next) pages ->
    serves svc bucket prefix token (page :: pages).

(** Answer number [i] to [get_query_execution] shows the query still
    going. *)
Definition pending (svc : Services) (qid : string) (i : nat) : bool :=
  match get_query_execution svc qid i with
  | inr status => negb (terminal (State status))
  | inl _ => false
  end.

(** The calls of [k] turns of the polling loop that found the query
    still going. *)
Definition turns (seconds : Z) (qid : string) (k : nat) : list Event :=
  List.concat (replicate k [GetQueryExecution qid; Sleep seconds]).

Definition is_start (e : Event) : bool :=
  match e with StartQuery _ _ _ _ => true | _ => false end.

Definition is_poll (e : Event) : bool :=
  match e with GetQueryExecution _ => true | _ => false end.

(** The seconds slept, in total, according to the log. *)
Fixpoint slept (events : list Event) : Z :=
  match events with
  | [] => 0
  | Sleep seconds :: rest => (seconds + slept rest)%Z
  | _ :: rest => slept rest
  end.

End Athena.

(** ** Concrete runs of the Athena runner *)
Module AthenaRuns.
Import Athena.

Definition cfg : Config :=
  {| SQL_BUCKET := "sql-bkt"; SQL_PREFIX := "views/";
     ATHENA_DATABASE := "cms"; ATHENA_OUTPUT_S3 := "s3://athena-out/";
     ATHENA_WORKGROUP := "primary"; POLL_SECONDS := 3; MAX_POLLS := 600 |}.

Definition page_1 : Page :=
  {| Contents := ["views/002_totals.sql"; "views/readme.txt"];
     IsTruncated := true; NextContinuationToken := Some "t1" |}.

Definition page_2 : Page :=
  {| Contents := ["views/001_base.SQL"];
     IsTruncated := false; NextContinuationToken := None |}.

(** Two pages of keys; every query is seen running twice and then has
    succeeded. *)
Definition two_pages : Services :=
  {| list_objects_v2 := fun _ _ token =>
       match token with None => inr page_1 | Some _ => inr page_2 end;
     get_object := fun _ key => inr (" SELECT 1 -- " +:+ key);
     start_query_execution := fun sql => inr "q-1";
     get_query_execution := fun _ i =>
       inr {| State := if i mod 3 <? 2 then "RUNNING" else "SUCCEEDED";
              StateChangeReason := None |} |}.

(** The same bucket, with Athena reporting the first answer as FAILED. *)
Definition failing : Services :=
  {| list_objects_v2 := list_objects_v2 two_pages;
     get_object := get_object two_pages;
     start_query_execution := start_query_execution two_pages;
     get_query_execution := fun _ _ =>
       inr {| State := "FAILED"; StateChangeReason := Some "SYNTAX_ERROR" |} |}.

(** A listing that says it is truncated and gives no token. *)
Definition no_token : Services :=
  {| list_objects_v2 := fun _ _ _ =>
       inr {| Contents := ["views/001_base.sql"]; IsTruncated := true;
              NextContinuationToken := None |};
     get_object := get_object two_pages;
     start_query_execution := start_query_execution two_pages;
     get_query_execution := get_query_execution two_pages |}.

End AthenaRuns.

(** ** [lambda_handler] of the ingest Lambda, from its first line

    ([healthcare_gd_to_s3.py], lines 16-28, 95-108, 124-148, 170-172 and
    255-328.) *)
Module Entry.
Import Ingest.

(** The environment variables read at module level. *)
Record Env : Type := {
  GOOGLE_SERVICE_ACCOUNT_SECRET_NAME : option string;
  DRIVE_FOLDER_ID : option string;
  TARGET_S3_BUCKET : option string;
  GLUE_JOB_NAME : option string;
  S3_PREFIX : option string;
  DDB_TABLE_NAME : option string
}.

(** A response of [files().list(...)]: [resp.get("files", [])] and
    [resp.get("nextPageToken")]. *)
Record DrivePage : Type := {
  files : list FileRecord;
  nextPageToken : option string
}.

(** What the handler reads before the file loop.
    - [get_secret_value name]: the error raised, or the [SecretString]
      of the response ([None] when absent);
    - [build_client secret]: the error raised by [json.loads], by the
      credentials or by [build], if any;
    - [list_page q page_token]: the error raised, or the page. *)
Record Frontend : Type := {
  get_secret_value : string -> string + option string;
  build_client : string -> option string;
  list_page : string -> option string -> string + DrivePage
}.

(** How an invocation ends: with the counters and the trigger result
    (the handler returns its status 200), with an exception of the
    handler's own code or of the file loop, with an exception raised
    while the Drive client is built, or still inside the listing loop
    when the requests allowed to it run out. *)
Inductive Answer : Type :=
| Returned (c : Counts) (glue_result : GlueResult)
| Failed (e : Exn)
| ClientFailed (msg : string)
| StillListing.

Section Invocation.
Variable env : Env.
Variable front : Frontend.
Variable svc : Services.

(** [not value] on the result of [os.environ.get]. *)
Definition missing (value : option string) : bool :=
  negb (PyStr.truthy (or_empty value)).

Definition get_service_account_info_from_secret : Answer + string :=
  if missing (GOOGLE_SERVICE_ACCOUNT_SECRET_NAME env)
  then inl (Failed (ValueError "GOOGLE_SERVICE_ACCOUNT_SECRET_NAME env var is not set"))
  else
    match get_secret_value front (or_empty (GOOGLE_SERVICE_ACCOUNT_SECRET_NAME env)) with
    | inl msg => inl (ClientFailed msg)
    | inr secret_string =>
        if missing secret_string
        then inl (Failed (ValueError "SecretString is empty in Secrets Manager response"))
        else inr (or_empty secret_string)
    end.

Definition get_drive_service : option Answer :=
  match get_service_account_info_from_secret with
  | inl failure => Some failure
  | inr secret_string =>
      match build_client front secret_string with
      | Some msg => Some (ClientFailed msg)
      | None => None
      end
  end.

Definition get_ddb_table : option Answer :=
  if missing (DDB_TABLE_NAME env)
  then Some (Failed (ValueError "DDB_TABLE_NAME env var is not set"))
  else None.

Definition query : string :=
  if missing (DRIVE_FOLDER_ID env)
  then "'root' in parents and trashed = false"
  else "'" +:+ or_empty (DRIVE_FOLDER_ID env) +:+ "' in parents and trashed = false".

(** The [while True] loop of [list_files_in_folder], for at most
    [steps] requests: [None] when it is still going after them. *)
Fixpoint list_pages (steps : nat) (page_token : option string)
    (listed : list FileRecord) : option (string + list FileRecord) :=
  match steps with
  | 0 => None
  | S steps' =>
      match list_page front query page_token with
      | inl msg => Some (inl msg)
      | inr resp =>
          let listed := listed ++ files resp in
          if missing (nextPageToken resp) then Some (inr listed)
          else list_pages steps' (nextPageToken resp) listed
      end
  end.

Definition list_files_in_folder (steps : nat) : option (string + list FileRecord) :=
  list_pages steps None [].

Definition lambda_handler (steps : nat) (w : World) : Answer * World :=
  if missing (TARGET_S3_BUCKET env)
  then (Failed (ValueError "TARGET_S3_BUCKET env var is not set"), w)
  else
    match get_drive_service with
    | Some failure => (failure, w)
    | None =>
        match get_ddb_table with
        | Some failure => (failure, w)
        | None =>
            match list_files_in_folder steps with
            | None => (StillListing, w)
            | Some (inl msg) => (Failed (DriveError msg), w)
            | Some (inr listed) =>
                match ingest (or_empty (TARGET_S3_BUCKET env))
                             (IngestConfig.S3_PREFIX (S3_PREFIX env))
                             (GLUE_JOB_NAME env) svc listed w with
                | (Ret (c, glue_result), w') => (Returned c glue_result, w')
                | (Raise e, w') => (Failed e, w')
                end
            end
        end
    end.

End Invocation.

(** Drive hands out [pages], one per request, starting with the request
    that carries [page_token]: every page but the last names a non-empty
    token for the next one. *)
Inductive serves (env : Env) (front : Frontend)
  : option string -> list DrivePage -> Prop :=
| serves_last (page_token : option string) (page : DrivePage) :
    list_page front (query env) page_token = inr page ->
    missing (nextPageToken page) = true ->
    serves env front page_token [page]
| serves_more (page_token : option string) (page : DrivePage) (pages : list DrivePage) :
    list_page front (query env) page_token = inr page ->
    missing (nextPageToken page) = false ->
    serves env front (nextPageToken page) pages ->
    serves env front page_token (page :: pages).

(** The settings the handler insists on before it lists the folder. *)
Definition complete (env : Env) : bool :=
  negb (missing (TARGET_S3_BUCKET env))
  && negb (missing (GOOGLE_SERVICE_ACCOUNT_SECRET_NAME env))
  && negb (missing (DDB_TABLE_NAME env)).

End Entry.

(** ** Concrete invocations *)
Module Invocations.
Import Ingest Entry.

Definition env : Env :=
  {| GOOGLE_SERVICE_ACCOUNT_SECRET_NAME := Some "drive-sa";
     DRIVE_FOLDER_ID := Some "folder-1";
     TARGET_S3_BUCKET := Some "bkt";
     GLUE_JOB_NAME := Some "refine-job";
     S3_PREFIX := Some "/raw/";
     DDB_TABLE_NAME := Some "ingest-state" |}.

(** The same settings without the name of the state table. *)
Definition no_table : Env :=
  {| GOOGLE_SERVICE_ACCOUNT_SECRET_NAME := GOOGLE_SERVICE_ACCOUNT_SECRET_NAME env;
     DRIVE_FOLDER_ID := DRIVE_FOLDER_ID env;
     TARGET_S3_BUCKET := TARGET_S3_BUCKET env;
     GLUE_JOB_NAME := GLUE_JOB_NAME env;
     S3_PREFIX := S3_PREFIX env;
     DDB_TABLE_NAME := None |}.

Definition first_page : DrivePage :=
  {| files := [Scenario.f_owner]; nextPageToken := Some "p2" |}.

Definition second_page : DrivePage :=
  {| files := [Scenario.f_undated]; nextPageToken := None |}.

Definition two_pages : Frontend :=
  {| get_secret_value := fun _ => inr (Some "{}");
     build_client := fun _ => None;
     list_page := fun _ page_token =>
       match page_token with None => inr first_page | Some _ => inr second_page end |}.

(** Drive names the same token on every page. *)
Definition same_token : Frontend :=
  {| get_secret_value := get_secret_value two_pages;
     build_client := build_client two_pages;
     list_page := fun _ _ => inr first_page |}.

End Invocations.

(** * Properties *)

(** ** String order *)
Section StringOrder.

Lemma code_compare (x y : ascii) :
  (PyStr.code x ?= PyStr.code y) = Ascii.compare x y.
Proof.
  unfold PyStr.code, Ascii.compare, nat_of_ascii.
  symmetry. apply N2Nat.inj_compare.
Qed.

Lemma code_inj (x y : ascii) : PyStr.code x = PyStr.code y -> x = y.
Proof.
  intros H. apply Ascii.compare_eq_iff.
  rewrite <- code_compare. by apply Nat.compare_eq_iff.
Qed.

(** [PyStr.gt] is the strict lexicographic order of the standard library. *)
Lemma gt_ltb (a b : string) : PyStr.gt a b = String.ltb b a.
Proof.
  unfold String.ltb.
  revert b; induction a as [|x a IH]; intros [|y b]; simpl; try reflexivity.
  rewrite <- code_compare.
  destruct (Nat.compare_spec (PyStr.code y) (PyStr.code x)) as [E|L|G].
  - rewrite E, Nat.ltb_irrefl. apply IH.
  - by apply Nat.ltb_lt in L as ->.
  - assert ((PyStr.code y <? PyStr.code x) = false) as -> by (apply Nat.ltb_ge; lia).
    by apply Nat.ltb_lt in G as ->.
Qed.

Lemma gt_irrefl (a : string) : PyStr.gt a a = false.
Proof.
  induction a as [|x a IH]; simpl; [done|].
  by rewrite Nat.ltb_irrefl.
Qed.

(** If [a] does not exceed [b] and [c] exceeds [b], then [a] does not
    exceed [c]. *)
Lemma gt_chain (a b c : string) :
  PyStr.gt a b = false -> PyStr.gt c b = true -> PyStr.gt a c = false.
Proof.
  revert b c; induction a as [|x a IH]; intros [|y b] [|z c]; simpl; try done.
  repeat match goal with
         | |- context [?m <? ?n] => destruct (Nat.ltb_spec m n)
         end; try done; try lia.
  apply IH.
Qed.

End StringOrder.

(** ** Routing *)
Section Routing.

(** First match wins, for any rule list. *)
Lemma route_first_match (rules : list (Re.pattern * string)) (file_name : string) :
  (exists before pattern folder after,
      rules = before ++ (pattern, folder) :: after
      /\ Forall (fun r => Re.matches (fst r) file_name = false) before
      /\ Re.matches pattern file_name = true
      /\ route rules file_name = folder)
  \/ (Forall (fun r => Re.matches (fst r) file_name = false) rules
      /\ route rules file_name = "_unmapped").
Proof.
  induction rules as [|[p f] rules IH]; simpl.
  - right. by split.
  - destruct (Re.matches p file_name) eqn:Hm.
    + left. exists [], p, f, rules. by repeat split.
    + destruct IH as [(before & p' & f' & after & -> & Hb & Hp & Hr) | [Hn Hr]].
      * left. exists ((p, f) :: before), p', f', after.
        repeat split; try done. by constructor.
      * right. split; [by constructor | done].
Qed.

End Routing.

(** ** Matching a name against a pattern *)
Section RoutingSpec.
Import Re.

Lemma str_app_cons (c : ascii) (a b : string) : String c a +:+ b = String c (a +:+ b).
Proof. reflexivity. Qed.

Lemma app_line_break_inv (s0 : string) : s0 +:+ line_break <> EmptyString.
Proof. by destruct s0. Qed.

Lemma matches_accepts (p : pattern) (s : string) :
  matches p s = true <-> accepts p s.
Proof.
  revert s. induction p as [|a p IH]; intros s.
  - simpl. unfold accepts. split.
    + destruct s as [|c [|d s']]; simpl; try done.
      * intros _. left. constructor.
      * intros ->%Ascii.eqb_eq. right. exists EmptyString. split; [done|constructor].
    + intros [H|(s0 & -> & H)]; inversion H; subst; [done|].
      done.
  - destruct a as [l| |].
    + destruct s as [|c s']; simpl.
      * split; [done|]. intros [H|(s0 & Heq & H)]; [inversion H|].
        symmetry in Heq. by apply app_line_break_inv in Heq.
      * rewrite andb_true_iff, IH. unfold lit_matches. rewrite Ascii.eqb_eq.
        split.
        -- intros [Hl [Hf|(s0 & -> & Hf)]].
           ++ left. by constructor.
           ++ right. exists (String c s0). split; [done|by constructor].
        -- intros [Hf|(s0 & Heq & Hf)].
           ++ inversion Hf; subst. split; [done|by left].
           ++ inversion Hf; subst. rewrite str_app_cons in Heq. injection Heq as -> ->.
              split; [done|]. right. eauto.
    + destruct s as [|c s']; simpl.
      * split; [done|]. intros [H|(s0 & Heq & H)]; [inversion H|].
        symmetry in Heq. by apply app_line_break_inv in Heq.
      * rewrite andb_true_iff, IH.
        split.
        -- intros [Hl [Hf|(s0 & -> & Hf)]].
           ++ left. by constructor.
           ++ right. exists (String c s0). split; [done|by constructor].
        -- intros [Hf|(s0 & Heq & Hf)].
           ++ inversion Hf; subst. split; [done|by left].
           ++ inversion Hf; subst. rewrite str_app_cons in Heq. injection Heq as -> ->.
              split; [done|]. right. eauto.
    + cbn [matches].
      induction s as [|c t IHs].
      * rewrite orb_false_r, IH. split.
        -- intros [Hf|(s0 & Heq & _)].
           ++ left. by constructor.
           ++ symmetry in Heq. by apply app_line_break_inv in Heq.
        -- intros [Hf|(s0 & Heq & _)].
           ++ inversion Hf; subst. by left.
           ++ symmetry in Heq. by apply app_line_break_inv in Heq.
      * rewrite orb_true_iff, andb_true_iff, negb_true_iff, IH, IHs.
        split.
        -- intros [[Hf|(s0 & Heq & Hf)]|[Hc [Hf|(s0 & -> & Hf)]]].
           ++ left. by constructor.
           ++ right. exists s0. split; [done|by constructor].
           ++ left. apply full_star_step; [|done].
              intros ->. by rewrite Ascii.eqb_refl in Hc.
           ++ right. exists (String c s0). split; [done|].
              apply full_star_step; [|done].
              intros ->. by rewrite Ascii.eqb_refl in Hc.
        -- intros [Hf|(s0 & Heq & Hf)].
           ++ inversion Hf; subst.
              ** left. by left.
              ** right. split; [by apply Ascii.eqb_neq|by left].
           ++ inversion Hf; subst.
              ** left. right. eauto.
              ** rewrite str_app_cons in Heq. injection Heq as -> ->.
                 right. split; [by apply Ascii.eqb_neq|]. right. eauto.
Qed.

Lemma full_single_line (p : pattern) (s : string) :
  full p s -> newline_free p = true -> single_line s = true.
Proof.
  induction 1 as [|l c p s Hl _ IH|c p s Hd _ IH|p s _ IH|c p s Hc _ IH]; simpl; try done.
  - intros [Hn Hp]%andb_true_iff. rewrite (IH Hp), andb_true_r.
    apply negb_true_iff, Ascii.eqb_neq. intros ->.
    apply negb_true_iff, Ascii.eqb_neq in Hn. apply Hn. by rewrite Hl.
  - intros Hp. rewrite (IH Hp), andb_true_r.
    apply negb_true_iff, Ascii.eqb_neq. intros ->. done.
  - intros Hp. rewrite (IH Hp), andb_true_r.
    by apply negb_true_iff, Ascii.eqb_neq.
Qed.

Lemma route_first_accepted (rules : list (Re.pattern * string)) (file_name : string) :
  (exists before pattern folder after,
      rules = before ++ (pattern, folder) :: after
      /\ Forall (fun r => ~ accepts (fst r) file_name) before
      /\ accepts pattern file_name
      /\ route rules file_name = folder)
  \/ (Forall (fun r => ~ accepts (fst r) file_name) rules
      /\ route rules file_name = "_unmapped").
Proof.
  destruct (route_first_match rules file_name)
    as [(before & p & f & after & -> & Hb & Hp & Hr)|[Hn Hr]].
  - left. exists before, p, f, after. repeat split; try done.
    + eapply Forall_impl; [exact Hb|]. intros r Hr' Ha%matches_accepts. congruence.
    + by apply matches_accepts.
  - right. split; [|done].
    eapply Forall_impl; [exact Hn|]. intros r Hr' Ha%matches_accepts. congruence.
Qed.

Lemma accepts_full (p : pattern) (s : string) :
  (forall s0, s <> s0 +:+ line_break) -> accepts p s <-> full p s.
Proof.
  intros Hno. unfold accepts. split; [|by left].
  intros [H|(s0 & Heq & _)]; [done|]. by destruct (Hno s0).
Qed.

End RoutingSpec.

(** C4 (as stated, refuted): with the standard rules [unknownfile.csv] is
    not filed under the identifier [unmapped]; and the ownership file
    with a line break after its name is filed under [nh_ownership]
    although no pattern of the rule list matches that full name. *)
Lemma C4_identifier_and_line_break_differ :
  dataset_folder_for "unknownfile.csv" <> "unmapped"
  /\ dataset_folder_for ("NH_Ownership_Oct2024.csv" +:+ Re.line_break) = "nh_ownership"
  /\ Forall (fun r => ~ Re.full (fst r) ("NH_Ownership_Oct2024.csv" +:+ Re.line_break))
       ROUTE_RULES.
Proof.
  split; [by vm_compute|]. split; [by vm_compute|].
  assert (forallb (fun r => Re.newline_free (fst r)) ROUTE_RULES = true) as Hfree
    by (by vm_compute).
  apply Forall_forall. intros r Hin Hfull.
  apply full_single_line in Hfull; [by vm_compute in Hfull|].
  apply (proj1 (forallb_forall _ _) Hfree). by apply list_elem_of_In.
Qed.

(** C4 (amended): for every file name the classifier returns the folder of
    the first rule of [ROUTE_RULES], in list order, whose pattern matches
    the full name case-insensitively, where a line break that ends the
    name is left out of the match, and the reserved identifier
    [_unmapped] (with a leading underscore) when no rule does; so for a
    name that does not end in a line break it is the first rule whose
    pattern matches the full name, letter case apart.
    [NH_Ownership_Oct2024.csv] goes to [nh_ownership], in any letter case,
    and [unknownfile.csv] to [_unmapped]; with an empty rule list every
    name goes to [_unmapped]. *)
Theorem C4_dataset_folder_for_first_match (file_name : string) :
  ((exists before pattern folder after,
       ROUTE_RULES = before ++ (pattern, folder) :: after
       /\ Forall (fun r => ~ Re.accepts (fst r) file_name) before
       /\ Re.accepts pattern file_name
       /\ dataset_folder_for file_name = folder)
   \/ (Forall (fun r => ~ Re.accepts (fst r) file_name) ROUTE_RULES
       /\ dataset_folder_for file_name = "_unmapped"))
  /\ ((forall s0, file_name <> s0 +:+ Re.line_break) ->
      (exists before pattern folder after,
          ROUTE_RULES = before ++ (pattern, folder) :: after
          /\ Forall (fun r => ~ Re.full (fst r) file_name) before
          /\ Re.full pattern file_name
          /\ dataset_folder_for file_name = folder)
      \/ (Forall (fun r => ~ Re.full (fst r) file_name) ROUTE_RULES
          /\ dataset_folder_for file_name = "_unmapped"))
  /\ dataset_folder_for "NH_Ownership_Oct2024.csv" = "nh_ownership"
  /\ dataset_folder_for "nh_ownership_oct2024.CSV" = "nh_ownership"
  /\ dataset_folder_for "unknownfile.csv" = "_unmapped"
  /\ route [] file_name = "_unmapped".
Proof.
  split; [apply route_first_accepted|].
  split; [|by vm_compute].
  intros Hno.
  destruct (route_first_accepted ROUTE_RULES file_name)
    as [(before & p & f & after & Heq & Hb & Hp & Hr)|[Hn Hr]].
  - left. exists before, p, f, after. repeat split; try done.
    + eapply Forall_impl; [exact Hb|]. intros r Hr' Hf. apply Hr'. by left.
    + by apply accepts_full.
  - right. split; [|done].
    eapply Forall_impl; [exact Hn|]. intros r Hr' Hf. apply Hr'. by left.
Qed.

(** ** Column names *)
Section Columns.


(** A name seen for the first time is kept as it is. *)
Lemma uniqueify_head (c : string) (cols : list string) :
  head (Refine.uniqueify (c :: cols)) = Some c.
Proof. reflexivity. Qed.

End Columns.

(** ** Change detection *)

Lemma truthy_eqb (s : string) : PyStr.truthy s = negb (String.eqb s "").
Proof. by destruct s. Qed.

(** C2: for every file identifier and candidate timestamp,
    [should_process_file] answers [True] when the table has no item for the
    identifier, [True] when the item has no [modifiedTime] or an empty one,
    and otherwise answers whether the candidate is strictly greater than the
    stored timestamp in lexicographic order, so [False] when the two are
    equal; the table itself is only read. *)
Theorem C2_should_process_file_decision
    (file_id candidate : string) (w : Ingest.World) :
  let answer t := fst (Ingest.should_process_file file_id t w) in
  match Ingest.ddb w !! file_id with
  | None => answer candidate = Ingest.Ret true
  | Some item =>
      match item !! "modifiedTime" with
      | None => answer candidate = Ingest.Ret true
      | Some stored =>
          if String.eqb stored "" then answer candidate = Ingest.Ret true
          else answer candidate = Ingest.Ret (String.ltb stored candidate)
               /\ answer stored = Ingest.Ret false
      end
  end
  /\ Ingest.ddb (snd (Ingest.should_process_file file_id candidate w)) = Ingest.ddb w.
Proof.
  unfold Ingest.should_process_file, Ingest.bind, Ingest.emit, Ingest.get_world,
    Ingest.ret; simpl.
  split.
  - destruct (Ingest.ddb w !! file_id) as [item|] eqn:Hitem; [|done].
    destruct (item !! "modifiedTime") as [stored|] eqn:Hts.
    + assert (item <> ∅) as Hne by (intros ->; by rewrite lookup_empty in Hts).
      rewrite bool_decide_eq_false_2 by done.
      rewrite truthy_eqb, negb_involutive.
      destruct (String.eqb stored ""); [done|].
      by rewrite gt_irrefl, gt_ltb.
    + by case_bool_decide.
  - repeat case_match; done.
Qed.

(** ** Glue trigger *)
Section Trigger.
Import Ingest.

Variable bucket prefix : string.
Variable svc : Services.


Lemma first_active_found (before after : list (gmap string string)) (r : gmap string string) :
  Forall (fun x => active x = false) before ->
  active r = true ->
  first_active (before ++ r :: after)
  = Some (or_empty (r !! "JobRunState"), r !! "Id").
Proof.
  intros Hb Hr. induction Hb as [|x before Hx _ IH]; simpl.
  - unfold active in Hr. by rewrite Hr.
  - unfold active in Hx. by rewrite Hx.
Qed.

Lemma first_active_none (runs : list (gmap string string)) :
  Forall (fun x => active x = false) runs -> first_active runs = None.
Proof.
  induction 1 as [|x runs Hx _ IH]; simpl; [done|].
  unfold active in Hx. by rewrite Hx.
Qed.

(** Whenever the guard gets past the existing-run check it reads the
    clock, records the call and returns what [start_job_run] answers. *)
Lemma guard_starts (job : string) (p s u : Z) (w : World) :
  (0 < p)%Z ->
  PyStr.truthy job = true ->
  match get_job_runs svc job 5 with
  | inr runs => first_active runs
  | inl _ => None
  end = None ->
  exists arguments,
    arguments !! "--processed_files" = Some (pretty p)
    /\ log (snd (start_glue_job_if_needed bucket prefix (Some job) svc p s u w))
       = log w ++ [GetJobRuns job 5; StartJobRun job arguments]
    /\ fst (start_glue_job_if_needed bucket prefix (Some job) svc p s u w)
       = match start_job_run svc job arguments with
         | inl msg => Raise (GlueError msg)
         | inr job_run_id => Ret (Started job_run_id)
         end.
Proof.
  intros Hp Hjob Hnone.
  unfold start_glue_job_if_needed.
  assert ((p <=? 0)%Z = false) as -> by lia.
  unfold require_env. rewrite Hjob.
  unfold bind, ret, emit, utc_now_iso, raise; simpl.
  rewrite Hnone; simpl.
  eexists. split; [|split].
  2: { destruct (start_job_run svc job _); simpl;
       rewrite <- app_assoc; reflexivity. }
  - by simplify_map_eq.
  - by destruct (start_job_run svc job _).
Qed.

End Trigger.

(** C6: the trigger guard decides in the order of the table.  With a
    processed count of 0 (or less) it returns not-started with the reason
    "No new/changed files to process" and makes no call at all, whatever the
    job's runs are.  With a positive count, a job name set and a listing in
    which some run is STARTING, RUNNING or STOPPING, it returns not-started
    with the state and the identifier of the first such run and starts
    nothing.  With a positive count and a listing without such a run it
    calls [start_job_run] once, passing the counts, and returns the new
    run's identifier. *)
Theorem C6_trigger_guard_decision
    (bucket prefix : string) (svc : Ingest.Services)
    (job : string) (p s u : Z) (w : Ingest.World) :
  (forall job_name,
      (p <= 0)%Z ->
      Ingest.start_glue_job_if_needed bucket prefix job_name svc p s u w
      = (Ingest.Ret (Ingest.NotStarted "No new/changed files to process"), w)
      /\ PyStr.contains "no new/changed files"
           (PyStr.lower "No new/changed files to process") = true)
  /\ (forall before r after,
         (0 < p)%Z ->
         PyStr.truthy job = true ->
         Ingest.get_job_runs svc job 5 = inr (before ++ r :: after) ->
         Forall (fun x => Ingest.active x = false) before ->
         Ingest.active r = true ->
         fst (Ingest.start_glue_job_if_needed bucket prefix (Some job) svc p s u w)
         = Ingest.Ret (Ingest.AlreadyRunning
                         ("Glue job already " +:+ Ingest.or_empty (r !! "JobRunState"))
                         (r !! "Id"))
         /\ Ingest.log (snd (Ingest.start_glue_job_if_needed
                               bucket prefix (Some job) svc p s u w))
            = Ingest.log w ++ [Ingest.GetJobRuns job 5])
  /\ (forall runs,
         (0 < p)%Z ->
         PyStr.truthy job = true ->
         Ingest.get_job_runs svc job 5 = inr runs ->
         Forall (fun x => Ingest.active x = false) runs ->
         exists arguments,
           arguments !! "--processed_files" = Some (pretty p)
           /\ Ingest.log (snd (Ingest.start_glue_job_if_needed
                                 bucket prefix (Some job) svc p s u w))
              = Ingest.log w ++ [Ingest.GetJobRuns job 5; Ingest.StartJobRun job arguments]
           /\ fst (Ingest.start_glue_job_if_needed bucket prefix (Some job) svc p s u w)
              = match Ingest.start_job_run svc job arguments with
                | inl msg => Ingest.Raise (Ingest.GlueError msg)
                | inr job_run_id => Ingest.Ret (Ingest.Started job_run_id)
                end).
Proof.
  split; [|split].
  - intros job_name Hp. split; [|by vm_compute].
    unfold Ingest.start_glue_job_if_needed.
    by assert ((p <=? 0)%Z = true) as -> by lia.
  - intros before r after Hp Hjob Hruns Hb Hr.
    unfold Ingest.start_glue_job_if_needed.
    assert ((p <=? 0)%Z = false) as -> by lia.
    unfold Ingest.require_env. rewrite Hjob.
    unfold Ingest.bind, Ingest.ret, Ingest.emit; simpl.
    by rewrite Hruns, (first_active_found _ _ _ Hb Hr).
  - intros runs Hp Hjob Hruns Hnone.
    apply guard_starts; try done.
    rewrite Hruns. by apply first_active_none.
Qed.

(** C7: when the query for existing runs raises, the guard neither
    propagates that error nor stops: with a positive processed count and a
    job name set it goes on to call [start_job_run], and its outcome is the
    outcome of that call. *)
Theorem C7_failed_run_check_does_not_block
    (bucket prefix : string) (svc : Ingest.Services)
    (job err : string) (p s u : Z) (w : Ingest.World) :
  (0 < p)%Z ->
  PyStr.truthy job = true ->
  Ingest.get_job_runs svc job 5 = inl err ->
  exists arguments,
    arguments !! "--processed_files" = Some (pretty p)
    /\ Ingest.log (snd (Ingest.start_glue_job_if_needed
                          bucket prefix (Some job) svc p s u w))
       = Ingest.log w ++ [Ingest.GetJobRuns job 5; Ingest.StartJobRun job arguments]
    /\ fst (Ingest.start_glue_job_if_needed bucket prefix (Some job) svc p s u w)
       = match Ingest.start_job_run svc job arguments with
         | inl msg => Ingest.Raise (Ingest.GlueError msg)
         | inr job_run_id => Ingest.Ret (Ingest.Started job_run_id)
         end.
Proof.
  intros Hp Hjob Herr. apply guard_starts; try done. by rewrite Herr.
Qed.

(** ** Dataset loop of the Glue job *)
Section DatasetLoop.
Import Refine.

Variable opts : Options.
Variable spark : Spark.



Lemma recorded_add_processed x r :
  recorded (add_processed x r) ≡ₚ fst x :: recorded r.
Proof.
  unfold recorded; simpl. rewrite map_app; simpl.
  rewrite <- app_assoc; simpl. by rewrite <- Permutation_middle.
Qed.

Lemma recorded_add_skipped x r :
  recorded (add_skipped x r) ≡ₚ fst x :: recorded r.
Proof.
  unfold recorded; simpl. rewrite map_app; simpl.
  rewrite <- app_assoc; simpl. by rewrite <- !Permutation_middle.
Qed.

Lemma recorded_add_failed x r :
  recorded (add_failed x r) ≡ₚ fst x :: recorded r.
Proof.
  unfold recorded; simpl. rewrite map_app; simpl.
  rewrite !app_assoc. by rewrite <- Permutation_cons_append.
Qed.

Lemma recorded_on_exception dataset msg r :
  recorded (on_exception opts dataset msg r) ≡ₚ dataset :: recorded r.
Proof.
  unfold on_exception.
  destruct (SKIP_MISSING opts && is_missing_path_error msg).
  - apply (recorded_add_skipped (dataset, msg)).
  - apply (recorded_add_failed (dataset, msg)).
Qed.

Lemma processed_on_exception dataset msg r :
  processed (on_exception opts dataset msg r) = processed r.
Proof.
  unfold on_exception.
  by destruct (SKIP_MISSING opts && is_missing_path_error msg).
Qed.

(** One iteration: the dataset is loaded, lands in exactly one list, and
    a path is written exactly when the dataset is recorded as processed. *)
Lemma run_dataset_step (tr : Trace) (r : Results) (dataset : string) :
  let st := run_dataset opts spark (tr, r) dataset in
  loaded (fst st) = loaded tr ++ [raw_path_of opts dataset]
  /\ recorded (snd st) ≡ₚ dataset :: recorded r
  /\ (written tr = map snd (processed r) ->
      written (fst st) = map snd (processed (snd st))).
Proof.
  unfold run_dataset, raw_path_of, refined_path_of; simpl.
  destruct (load spark _) as [msg|columns]; simpl.
  - split; [done|]. split; [apply recorded_on_exception|].
    by rewrite processed_on_exception.
  - destruct (SKIP_MISSING opts && (List.length columns =? 0)); simpl.
    + split; [done|]. split; [|done].
      apply (recorded_add_skipped (dataset, "no columns")).
    + destruct (transform_and_write spark _ _) as [msg|]; simpl.
      * split; [done|]. split; [apply recorded_on_exception|].
        by rewrite processed_on_exception.
      * split; [done|]. split.
        -- apply (recorded_add_processed (dataset, _)).
        -- intros ->. by rewrite map_app.
Qed.

Lemma fold_run_dataset (datasets : list string) (tr : Trace) (r : Results) :
  let st := fold_left (run_dataset opts spark) datasets (tr, r) in
  loaded (fst st) = loaded tr ++ map (raw_path_of opts) datasets
  /\ recorded (snd st) ≡ₚ datasets ++ recorded r
  /\ (written tr = map snd (processed r) ->
      written (fst st) = map snd (processed (snd st))).
Proof.
  revert tr r. induction datasets as [|d ds IH]; intros tr r; cbn [fold_left map].
  - cbv zeta; simpl. by rewrite app_nil_r.
  - pose proof (run_dataset_step tr r d) as Hstep. cbv zeta in Hstep.
    destruct (run_dataset opts spark (tr, r) d) as [tr1 r1].
    destruct Hstep as (Hl & Hr & Hw). simpl in Hl, Hr, Hw.
    pose proof (IH tr1 r1) as IH1. cbv zeta in IH1 |- *.
    destruct IH1 as (IHl & IHr & IHw).
    split; [|split].
    + rewrite IHl, Hl, <- app_assoc. done.
    + rewrite IHr, Hr. simpl. symmetry. apply Permutation_middle.
    + intros Hinit. apply IHw, Hw, Hinit.
Qed.

End DatasetLoop.

(** C3: in [run], every dataset of the list is loaded, in list order,
    whatever the earlier datasets raised; every dataset is recorded in
    exactly one of the lists processed, skipped_missing and failed (the three
    lists together are a rearrangement of the dataset list); the refined
    paths written are exactly those of the processed entries; and the run
    raises its RuntimeError, carrying the failed list, exactly when
    FAIL_JOB_ON_DATASET_FAILURE is set and the failed list is non-empty,
    which is decided after the whole list has been gone through. *)
Theorem C3_run_isolates_dataset_failures (opts : Refine.Options) (spark : Refine.Spark) :
  let trace := fst (Refine.run opts spark) in
  let results := snd (Refine.run_loop opts spark (Refine.DATASETS opts)) in
  Refine.loaded trace = map (Refine.raw_path_of opts) (Refine.DATASETS opts)
  /\ Refine.recorded results ≡ₚ Refine.DATASETS opts
  /\ Refine.written trace = map snd (Refine.processed results)
  /\ snd (Refine.run opts spark)
     = if Refine.FAIL_JOB_ON_DATASET_FAILURE opts
          && negb (bool_decide (Refine.failed results = []))
       then Refine.RuntimeError (Refine.failed results)
       else Refine.Returned results.
Proof.
  unfold Refine.run, Refine.run_loop.
  pose proof (fold_run_dataset opts spark (Refine.DATASETS opts)
                {| Refine.loaded := []; Refine.written := [] |}
                Refine.empty_results) as (Hl & Hr & Hw).
  destruct (fold_left _ _ _) as [tr r]; simpl in *.
  assert ((0 <? List.length (Refine.failed r))
          = negb (bool_decide (Refine.failed r = []))) as ->.
  { by destruct (Refine.failed r). }
  rewrite app_nil_r in Hr.
  destruct (Refine.FAIL_JOB_ON_DATASET_FAILURE opts && _); simpl; auto.
Qed.

(** ** One file of the ingest loop *)
Section FileStep.
Import Ingest.

Variable bucket prefix : string.
Variable svc : Services.


Lemma needs_transfer_spec (f : FileRecord) (w : World) :
  fst (needs_transfer f w) = Ret (stale (ddb w !! id f) f)
  /\ ddb (snd (needs_transfer f w)) = ddb w
  /\ tmp (snd (needs_transfer f w)) = tmp w
  /\ log (snd (needs_transfer f w))
     = log w ++ (if no_timestamp (modifiedTime f) then [] else [GetItem (id f)]).
Proof.
  unfold needs_transfer, stale.
  destruct (no_timestamp (modifiedTime f)); simpl.
  - by rewrite app_nil_r.
  - unfold should_process_file, bind, emit, get_world, ret; simpl.
    destruct (ddb w !! id f) as [item|]; [|done].
    case_bool_decide as Hitem.
    + subst item. by rewrite lookup_empty.
    + destruct (item !! "modifiedTime") as [t|]; [|done].
      by destruct (PyStr.truthy t).
Qed.

Lemma transfer_and_commit_cases (f : FileRecord) (key : string) (w : World) :
  let r := transfer_and_commit bucket svc f key w in
  match get_media svc (id f) with
  | inl partial =>
      fst r = Raise (DriveError "download failed")
      /\ ddb (snd r) = ddb w
      /\ tmp (snd r) = <[tmp_path_of f := partial]> (tmp w)
      /\ log (snd r) = log w ++ [Download (id f)]
  | inr content =>
      match upload_error svc bucket key with
      | Some msg =>
          fst r = Raise (S3Error msg)
          /\ ddb (snd r) = ddb w
          /\ tmp (snd r) = <[tmp_path_of f := content]> (tmp w)
          /\ log (snd r) = log w ++ [Download (id f); Upload bucket key]
      | None =>
          log (snd r)
          = log w ++ [Download (id f); Upload bucket key;
                      Remove (tmp_path_of f); PutItem (id f)]
          /\ match put_item_error svc (id f) with
             | Some msg => fst r = Raise (DynamoError msg) /\ ddb (snd r) = ddb w
             | None =>
                 fst r = Ret tt
                 /\ exists item,
                     ddb (snd r) = <[id f := item]> (ddb w)
                     /\ item !! "modifiedTime" = Some (or_empty (modifiedTime f))
             end
      end
  end.
Proof.
  unfold transfer_and_commit, download_to_tmp, upload_file_to_s3, remove_quietly,
    update_state, utc_now_iso, bind, emit, get_world, set_tmp, set_s3, set_ddb,
    ret, raise; simpl.
  destruct (get_media svc (id f)) as [partial|content]; simpl.
  - done.
  - rewrite lookup_insert_eq; simpl.
    destruct (upload_error svc bucket key) as [msg|]; simpl.
    + by rewrite <- ?app_assoc.
    + destruct (remove_fails svc (tmp_path_of f)); simpl;
        destruct (put_item_error svc (id f)) as [msg|]; simpl;
        rewrite <- ?app_assoc; simpl; (split; [done|]); try done;
        (split; [done|]); eexists; (split; [reflexivity|]);
        by simplify_map_eq.
Qed.

End FileStep.

Section FileStepCases.
Import Ingest.

Variable bucket prefix : string.
Variable svc : Services.


(** The three ways through the loop body. *)
Lemma handle_file_cases (c : Counts) (f : FileRecord) (w : World) :
  let r := handle_file bucket prefix svc c f w in
  if negb (is_csv f) then r = (Ret c, w)
  else if negb (stale (ddb w !! id f) f)
  then fst r = Ret {| processed := processed c; skipped := skipped c + 1;
                      unmapped := unmapped c |}
       /\ ddb (snd r) = ddb w
       /\ tmp (snd r) = tmp w
       /\ log (snd r) = log w ++ [GetItem (id f)]
  else
    let rt := transfer_and_commit bucket svc f (build_s3_key prefix (name f))
                (snd (needs_transfer f w)) in
    snd r = snd rt
    /\ fst r = match fst rt with
               | Ret _ => Ret {| processed := processed (bump_unmapped c f) + 1;
                                 skipped := skipped (bump_unmapped c f);
                                 unmapped := unmapped (bump_unmapped c f) |}
               | Raise e => Raise e
               end.
Proof.
  unfold handle_file.
  destruct (is_csv f); simpl; [|done].
  destruct (needs_transfer_spec f w) as (Hv & Hd & Ht & Hl).
  unfold bind, ret.
  destruct (needs_transfer f w) as [o w1]; simpl in *. subst o.
  destruct (stale (ddb w !! id f) f) eqn:Hstale; simpl.
  - fold (bump_unmapped c f).
    by destruct (transfer_and_commit bucket svc f _ w1) as [[[]|e] w2].
  - repeat split; try done.
    rewrite Hl. unfold stale in Hstale.
    by destruct (no_timestamp (modifiedTime f)).
Qed.

Lemma transfer_and_commit_downloads (f : FileRecord) (key : string) (w : World) :
  Download (id f) ∈ log (snd (transfer_and_commit bucket svc f key w)).
Proof.
  pose proof (transfer_and_commit_cases bucket svc f key w) as H. cbv zeta in H.
  destruct (get_media svc (id f)); [destruct H as (_ & _ & _ & ->); set_solver|].
  destruct (upload_error svc bucket key); [destruct H as (_ & _ & _ & ->); set_solver|].
  destruct H as [-> _]. set_solver.
Qed.

(** What an upload error leaves behind. *)
Lemma upload_failure_state (c : Counts) (f : FileRecord) (w : World) (msg : string) :
  fst (handle_file bucket prefix svc c f w) = Raise (S3Error msg) ->
  is_csv f = true
  /\ stale (ddb w !! id f) f = true
  /\ ddb (snd (handle_file bucket prefix svc c f w)) = ddb w
  /\ (exists content,
        tmp (snd (handle_file bucket prefix svc c f w))
        = <[tmp_path_of f := content]> (tmp w))
  /\ exists gets,
      log (snd (handle_file bucket prefix svc c f w))
      = log w ++ gets ++ [Download (id f);
                          Upload bucket (build_s3_key prefix (name f))]
      /\ gets ⊆ [GetItem (id f)].
Proof.
  intros Hraise.
  pose proof (handle_file_cases c f w) as H. cbv zeta in H.
  destruct (is_csv f); simpl in H; [|by rewrite H in Hraise].
  destruct (stale (ddb w !! id f) f); simpl in H;
    [|destruct H as [H _]; by rewrite H in Hraise].
  destruct H as [Hw Hr]. rewrite Hr in Hraise. rewrite Hw. clear Hw Hr.
  destruct (needs_transfer_spec f w) as (_ & Hd & Ht & Hl).
  pose proof (transfer_and_commit_cases bucket svc f (build_s3_key prefix (name f))
                (snd (needs_transfer f w))) as H. cbv zeta in H.
  destruct (get_media svc (id f)) as [partial|content].
  { destruct H as [H _]. by rewrite H in Hraise. }
  destruct (upload_error svc bucket _) as [msg'|].
  - destruct H as (_ & Hd' & Ht' & Hl').
    repeat split; try done.
    + by rewrite Hd', Hd.
    + exists content. by rewrite Ht', Ht.
    + eexists. rewrite Hl', Hl, <- app_assoc. split; [reflexivity|].
      destruct (no_timestamp (modifiedTime f)); set_solver.
  - destruct H as [_ H].
    destruct (put_item_error svc (id f)); destruct H as [H _];
      by rewrite H in Hraise.
Qed.

End FileStepCases.


Section Retry.
Import Ingest.

Variable bucket prefix : string.
Variable svc : Services.

Lemma or_empty_no_timestamp (v : option string) :
  no_timestamp v = true -> or_empty v = "".
Proof. destruct v as [[|c t]|]; simpl; done. Qed.

(** A CSV file whose entry is stale is downloaded, and when the step
    returns it has been counted as processed and its entry rewritten. *)
Lemma handle_file_transfers (c : Counts) (f : FileRecord) (w : World) :
  is_csv f = true ->
  stale (ddb w !! id f) f = true ->
  let r := handle_file bucket prefix svc c f w in
  (exists after,
      log (snd r)
      = log w ++ (if no_timestamp (modifiedTime f) then [] else [GetItem (id f)])
          ++ Download (id f) :: after)
  /\ (forall c', fst r = Ret c' ->
        skipped c' = skipped c
        /\ processed c' = processed c + 1
        /\ exists item,
            ddb (snd r) = <[id f := item]> (ddb w)
            /\ item !! "modifiedTime" = Some (or_empty (modifiedTime f))).
Proof.
  intros Hcsv Hstale.
  pose proof (handle_file_cases bucket prefix svc c f w) as H. cbv zeta in H |- *.
  rewrite Hcsv, Hstale in H; simpl in H. destruct H as [Hw Hr].
  rewrite Hw, Hr. clear Hw Hr.
  destruct (needs_transfer_spec f w) as (_ & Hd & _ & Hl).
  pose proof (transfer_and_commit_cases bucket svc f (build_s3_key prefix (name f))
                (snd (needs_transfer f w))) as H. cbv zeta in H.
  destruct (get_media svc (id f)) as [partial|content].
  { destruct H as (Hf & _ & _ & Hl'). split.
    - exists []. by rewrite Hl', Hl, <- app_assoc.
    - intros c'. by rewrite Hf. }
  destruct (upload_error svc bucket _) as [msg|].
  { destruct H as (Hf & _ & _ & Hl'). split.
    - eexists [_]. by rewrite Hl', Hl, <- app_assoc.
    - intros c'. by rewrite Hf. }
  destruct H as [Hl' H]. split.
  - eexists [_; _; _]. by rewrite Hl', Hl, <- app_assoc.
  - destruct (put_item_error svc (id f)) as [msg|].
    + destruct H as [Hf _]. intros c'. by rewrite Hf.
    + destruct H as (Hf & item & Hi & Hm). rewrite Hf. intros c' [= <-].
      split; [|split].
      * unfold bump_unmapped. by destruct (String.eqb _ _).
      * unfold bump_unmapped. by destruct (String.eqb _ _).
      * exists item. by rewrite Hi, Hd.
Qed.

End Retry.

(** C1: when the upload of a file raises, no state is committed for it:
    the table after the failed step is the table before it and no
    [put_item] was issued; and in any later run that finds the same entry
    for the identifier, the file is judged in need of transfer and is
    downloaded again. *)
Theorem C1_failed_upload_commits_nothing
    (bucket prefix : string) (svc : Ingest.Services)
    (c : Ingest.Counts) (f : Ingest.FileRecord) (w : Ingest.World) (msg : string) :
  fst (Ingest.handle_file bucket prefix svc c f w) = Ingest.Raise (Ingest.S3Error msg) ->
  let w' := snd (Ingest.handle_file bucket prefix svc c f w) in
  Ingest.ddb w' = Ingest.ddb w
  /\ (exists events,
        Ingest.log w' = Ingest.log w ++ events /\ Ingest.PutItem (Ingest.id f) ∉ events)
  /\ forall (svc2 : Ingest.Services) (c2 : Ingest.Counts) (w2 : Ingest.World),
      Ingest.ddb w2 !! Ingest.id f = Ingest.ddb w' !! Ingest.id f ->
      fst (Ingest.needs_transfer f w2) = Ingest.Ret true
      /\ exists after,
          Ingest.log (snd (Ingest.handle_file bucket prefix svc2 c2 f w2))
          = Ingest.log w2
              ++ (if Ingest.no_timestamp (Ingest.modifiedTime f) then []
                  else [Ingest.GetItem (Ingest.id f)])
              ++ Ingest.Download (Ingest.id f) :: after.
Proof.
  intros Hraise.
  destruct (upload_failure_state _ _ _ _ _ _ _ Hraise)
    as (Hcsv & Hstale & Hd & _ & gets & Hl & Hgets).
  cbv zeta. split; [done|]. split.
  - eexists. split; [exact Hl|].
    intros [Hin|Hin]%elem_of_app.
    + apply Hgets in Hin. by apply list_elem_of_singleton in Hin.
    + repeat (apply elem_of_cons in Hin as [Hin|Hin]; [done|]).
      by apply elem_of_nil in Hin.
  - intros svc2 c2 w2 Hentry. rewrite Hd in Hentry.
    split.
    + destruct (needs_transfer_spec f w2) as [-> _]. by rewrite Hentry, Hstale.
    + apply handle_file_transfers; [done|]. by rewrite Hentry.
Qed.

(** C1 at a concrete run: the bucket refuses the upload of the listed
    ownership file into an empty table. *)
Lemma C1_failed_upload_witness :
  Ingest.ddb (snd (Ingest.handle_file "bkt" "raw" Scenario.s3_down Scenario.zero
                     Scenario.f_owner Ingest.empty_world))
  = Ingest.ddb Ingest.empty_world.
Proof.
  refine (proj1 (C1_failed_upload_commits_nothing "bkt" "raw" Scenario.s3_down
                   Scenario.zero Scenario.f_owner Ingest.empty_world "AccessDenied" _)).
  vm_compute. reflexivity.
Defined.

(** C9 (the code departs from it): when the upload raises, the staged file
    is still there after the step and [os.remove] was never called for it;
    the removal sits after the upload on the success path only. *)
Theorem C9_failed_upload_leaves_staged_file
    (bucket prefix : string) (svc : Ingest.Services)
    (c : Ingest.Counts) (f : Ingest.FileRecord) (w : Ingest.World) (msg : string) :
  fst (Ingest.handle_file bucket prefix svc c f w) = Ingest.Raise (Ingest.S3Error msg) ->
  let w' := snd (Ingest.handle_file bucket prefix svc c f w) in
  is_Some (Ingest.tmp w' !! Ingest.tmp_path_of f)
  /\ exists events,
      Ingest.log w' = Ingest.log w ++ events
      /\ Ingest.Remove (Ingest.tmp_path_of f) ∉ events.
Proof.
  intros Hraise.
  destruct (upload_failure_state _ _ _ _ _ _ _ Hraise)
    as (_ & _ & _ & [content Ht] & gets & Hl & Hgets).
  cbv zeta. split.
  - rewrite Ht, lookup_insert_eq. by eexists.
  - eexists. split; [exact Hl|].
    intros [Hin|Hin]%elem_of_app.
    + apply Hgets in Hin. by apply list_elem_of_singleton in Hin.
    + repeat (apply elem_of_cons in Hin as [Hin|Hin]; [done|]).
      by apply elem_of_nil in Hin.
Qed.

(** C9 at a concrete run: after the refused upload the staged copy of the
    ownership file is still under [/tmp]. *)
Lemma C9_staged_file_witness :
  is_Some (Ingest.tmp (snd (Ingest.handle_file "bkt" "raw" Scenario.s3_down Scenario.zero
                              Scenario.f_owner Ingest.empty_world))
           !! Ingest.tmp_path_of Scenario.f_owner).
Proof.
  refine (proj1 (C9_failed_upload_leaves_staged_file "bkt" "raw" Scenario.s3_down
                   Scenario.zero Scenario.f_owner Ingest.empty_world "AccessDenied" _)).
  vm_compute. reflexivity.
Defined.

(** ** Re-running the batch *)
Section Rerun.
Import Ingest.

Variable bucket prefix : string.



Lemma settled_not_stale d f : dated f = true -> settled d f -> stale (d !! id f) f = false.
Proof.
  unfold dated, stale. intros Hd (item & t & -> & -> & Ht & Hgt).
  apply negb_true_iff in Hd. by rewrite Hd, Ht, Hgt.
Qed.

Lemma truthy_dated f : dated f = true -> PyStr.truthy (or_empty (modifiedTime f)) = true.
Proof.
  unfold dated. destruct (modifiedTime f) as [t|]; simpl; [|done].
  by destruct (PyStr.truthy t).
Qed.

(** A step that returns leaves its own file settled. *)
Lemma step_settles svc c f w c' :
  is_csv f = true -> dated f = true ->
  fst (handle_file bucket prefix svc c f w) = Ret c' ->
  settled (ddb (snd (handle_file bucket prefix svc c f w))) f.
Proof.
  intros Hcsv Hd Hret.
  destruct (stale (ddb w !! id f) f) eqn:Hs.
  - destruct (handle_file_transfers bucket prefix svc c f w Hcsv Hs) as [_ H].
    destruct (H c' Hret) as (_ & _ & item & -> & Hm).
    exists item, (or_empty (modifiedTime f)).
    rewrite lookup_insert_eq. repeat split; try done.
    + by apply truthy_dated.
    + apply gt_irrefl.
  - pose proof (handle_file_cases bucket prefix svc c f w) as H. cbv zeta in H.
    rewrite Hcsv, Hs in H; simpl in H. destruct H as (_ & -> & _).
    unfold stale in Hs. unfold dated in Hd. apply negb_true_iff in Hd.
    rewrite Hd in Hs; simpl in Hs.
    destruct (ddb w !! id f) as [item|] eqn:Hi; [|done].
    destruct (item !! "modifiedTime") as [t|] eqn:Ht; [|done].
    apply orb_false_iff in Hs as [Hs1 Hs2]. apply negb_false_iff in Hs1.
    by exists item, t.
Qed.

(** A step that returns keeps every settled dated file settled. *)
Lemma step_keeps_settled svc c g w c' f :
  (is_csv g = true -> dated g = true) ->
  fst (handle_file bucket prefix svc c g w) = Ret c' ->
  dated f = true ->
  settled (ddb w) f ->
  settled (ddb (snd (handle_file bucket prefix svc c g w))) f.
Proof.
  intros Hg Hret Hd Hf.
  pose proof (handle_file_cases bucket prefix svc c g w) as H. cbv zeta in H.
  destruct (is_csv g) eqn:Hcsv; simpl in H; [|by rewrite H].
  specialize (Hg eq_refl).
  destruct (stale (ddb w !! id g) g) eqn:Hs; simpl in H;
    [|by destruct H as (_ & -> & _)].
  clear H.
  destruct (handle_file_transfers bucket prefix svc c g w Hcsv Hs) as [_ H].
  destruct (H c' Hret) as (_ & _ & item & -> & Hm). clear H.
  destruct (decide (id g = id f)) as [Heq|Hne].
  - exists item, (or_empty (modifiedTime g)).
    rewrite Heq, lookup_insert_eq. repeat split; try done.
    + by apply truthy_dated.
    + destruct Hf as (item0 & t0 & Hi0 & Ht0 & Htr & Hgt).
      apply (gt_chain _ t0); [done|].
      unfold stale in Hs. unfold dated in Hg. apply negb_true_iff in Hg.
      rewrite Hg, Heq, Hi0, Ht0, Htr in Hs. exact Hs.
  - destruct Hf as (item0 & t0 & Hi0 & Ht0 & Htr & Hgt).
    exists item0, t0. by rewrite lookup_insert_ne.
Qed.

(** After a loop that returns, every dated CSV file of the listing is
    settled. *)
Lemma loop_settles svc files c w c' :
  Forall (fun f => is_csv f = true -> dated f = true) files ->
  fst (handle_files bucket prefix svc c files w) = Ret c' ->
  forall f0, dated f0 = true ->
    (settled (ddb w) f0 \/ (f0 ∈ files /\ is_csv f0 = true)) ->
    settled (ddb (snd (handle_files bucket prefix svc c files w))) f0.
Proof.
  intros Hall. revert c w. induction Hall as [|g files Hg _ IH]; intros c w Hret f0 Hd0 H0.
  - simpl. destruct H0 as [H0|[H0 _]]; [done|]. by apply elem_of_nil in H0.
  - simpl in Hret |- *. unfold bind in Hret |- *.
    destruct (handle_file bucket prefix svc c g w) as [[c1|e] w1] eqn:Hstep; [|done].
    apply IH; [done|done|].
    assert (fst (handle_file bucket prefix svc c g w) = Ret c1) as Hret1
      by by rewrite Hstep.
    assert (w1 = snd (handle_file bucket prefix svc c g w)) as ->
      by by rewrite Hstep.
    destruct H0 as [H0|[H0 Hcsv0]].
    + left. by eapply step_keeps_settled.
    + apply elem_of_cons in H0 as [->|H0].
      * left. eapply step_settles; eauto.
      * right. by split.
Qed.

(** Over a table in which every dated CSV file of the listing is
    settled, the loop skips every CSV file and only reads the table. *)
Lemma settled_loop_skips svc files c w :
  Forall (fun f => is_csv f = true -> dated f = true /\ settled (ddb w) f) files ->
  let r := handle_files bucket prefix svc c files w in
  fst r = Ret {| processed := processed c;
                 skipped := skipped c + List.length (filter (fun f => is_csv f = true) files);
                 unmapped := unmapped c |}
  /\ ddb (snd r) = ddb w
  /\ tmp (snd r) = tmp w
  /\ log (snd r)
     = log w ++ map (fun f => GetItem (id f)) (filter (fun f => is_csv f = true) files).
Proof.
  revert c w. induction files as [|g files IH]; intros c w Hall; cbv zeta.
  - simpl. rewrite Nat.add_0_r, app_nil_r. by destruct c.
  - apply Forall_cons in Hall as [Hg Hall].
    simpl. unfold bind.
    pose proof (handle_file_cases bucket prefix svc c g w) as H. cbv zeta in H.
    destruct (is_csv g) eqn:Hcsv; simpl in H.
    + destruct (Hg eq_refl) as [Hd Hs].
      rewrite (settled_not_stale _ _ Hd Hs) in H; simpl in H.
      destruct H as (Hf & Hdd & Ht & Hl).
      destruct (handle_file bucket prefix svc c g w) as [o w1]; simpl in *. subst o.
      rewrite filter_cons_True by done.
      specialize (IH {| processed := processed c; skipped := skipped c + 1;
                        unmapped := unmapped c |} w1).
      cbv zeta in IH. rewrite Hdd in IH. specialize (IH Hall).
      destruct IH as (-> & -> & -> & ->). simpl.
      rewrite Hl, <- app_assoc, Ht. repeat split; try done.
      f_equal. f_equal. lia.
    + rewrite H. rewrite filter_cons_False by (by rewrite Hcsv).
      by apply IH.
Qed.

End Rerun.

(** C5 (as stated, refuted): a listing with a CSV file that carries no
    modification timestamp is not skipped the second time: starting from
    the table left by a clean first run, the second run processes the file
    again and issues another [put_item]. *)
Lemma C5_undated_file_is_processed_again :
  fst (Ingest.handle_files "bkt" "raw" Scenario.healthy Scenario.zero
         [Scenario.f_undated] Ingest.empty_world)
  = Ingest.Ret {| Ingest.processed := 1; Ingest.skipped := 0; Ingest.unmapped := 1 |}
  /\ fst (Ingest.handle_files "bkt" "raw" Scenario.healthy Scenario.zero
            [Scenario.f_undated] Scenario.after_undated)
     = Ingest.Ret {| Ingest.processed := 1; Ingest.skipped := 0; Ingest.unmapped := 1 |}
  /\ Ingest.log (snd (Ingest.handle_files "bkt" "raw" Scenario.healthy Scenario.zero
                        [Scenario.f_undated] Scenario.after_undated))
     = Ingest.log Scenario.after_undated
         ++ [Ingest.Download "f2"; Ingest.Upload "bkt" "raw/_unmapped/unknownfile.csv";
             Ingest.Remove "/tmp/f2.csv"; Ingest.PutItem "f2"].
Proof. vm_compute. done. Qed.

(** C5 (amended): when every CSV file of the listing carries a non-empty
    modification timestamp, running the loop again over the same listing,
    from any world whose table is the one left by a first run that
    returned, processes nothing, counts every CSV file of the listing as
    skipped, leaves the table as it was and makes no call other than one
    [get_item] per CSV file. *)
Theorem C5_rerun_skips_every_dated_file
    (bucket prefix : string) (svc1 svc2 : Ingest.Services)
    (files : list Ingest.FileRecord)
    (c1 c1' c2 : Ingest.Counts) (w w2 : Ingest.World) :
  Forall (fun f => Ingest.is_csv f = true -> Ingest.dated f = true) files ->
  fst (Ingest.handle_files bucket prefix svc1 c1 files w) = Ingest.Ret c1' ->
  Ingest.ddb w2 = Ingest.ddb (snd (Ingest.handle_files bucket prefix svc1 c1 files w)) ->
  let eligible := filter (fun f => Ingest.is_csv f = true) files in
  let r := Ingest.handle_files bucket prefix svc2 c2 files w2 in
  fst r = Ingest.Ret {| Ingest.processed := Ingest.processed c2;
                        Ingest.skipped := Ingest.skipped c2 + List.length eligible;
                        Ingest.unmapped := Ingest.unmapped c2 |}
  /\ Ingest.ddb (snd r) = Ingest.ddb w2
  /\ Ingest.log (snd r)
     = Ingest.log w2 ++ map (fun f => Ingest.GetItem (Ingest.id f)) eligible.
Proof.
  intros Hdated Hret Hddb.
  pose proof (loop_settles bucket prefix svc1 files c1 w c1' Hdated Hret) as Hsettled.
  rewrite <- Hddb in Hsettled.
  destruct (settled_loop_skips bucket prefix svc2 files c2 w2) as (Hf & Hd & _ & Hl).
  - rewrite Forall_forall in Hdated |- *. intros f Hin Hcsv.
    split; [by apply Hdated|].
    apply Hsettled; [by apply Hdated|]. right. by split.
  - by repeat split.
Qed.

(** C5 at a concrete run: the dated ownership file, transferred once, is
    skipped by the second run. *)
Lemma C5_rerun_witness :
  fst (Ingest.handle_files "bkt" "raw" Scenario.healthy Scenario.zero
         [Scenario.f_owner] Scenario.after_owner)
  = Ingest.Ret {| Ingest.processed := Ingest.processed Scenario.zero;
                  Ingest.skipped := Ingest.skipped Scenario.zero
                    + List.length (filter (fun f => Ingest.is_csv f = true)
                                     [Scenario.f_owner]);
                  Ingest.unmapped := Ingest.unmapped Scenario.zero |}.
Proof.
  refine (proj1 (C5_rerun_skips_every_dated_file "bkt" "raw"
                   Scenario.healthy Scenario.healthy [Scenario.f_owner]
                   Scenario.zero
                   {| Ingest.processed := 1; Ingest.skipped := 0; Ingest.unmapped := 0 |}
                   Scenario.zero Ingest.empty_world Scenario.after_owner _ _ _)).
  - repeat constructor.
  - vm_compute. reflexivity.
  - reflexivity.
Defined.

(** C6 at a concrete run: two files were processed and the job has a run
    in state RUNNING. *)
Lemma C6_trigger_guard_witness :
  fst (Ingest.start_glue_job_if_needed "bkt" "raw" (Some "refine-job")
         Scenario.glue_busy 2 0 0 Ingest.empty_world)
  = Ingest.Ret (Ingest.AlreadyRunning
                  ("Glue job already "
                     +:+ Ingest.or_empty (Scenario.running_run !! "JobRunState"))
                  (Scenario.running_run !! "Id")).
Proof.
  refine (proj1 (proj1 (proj2 (C6_trigger_guard_decision "bkt" "raw" Scenario.glue_busy
                                 "refine-job" 2 0 0 Ingest.empty_world))
                   [Scenario.succeeded_run] Scenario.running_run [] _ _ _ _ _)).
  - lia.
  - reflexivity.
  - reflexivity.
  - repeat constructor.
  - vm_compute. reflexivity.
Defined.

(** C7 at a concrete run: two files were processed and the listing of job
    runs is throttled. *)
Lemma C7_failed_run_check_witness :
  exists arguments,
    arguments !! "--processed_files" = Some (pretty 2%Z)
    /\ Ingest.log (snd (Ingest.start_glue_job_if_needed "bkt" "raw" (Some "refine-job")
                          Scenario.glue_check_down 2 0 0 Ingest.empty_world))
       = Ingest.log Ingest.empty_world
           ++ [Ingest.GetJobRuns "refine-job" 5; Ingest.StartJobRun "refine-job" arguments]
    /\ fst (Ingest.start_glue_job_if_needed "bkt" "raw" (Some "refine-job")
              Scenario.glue_check_down 2 0 0 Ingest.empty_world)
       = match Ingest.start_job_run Scenario.glue_check_down "refine-job" arguments with
         | inl msg => Ingest.Raise (Ingest.GlueError msg)
         | inr job_run_id => Ingest.Ret (Ingest.Started job_run_id)
         end.
Proof.
  refine (C7_failed_run_check_does_not_block "bkt" "raw" Scenario.glue_check_down
            "refine-job" "ThrottlingException" 2 0 0 Ingest.empty_world _ _ _).
  - lia.
  - reflexivity.
  - reflexivity.
Defined.

(** * Further properties of the code *)

(** ** Column-name normalisation *)
Section Normalisation.
Import Shape Refine.

Lemma is_underscore_eq (c : ascii) : is_underscore c = true -> c = underscore.
Proof.
  unfold is_underscore. intros H%Nat.eqb_eq.
  apply code_inj. by rewrite H.
Qed.

Lemma word_not_space (c : ascii) : is_word c = true -> PyStr.is_space c = false.
Proof. destruct c as [[] [] [] [] [] [] [] []]; vm_compute; congruence. Qed.

Lemma word_is_lower (c : ascii) : is_word c = true -> PyStr.lower_char c = c.
Proof. destruct c as [[] [] [] [] [] [] [] []]; vm_compute; congruence. Qed.

Lemma word_not_separator (c : ascii) : is_word c = true -> is_separator c = false.
Proof. destruct c as [[] [] [] [] [] [] [] []]; vm_compute; congruence. Qed.


(** *** What each pass produces *)

Lemma keep_only_all (cls : ascii -> bool) (s : string) :
  all_chars cls (keep_only cls s) = true.
Proof.
  induction s as [|c s IH]; simpl; [done|].
  destruct (cls c) eqn:Hc; simpl; [by rewrite Hc|done].
Qed.

Lemma sub_runs_all_word (b : bool) (s : string) :
  all_chars is_word s = true ->
  all_chars is_word (sub_runs is_underscore b s) = true.
Proof.
  revert b; induction s as [|c s IH]; intros b; simpl; [done|].
  intros [Hc Hs]%andb_true_iff.
  destruct (is_underscore c); [destruct b|]; simpl; auto.
  by rewrite Hc, IH.
Qed.

Lemma sub_runs_no_run (b : bool) (s : string) :
  has_run is_underscore (sub_runs is_underscore b s) = false
  /\ (b = true -> starts_with_char is_underscore (sub_runs is_underscore b s) = false).
Proof.
  revert b; induction s as [|c s IH]; intros b; simpl; [done|].
  destruct (is_underscore c) eqn:Hc.
  - destruct b.
    + apply (IH true).
    + simpl. destruct (IH true) as [-> ->]; done.
  - simpl. rewrite Hc. simpl. destruct (IH false) as [-> _]. done.
Qed.

Lemma lstrip_keeps (p q : ascii -> bool) (s : string) :
  (all_chars q s = true -> all_chars q (PyStr.lstrip_by p s) = true)
  /\ (has_run q s = false -> has_run q (PyStr.lstrip_by p s) = false)
  /\ starts_with_char p (PyStr.lstrip_by p s) = false.
Proof.
  induction s as [|c s (IH1 & IH2 & IH3)]; simpl; [done|].
  destruct (p c) eqn:Hc; simpl.
  - split; [|split]; [| |exact IH3].
    + intros [_ H]%andb_true_iff. auto.
    + intros [_ H]%orb_false_iff. auto.
  - by rewrite Hc.
Qed.

Lemma rstrip_head (p : ascii -> bool) (c : ascii) (s : string) :
  PyStr.rstrip_by p (String c s) = EmptyString
  \/ exists r, PyStr.rstrip_by p (String c s) = String c r.
Proof.
  simpl. destruct (PyStr.rstrip_by p s); [destruct (p c)|]; eauto.
Qed.

Lemma rstrip_keeps (p q : ascii -> bool) (s : string) :
  (all_chars q s = true -> all_chars q (PyStr.rstrip_by p s) = true)
  /\ (has_run q s = false -> has_run q (PyStr.rstrip_by p s) = false)
  /\ (starts_with_char q s = false -> starts_with_char q (PyStr.rstrip_by p s) = false)
  /\ ends_with_char p (PyStr.rstrip_by p s) = false.
Proof.
  induction s as [|c s (IH1 & IH2 & IH3 & IH4)]; [done|].
  assert (starts_with_char q s = false ->
          starts_with_char q (PyStr.rstrip_by p s) = false) as Hhead.
  { destruct s as [|e s']; [done|].
    destruct (rstrip_head p e s') as [->|[r ->]]; done. }
  clear IH3. simpl.
  destruct (PyStr.rstrip_by p s) as [|d r] eqn:Hr.
  - destruct (p c) eqn:Hc; [done|]. simpl. rewrite Hc.
    split; [|split; [|split]]; try done.
    + intros [-> _]%andb_true_iff. done.
    + intros _. by rewrite andb_false_r.
  - split; [|split; [|split]].
    + intros [Hc Hs]%andb_true_iff.
      change (q c && all_chars q (String d r) = true). by rewrite Hc, IH1.
    + intros [H1 H2]%orb_false_iff.
      change ((q c && starts_with_char q (String d r)) || has_run q (String d r) = false).
      rewrite (IH2 H2), orb_false_r.
      destruct (q c); [|done]. simpl in H1. by rewrite (Hhead H1).
    + done.
    + exact IH4.
Qed.

(** C-like summary of the five passes: the result is a clean name. *)
Lemma strip_underscores_clean (s : string) :
  all_chars is_word s = true ->
  has_run is_underscore s = false ->
  let r := PyStr.strip_by is_underscore s in
  all_chars is_word r = true
  /\ has_run is_underscore r = false
  /\ starts_with_char is_underscore r = false
  /\ ends_with_char is_underscore r = false.
Proof.
  intros Hall Hrun. unfold PyStr.strip_by. cbv zeta.
  destruct (lstrip_keeps is_underscore is_word s) as (L1 & _ & _).
  destruct (lstrip_keeps is_underscore is_underscore s) as (_ & L2 & L3).
  destruct (rstrip_keeps is_underscore is_word (PyStr.lstrip_by is_underscore s))
    as (R1 & _ & _ & R4).
  destruct (rstrip_keeps is_underscore is_underscore (PyStr.lstrip_by is_underscore s))
    as (_ & R2 & R3 & _).
  auto.
Qed.

(** *** Passes that leave a clean name alone *)

Lemma lstrip_id (p : ascii -> bool) (s : string) :
  starts_with_char p s = false -> PyStr.lstrip_by p s = s.
Proof. destruct s as [|c s]; simpl; [done|]. by intros ->. Qed.

Lemma rstrip_id (p : ascii -> bool) (s : string) :
  ends_with_char p s = false -> PyStr.rstrip_by p s = s.
Proof.
  induction s as [|c s IH]; [done|].
  destruct s as [|d s'].
  - simpl. by intros ->.
  - intros H. change (ends_with_char p (String d s') = false) in H.
    change (match PyStr.rstrip_by p (String d s') with
            | EmptyString => if p c then EmptyString else String c EmptyString
            | r => String c r
            end = String c (String d s')).
    by rewrite (IH H).
Qed.

Lemma all_chars_ends (p q : ascii -> bool) (s : string) :
  (forall c, q c = true -> p c = false) ->
  all_chars q s = true ->
  starts_with_char p s = false /\ ends_with_char p s = false.
Proof.
  intros Hpq. induction s as [|c s IH]; [done|].
  intros [Hc Hs]%andb_true_iff. split; [simpl; auto|].
  destruct s as [|d s']; [simpl; auto|].
  change (ends_with_char p (String d s') = false). by apply IH.
Qed.

Lemma lower_id (s : string) : all_chars is_word s = true -> PyStr.lower s = s.
Proof.
  induction s as [|c s IH]; simpl; [done|].
  intros [Hc Hs]%andb_true_iff. by rewrite (word_is_lower _ Hc), IH.
Qed.

Lemma sub_runs_id (cls q : ascii -> bool) (b : bool) (s : string) :
  (forall c, q c = true -> cls c = false) ->
  all_chars q s = true -> sub_runs cls b s = s.
Proof.
  intros Hq. revert b; induction s as [|c s IH]; intros b; simpl; [done|].
  intros [Hc Hs]%andb_true_iff. by rewrite (Hq _ Hc), IH.
Qed.

Lemma keep_only_id (cls : ascii -> bool) (s : string) :
  all_chars cls s = true -> keep_only cls s = s.
Proof.
  induction s as [|c s IH]; simpl; [done|].
  intros [-> Hs]%andb_true_iff. by rewrite IH.
Qed.

Lemma sub_runs_single (b : bool) (s : string) :
  has_run is_underscore s = false ->
  (b = true -> starts_with_char is_underscore s = false) ->
  sub_runs is_underscore b s = s.
Proof.
  revert b; induction s as [|c s IH]; intros b; simpl; [done|].
  intros [H1 H2]%orb_false_iff Hb.
  destruct (is_underscore c) eqn:Hc.
  - destruct b; [by specialize (Hb eq_refl)|].
    rewrite (is_underscore_eq _ Hc). f_equal.
    apply IH; [done|]. intros _. simpl in H1. exact H1.
  - f_equal. apply IH; [done|]. done.
Qed.

End Normalisation.

Lemma normalized_is_clean (col : string) :
  Shape.clean (Refine.normalize_col col) = true.
Proof.
  unfold Refine.normalize_col.
  set (c := Refine.sub_runs Refine.is_underscore false
              (Refine.keep_only Refine.is_word _)).
  assert (Shape.all_chars Refine.is_word c = true) as Hall
    by apply sub_runs_all_word, keep_only_all.
  destruct (sub_runs_no_run false
              (Refine.keep_only Refine.is_word
                 (Refine.sub_runs Refine.is_separator false
                    (PyStr.lower (PyStr.strip col))))) as [Hrun _].
  fold c in Hrun.
  destruct (strip_underscores_clean c Hall Hrun) as (H1 & H2 & H3 & H4).
  cbv zeta in *.
  destruct (PyStr.truthy (PyStr.strip_by Refine.is_underscore c)) eqn:Ht; [|done].
  unfold Shape.clean. by rewrite Ht, H1, H2, H3, H4.
Qed.

(** X1: whatever the header, [normalize_col] returns a clean name: not
    empty, made of [a-z0-9_] only, without an underscore first or last and
    without two underscores in a row. *)
Theorem normalize_col_clean (col : string) :
  Shape.clean (Refine.normalize_col col) = true.
Proof. apply normalized_is_clean. Qed.

(** X2: a clean name is a fixed point of [normalize_col]; so normalising
    twice is the same as normalising once. *)
Theorem normalize_col_idempotent (col s : string) :
  Shape.clean s = true ->
  Refine.normalize_col s = s
  /\ Refine.normalize_col (Refine.normalize_col col) = Refine.normalize_col col.
Proof.
  assert (forall t, Shape.clean t = true -> Refine.normalize_col t = t) as Hfix.
  { intros t Hclean. unfold Shape.clean in Hclean.
    repeat (apply andb_true_iff in Hclean as [Hclean ?]).
    repeat match goal with H : negb _ = true |- _ => apply negb_true_iff in H end.
    destruct (all_chars_ends PyStr.is_space Refine.is_word t word_not_space)
      as [Hs He]; [done|].
    unfold Refine.normalize_col, PyStr.strip, PyStr.strip_by.
    rewrite (lstrip_id _ _ Hs), (rstrip_id _ _ He), lower_id by done.
    rewrite (sub_runs_id _ _ _ _ word_not_separator) by done.
    rewrite keep_only_id by done.
    rewrite sub_runs_single by done.
    rewrite lstrip_id, rstrip_id by done.
    by rewrite Hclean. }
  intros Hs. split; [by apply Hfix|]. apply Hfix, normalized_is_clean.
Qed.

Lemma normalize_col_idempotent_witness :
  Refine.normalize_col "facility_name" = "facility_name".
Proof.
  refine (proj1 (normalize_col_idempotent "" "facility_name" _)).
  vm_compute. reflexivity.
Defined.

(** ** De-duplication of column names *)
Section Uniqueify.
Import Position Refine.

Lemma occurrences_cons (c d : string) (l : list string) :
  occurrences c (d :: l) = (if decide (d = c) then 1 else 0) + occurrences c l.
Proof.
  unfold occurrences. destruct (decide (d = c)) as [->|Hne].
  - by rewrite filter_cons_True.
  - by rewrite filter_cons_False.
Qed.

Lemma uniqueify_from_lookup (seen : gmap string nat) (cols : list string) (i : nat) :
  map_Forall (fun _ n => 1 <= n) seen ->
  uniqueify_from seen cols !! i
  = (fun c => name_after (counted seen c + occurrences c (take i cols)) c) <$> cols !! i.
Proof.
  revert seen i. induction cols as [|d cols IH]; intros seen i Hseen; [done|].
  assert (uniqueify_from seen (d :: cols)
          = name_after (counted seen d) d
              :: uniqueify_from (<[d := counted seen d + 1]> seen) cols) as ->.
  { simpl. unfold counted, name_after.
    destruct (seen !! d) as [n|] eqn:Hd; simpl; [|done].
    specialize (Hseen _ _ Hd). simpl in Hseen.
    destruct n; [lia|]. done. }
  destruct i as [|i]; simpl.
  - unfold occurrences. simpl. by rewrite Nat.add_0_r.
  - rewrite IH by (apply map_Forall_insert_2; [lia|done]).
    destruct (cols !! i) as [c|]; simpl; [|done].
    f_equal. f_equal. rewrite occurrences_cons. unfold counted.
    destruct (decide (d = c)) as [->|Hne].
    + rewrite lookup_insert_eq. simpl. lia.
    + rewrite lookup_insert_ne by done. lia.
Qed.

Lemma uniqueify_imap (cols : list string) :
  uniqueify cols = imap (fun i c => name_after (occurrences c (take i cols)) c) cols.
Proof.
  apply list_eq. intros i. unfold uniqueify.
  rewrite uniqueify_from_lookup by apply map_Forall_empty.
  rewrite list_lookup_imap.
  destruct (cols !! i) as [c|]; simpl; [|done].
  unfold counted. by rewrite lookup_empty.
Qed.

End Uniqueify.

(** X3: [uniqueify] by position: the name at position [i] is the input
    name there when that name has not occurred earlier in the row, and the
    input name followed by [_k+1] when it has occurred [k >= 1] times
    earlier; so a row without repeated names is returned unchanged. *)
Theorem uniqueify_by_position (cols : list string) :
  Refine.uniqueify cols
  = imap (fun i c => Position.name_after (Position.occurrences c (take i cols)) c) cols
  /\ (NoDup cols -> Refine.uniqueify cols = cols).
Proof.
  pose proof (uniqueify_imap cols) as Himap.
  split; [done|].
  intros Hnd. rewrite Himap. apply list_eq. intros i.
  rewrite list_lookup_imap.
  destruct (cols !! i) as [c|] eqn:Hi; simpl; [|done].
  f_equal. unfold Position.name_after.
  assert (Position.occurrences c (take i cols) = 0) as ->; [|done].
  unfold Position.occurrences.
  destruct (filter (fun x => x = c) (take i cols)) as [|y l] eqn:Hf; [done|].
  assert (y ∈ filter (fun x => x = c) (take i cols)) as Hy
    by (rewrite Hf; apply list_elem_of_here).
  apply list_elem_of_filter in Hy as [-> Hy].
  apply elem_of_take in Hy as (j & Hj & Hlt).
  pose proof (NoDup_lookup _ _ _ _ Hnd Hi Hj). lia.
Qed.

Lemma uniqueify_by_position_witness :
  Refine.uniqueify ["state"; "zip"] = ["state"; "zip"].
Proof.
  refine (proj2 (uniqueify_by_position ["state"; "zip"]) _).
  apply NoDup_cons. split; [|apply NoDup_singleton].
  intros H%list_elem_of_singleton. discriminate.
Defined.

(** ** Missing-value rewrite and the lineage columns *)
Section Lineage.
Import Shape Refine Missing.

Lemma clean_head (s : string) :
  clean s = true -> exists a r, s = String a r /\ is_underscore a = false.
Proof.
  unfold clean. intros H.
  repeat (apply andb_true_iff in H as [H ?]).
  destruct s as [|a r]; [done|]. exists a, r. split; [done|].
  simpl in *. by apply negb_true_iff.
Qed.

(** No name handed to [toDF] starts with an underscore. *)
Lemma renamed_no_leading_underscore (cols : list string) (x : string) :
  x ∈ uniqueify (map normalize_col cols) ->
  starts_with_char is_underscore x = false.
Proof.
  rewrite uniqueify_imap.
  intros (i & Hi)%list_elem_of_lookup.
  rewrite list_lookup_imap in Hi.
  destruct (map normalize_col cols !! i) as [c|] eqn:Hc; simpl in Hi; [|done].
  injection Hi as <-.
  apply list_lookup_fmap_Some in Hc as (col & -> & _).
  destruct (clean_head _ (normalized_is_clean col)) as (a & r & -> & Ha).
  unfold Position.name_after. by destruct (_ =? 0).
Qed.

End Lineage.

(** X4: the exemption of the lineage columns in [standardize_missing] never
    applies to the frame that [run] passes in: the columns have been
    renamed by [normalize_col] and [uniqueify] before, no renamed column
    starts with an underscore, and the lineage columns themselves are by
    then called [source_file] and [ingested_at_utc].  So every string
    column of the frame, the lineage columns included, gets the
    null-if-missing rewrite. *)
Theorem lineage_exemption_never_applies
    (cols : list string) (types : list Missing.DataType) :
  let names := Refine.uniqueify (map Refine.normalize_col cols) in
  Missing.standardize_missing (zip names types)
  = map (fun field => match snd field with
                      | Missing.StringType => Missing.NullIfMissing (fst field)
                      | Missing.OtherType => Missing.Col (fst field)
                      end) (zip names types)
  /\ map Refine.normalize_col Missing.lineage_columns = ["source_file"; "ingested_at_utc"].
Proof.
  cbv zeta. split; [|by vm_compute].
  unfold Missing.standardize_missing. apply map_ext_in.
  intros [c ty] Hin. unfold Missing.standardize_field; simpl.
  rewrite bool_decide_eq_false_2; [done|].
  intros Hl.
  assert (c ∈ Refine.uniqueify (map Refine.normalize_col cols)) as Hc.
  { apply list_elem_of_In in Hin. apply elem_of_zip_l in Hin. exact Hin. }
  apply renamed_no_leading_underscore in Hc.
  unfold Missing.lineage_columns in Hl.
  repeat (apply elem_of_cons in Hl as [->|Hl]; [done|]).
  by apply elem_of_nil in Hl.
Qed.

(** ** The DATASETS argument *)
Section Datasets.
Import Shape JobConfig.

Lemma is_comma_eq (c : ascii) : is_comma c = true -> c = comma.
Proof.
  unfold is_comma. intros H%Nat.eqb_eq. apply code_inj. by rewrite H.
Qed.

Lemma split_plain (d : string) :
  all_chars (fun c => negb (is_comma c)) d = true -> split_commas d = [d].
Proof.
  induction d as [|c d IH]; simpl; [done|].
  intros [Hc Hd]%andb_true_iff. apply negb_true_iff in Hc.
  by rewrite Hc, IH.
Qed.

Lemma split_app_comma (d rest : string) :
  all_chars (fun c => negb (is_comma c)) d = true ->
  split_commas (d +:+ String comma rest) = d :: split_commas rest.
Proof.
  induction d as [|c d IH]; simpl; [done|].
  intros [Hc Hd]%andb_true_iff. apply negb_true_iff in Hc.
  by rewrite Hc, IH.
Qed.

Lemma split_join (ds : list string) :
  ds <> [] ->
  Forall (fun d => all_chars (fun c => negb (is_comma c)) d = true) ds ->
  split_commas (join_commas ds) = ds.
Proof.
  intros Hne Hall. induction Hall as [|d ds Hd Hds IH]; [done|].
  destruct ds as [|d2 ds].
  - simpl. by apply split_plain.
  - change (join_commas (d :: d2 :: ds))
      with (d +:+ String comma (join_commas (d2 :: ds))).
    rewrite split_app_comma by done. by rewrite IH.
Qed.

(** Every piece of a split is free of commas. *)
Lemma split_pieces (s : string) :
  Forall (fun d => all_chars (fun c => negb (is_comma c)) d = true) (split_commas s).
Proof.
  induction s as [|c s IH]; simpl; [by repeat constructor|].
  destruct (is_comma c) eqn:Hc; [by constructor|].
  destruct (split_commas s) as [|piece pieces].
  - repeat constructor. simpl. by rewrite Hc.
  - apply Forall_cons in IH as [Hp Hps]. constructor; [|done].
    simpl. by rewrite Hc.
Qed.

Lemma starts_or (p q : ascii -> bool) (s : string) :
  starts_with_char (fun c => p c || q c) s = false ->
  starts_with_char p s = false /\ starts_with_char q s = false.
Proof. destruct s; simpl; [done|]. by intros [??]%orb_false_iff. Qed.

Lemma ends_or (p q : ascii -> bool) (s : string) :
  ends_with_char (fun c => p c || q c) s = false ->
  ends_with_char p s = false /\ ends_with_char q s = false.
Proof.
  induction s as [|c s IH]; [done|].
  destruct s as [|d s']; [simpl; by intros [??]%orb_false_iff|].
  intros H. apply (IH H).
Qed.

Lemma plain_fixed (d : string) :
  plain d = true ->
  PyStr.truthy (PyStr.strip d) = true
  /\ PyStr.strip_by is_slash (PyStr.strip d) = d
  /\ all_chars (fun c => negb (is_comma c)) d = true.
Proof.
  unfold plain. intros H.
  repeat (apply andb_true_iff in H as [H ?]).
  repeat match goal with H : negb _ = true |- _ => apply negb_true_iff in H end.
  destruct (starts_or PyStr.is_space is_slash d) as [S1 S2]; [done|].
  destruct (ends_or PyStr.is_space is_slash d) as [E1 E2]; [done|].
  assert (PyStr.strip d = d) as ->.
  { unfold PyStr.strip, PyStr.strip_by. by rewrite lstrip_id, rstrip_id. }
  repeat split; try done.
  unfold PyStr.strip_by. by rewrite lstrip_id, rstrip_id.
Qed.

Lemma rstrip_nonempty (p : ascii -> bool) (c : ascii) (s : string) :
  p c = false -> PyStr.truthy (PyStr.rstrip_by p (String c s)) = true.
Proof.
  intros Hc. simpl. destruct (PyStr.rstrip_by p s); [by rewrite Hc|done].
Qed.

Lemma join_head (d : string) (ds : list string) (a : ascii) (r : string) :
  d = String a r -> exists r', join_commas (d :: ds) = String a r'.
Proof. intros ->. destruct ds; simpl; eauto. Qed.

End Datasets.

(** X5: a comma-joined list of plain dataset names (not empty, free of
    commas, no blank or slash at either end) parses back to the same list,
    in the same order. *)
Theorem parse_datasets_round_trip (ds : list string) :
  ds <> [] ->
  Forall (fun d => JobConfig.plain d = true) ds ->
  JobConfig.parse_datasets (JobConfig.join_commas ds) = ds.
Proof.
  intros Hne Hplain.
  unfold JobConfig.parse_datasets.
  assert (PyStr.truthy (PyStr.strip (JobConfig.join_commas ds)) = true) as ->.
  { destruct ds as [|d ds]; [done|].
    apply Forall_cons in Hplain as [Hd _].
    pose proof Hd as Hd'. unfold JobConfig.plain in Hd'.
    repeat (apply andb_true_iff in Hd' as [Hd' ?]).
    destruct d as [|a r]; [done|].
    destruct (join_head (String a r) ds a r eq_refl) as [r' ->].
    match goal with H : negb (Shape.starts_with_char _ _) = true |- _ =>
      apply negb_true_iff in H; simpl in H; apply orb_false_iff in H as [Ha _] end.
    unfold PyStr.strip, PyStr.strip_by. simpl. rewrite Ha.
    by apply rstrip_nonempty. }
  rewrite split_join; [|done|].
  2: { eapply Forall_impl; [exact Hplain|]. intros d Hd. by apply plain_fixed. }
  induction Hplain as [|d ds Hd Hds IH]; [done|].
  destruct (plain_fixed d Hd) as (Ht & Hs & _).
  rewrite filter_cons_True by done. simpl. rewrite Hs. f_equal.
  destruct ds as [|d2 ds]; [done|]. by apply IH.
Qed.

Lemma parse_datasets_round_trip_witness :
  JobConfig.parse_datasets (JobConfig.join_commas ["nh_ownership"; "nh_penalties"])
  = ["nh_ownership"; "nh_penalties"].
Proof.
  refine (parse_datasets_round_trip ["nh_ownership"; "nh_penalties"] _ _).
  - discriminate.
  - repeat constructor.
Defined.

(** X6: whatever the DATASETS argument, no parsed entry contains a comma or
    has a slash at either end; a blank argument gives the 21 default
    datasets. *)
Theorem parse_datasets_entries (datasets_raw : string) :
  Forall (fun d =>
            Shape.all_chars (fun c => negb (JobConfig.is_comma c)) d = true
            /\ Shape.starts_with_char JobConfig.is_slash d = false
            /\ Shape.ends_with_char JobConfig.is_slash d = false)
         (JobConfig.parse_datasets datasets_raw)
  /\ (PyStr.truthy (PyStr.strip datasets_raw) = false ->
      JobConfig.parse_datasets datasets_raw = JobConfig.DEFAULT_DATASETS).
Proof.
  unfold JobConfig.parse_datasets. split.
  - destruct (PyStr.truthy (PyStr.strip datasets_raw)).
    + apply Forall_forall. intros x Hx.
      change (x ∈ (fun d => PyStr.strip_by JobConfig.is_slash (PyStr.strip d))
                <$> filter (fun d => PyStr.truthy (PyStr.strip d) = true)
                      (JobConfig.split_commas datasets_raw)) in Hx.
      apply list_elem_of_fmap in Hx as (d & -> & Hd).
      apply list_elem_of_filter in Hd as [_ Hd].
      pose proof (proj1 (Forall_forall _ _) (split_pieces datasets_raw) d Hd) as Hq.
      simpl in Hq. clear Hd.
      unfold PyStr.strip, PyStr.strip_by.
      set (q := fun c => negb (JobConfig.is_comma c)) in *.
      destruct (lstrip_keeps PyStr.is_space q d) as (A1 & _).
      destruct (rstrip_keeps PyStr.is_space q (PyStr.lstrip_by PyStr.is_space d))
        as (A2 & _).
      set (e := PyStr.rstrip_by PyStr.is_space (PyStr.lstrip_by PyStr.is_space d)) in *.
      destruct (lstrip_keeps JobConfig.is_slash q e) as (B1 & _ & _).
      destruct (lstrip_keeps JobConfig.is_slash JobConfig.is_slash e) as (_ & _ & B3).
      destruct (rstrip_keeps JobConfig.is_slash q (PyStr.lstrip_by JobConfig.is_slash e))
        as (C1 & _).
      destruct (rstrip_keeps JobConfig.is_slash JobConfig.is_slash
                  (PyStr.lstrip_by JobConfig.is_slash e)) as (_ & _ & C3 & C4).
      split; [|split].
      * apply C1, B1, A2, A1, Hq.
      * apply C3, B3.
      * apply C4.
    + by vm_compute; repeat constructor.
  - by intros ->.
Qed.

Lemma parse_datasets_entries_witness :
  JobConfig.parse_datasets "  " = JobConfig.DEFAULT_DATASETS.
Proof.
  refine (proj2 (parse_datasets_entries "  ") _). reflexivity.
Defined.

(** ** Object keys *)
Section Keys.
Import Shape JobConfig.

Lemma str_app_assoc (a b c : string) : (a +:+ b) +:+ c = a +:+ (b +:+ c).
Proof. unfold String.app. induction a as [|x a IH]; simpl; [done|]. by rewrite IH. Qed.

Lemma str_app_length (a b : string) :
  String.length (a +:+ b) = String.length a + String.length b.
Proof. unfold String.app. induction a as [|x a IH]; simpl; [done|]. by rewrite IH. Qed.

Lemma is_slash_eq (c : ascii) : is_slash c = true -> c = slash.
Proof.
  unfold is_slash. intros H%Nat.eqb_eq. apply code_inj. by rewrite H.
Qed.

(** Two strings cut at their first slash agree piece by piece. *)
Lemma cut_at_slash (d1 d2 n1 n2 : string) :
  all_chars (fun c => negb (is_slash c)) d1 = true ->
  all_chars (fun c => negb (is_slash c)) d2 = true ->
  d1 +:+ String slash n1 = d2 +:+ String slash n2 ->
  d1 = d2 /\ n1 = n2.
Proof.
  revert d2. induction d1 as [|x d1 IH]; intros [|y d2]; simpl.
  - intros _ _ [= ->]. done.
  - intros _ [Hy _]%andb_true_iff [= <- _]. done.
  - intros [Hx _]%andb_true_iff _ [= -> _]. done.
  - intros [_ H1]%andb_true_iff [_ H2]%andb_true_iff [= -> Heq].
    destruct (IH d2 H1 H2 Heq) as [-> ->]. done.
Qed.

Lemma route_range (rules : list (Re.pattern * string)) (file_name : string) :
  route rules file_name ∈ "_unmapped" :: map snd rules.
Proof.
  induction rules as [|[p f] rules IH]; simpl; [apply list_elem_of_here|].
  destruct (Re.matches p file_name).
  - apply list_elem_of_further, list_elem_of_here.
  - apply elem_of_cons in IH as [->|IH]; [apply list_elem_of_here|].
    by do 2 apply list_elem_of_further.
Qed.

Lemma folder_no_slash (file_name : string) :
  PyStr.truthy (dataset_folder_for file_name) = true
  /\ all_chars (fun c => negb (is_slash c)) (dataset_folder_for file_name) = true.
Proof.
  pose proof (route_range ROUTE_RULES file_name) as Hin.
  fold (dataset_folder_for file_name) in Hin.
  assert (Forall (fun d => PyStr.truthy d = true
                           /\ all_chars (fun c => negb (is_slash c)) d = true)
                 ("_unmapped" :: map snd ROUTE_RULES)) as Hall
    by (vm_compute; repeat constructor).
  exact (proj1 (Forall_forall _ _) Hall _ Hin).
Qed.

End Keys.

(** X7: for a given prefix, two file names get the same object key only when
    they are the same name: files with different names never overwrite
    each other in the bucket. *)
Theorem build_s3_key_injective (prefix name1 name2 : string) :
  Ingest.build_s3_key prefix name1 = Ingest.build_s3_key prefix name2 ->
  name1 = name2.
Proof.
  unfold Ingest.build_s3_key.
  destruct (folder_no_slash name1) as [_ H1].
  destruct (folder_no_slash name2) as [_ H2].
  assert (forall n1 n2,
             dataset_folder_for name1 +:+ "/" +:+ n1
             = dataset_folder_for name2 +:+ "/" +:+ n2 -> n1 = n2) as Hcut.
  { intros n1 n2 Heq. by destruct (cut_at_slash _ _ _ _ H1 H2 Heq). }
  destruct (PyStr.truthy prefix).
  - intros Heq. apply String.app_inj in Heq. injection Heq as Heq. by apply Hcut.
  - apply Hcut.
Qed.

Lemma build_s3_key_injective_witness :
  "NH_Ownership_Oct2024.csv" = "NH_Ownership_Oct2024.csv".
Proof.
  refine (build_s3_key_injective "raw" _ _ _). reflexivity.
Defined.

(** X8: whatever the value of the S3_PREFIX variable, the keys built with the
    stripped prefix never start with a slash, and each key ends with a
    slash followed by the file name. *)
Theorem build_s3_key_relative (env_value : option string) (file_name : string) :
  let key := Ingest.build_s3_key (IngestConfig.S3_PREFIX env_value) file_name in
  Shape.starts_with_char JobConfig.is_slash key = false
  /\ exists folder_part, key = folder_part +:+ "/" +:+ file_name.
Proof.
  cbv zeta. unfold Ingest.build_s3_key, IngestConfig.S3_PREFIX.
  set (raw := default "" env_value).
  destruct (folder_no_slash file_name) as [Ht Hns].
  destruct (PyStr.truthy (PyStr.strip_by JobConfig.is_slash raw)) eqn:Hp.
  - split.
    + unfold PyStr.strip_by in *.
      destruct (lstrip_keeps JobConfig.is_slash JobConfig.is_slash raw) as (_ & _ & L3).
      destruct (rstrip_keeps JobConfig.is_slash JobConfig.is_slash
                  (PyStr.lstrip_by JobConfig.is_slash raw)) as (_ & _ & R3 & _).
      specialize (R3 L3).
      destruct (PyStr.rstrip_by _ _); [done|]. exact R3.
    + exists (PyStr.strip_by JobConfig.is_slash raw
                +:+ "/" +:+ dataset_folder_for file_name).
      by rewrite !str_app_assoc.
  - split; [|by eexists].
    destruct (dataset_folder_for file_name) as [|a r]; [done|].
    simpl in *. apply andb_true_iff in Hns as [Ha _]. by apply negb_true_iff.
Qed.

(** X9: the folders the classifier can choose are, in order, the default
    datasets of the Glue job, and [_unmapped] is not one of them; with a
    non-empty prefix shared by both sides, the object written for a file is
    located directly under the raw path the job reads for its dataset; with
    an empty prefix the two locations differ, because the job's path keeps
    the empty prefix as a path component of its own. *)
Theorem uploads_meet_raw_paths (bucket prefix file_name : string) :
  let folder := dataset_folder_for file_name in
  let url p := "s3://" +:+ bucket +:+ "/" +:+ Ingest.build_s3_key p file_name in
  JobConfig.DEFAULT_DATASETS = map snd ROUTE_RULES
  /\ (folder ∈ JobConfig.DEFAULT_DATASETS \/ folder = "_unmapped")
  /\ ("_unmapped" ∉ JobConfig.DEFAULT_DATASETS)
  /\ (PyStr.truthy prefix = true ->
      url prefix = Refine.s3_path bucket prefix folder +:+ file_name)
  /\ url "" <> Refine.s3_path bucket "" folder +:+ file_name.
Proof.
  cbv zeta. split; [reflexivity|]. split; [|split; [|split]].
  - pose proof (route_range ROUTE_RULES file_name) as Hin.
    fold (dataset_folder_for file_name) in Hin.
    apply elem_of_cons in Hin as [->|Hin]; [by right|by left].
  - intros Hin. vm_compute in Hin.
    repeat (apply elem_of_cons in Hin as [Hin|Hin]; [discriminate|]).
    by apply elem_of_nil in Hin.
  - intros Hp. unfold Ingest.build_s3_key, Refine.s3_path. rewrite Hp.
    by rewrite !str_app_assoc.
  - unfold Ingest.build_s3_key, Refine.s3_path.
    change (PyStr.truthy "") with false. cbv beta iota.
    intros Heq. apply (f_equal String.length) in Heq.
    rewrite !str_app_length in Heq. simpl in Heq. lia.
Qed.

Lemma uploads_meet_raw_paths_witness :
  "s3://" +:+ "bkt" +:+ "/" +:+ Ingest.build_s3_key "raw" "NH_Ownership_Oct2024.csv"
  = Refine.s3_path "bkt" "raw" (dataset_folder_for "NH_Ownership_Oct2024.csv")
      +:+ "NH_Ownership_Oct2024.csv".
Proof.
  refine (proj1 (proj2 (proj2 (proj2
            (uploads_meet_raw_paths "bkt" "raw" "NH_Ownership_Oct2024.csv")))) _).
  reflexivity.
Defined.

(** ** The file loop of the ingest Lambda as a whole *)
Section IngestLoop.
Import Ingest IngestLog.

Variable bucket prefix : string.
Variable svc : Services.

Lemma handle_files_app (c : Counts) (before rest : list FileRecord) (w : World) :
  handle_files bucket prefix svc c (before ++ rest) w
  = match handle_files bucket prefix svc c before w with
    | (Ret c1, w1) => handle_files bucket prefix svc c1 rest w1
    | (Raise e, w1) => (Raise e, w1)
    end.
Proof.
  revert c w. induction before as [|f before IH]; intros c w; simpl; [done|].
  unfold bind. destruct (handle_file bucket prefix svc c f w) as [[c1|e] w1]; [|done].
  apply IH.
Qed.

Lemma needs_transfer_world (f : FileRecord) (w : World) :
  snd (needs_transfer f w)
  = {| ddb := ddb w; s3 := s3 w; tmp := tmp w; clock := clock w;
       log := log w ++ (if no_timestamp (modifiedTime f) then []
                        else [GetItem (id f)]) |}.
Proof.
  unfold needs_transfer.
  destruct (no_timestamp (modifiedTime f)); simpl.
  - rewrite app_nil_r. by destruct w.
  - unfold should_process_file, bind, emit, get_world, ret; simpl.
    destruct (ddb w !! id f) as [item|]; [|done].
    case_bool_decide; [done|].
    destruct (item !! "modifiedTime") as [t|]; [|done].
    by destruct (PyStr.truthy t).
Qed.

(** The stores after the transfer of one file. *)
Lemma transfer_and_commit_stores (f : FileRecord) (key : string) (w : World) :
  let r := transfer_and_commit bucket svc f key w in
  match fst r with
  | Ret _ =>
      exists content,
        get_media svc (id f) = inr content
        /\ s3 (snd r) = <[(bucket, key) := content]> (s3 w)
        /\ ddb (snd r) = <[id f := state_item bucket key (now svc (clock w)) f]> (ddb w)
        /\ tmp (snd r) !! tmp_path_of f
           = (if remove_fails svc (tmp_path_of f) then Some content else None)
        /\ clock (snd r) = S (clock w)
  | Raise _ =>
      ddb (snd r) = ddb w
      /\ clock (snd r) <= S (clock w)
      /\ (s3 (snd r) = s3 w
          \/ exists content, s3 (snd r) = <[(bucket, key) := content]> (s3 w))
  end.
Proof.
  unfold transfer_and_commit, download_to_tmp, upload_file_to_s3, remove_quietly,
    update_state, utc_now_iso, bind, emit, get_world, set_tmp, set_s3, set_ddb,
    ret, raise, state_item; simpl.
  destruct (get_media svc (id f)) as [partial|content]; simpl.
  - split; [done|]. split; [lia|]. by left.
  - rewrite lookup_insert_eq; simpl.
    destruct (upload_error svc bucket key) as [msg|]; simpl.
    + split; [done|]. split; [lia|]. by left.
    + destruct (remove_fails svc (tmp_path_of f)); simpl;
        destruct (put_item_error svc (id f)) as [msg|]; simpl.
      * split; [done|]. split; [lia|]. right. by eexists.
      * exists content. by rewrite lookup_insert_eq.
      * split; [done|]. split; [lia|]. right. by eexists.
      * exists content. by rewrite lookup_delete_eq.
Qed.

Lemma count_app (p : Event -> bool) (a b : list Event) :
  count p (a ++ b) = count p a + count p b.
Proof. unfold count. by rewrite List.filter_app, List.length_app. Qed.

(** What one pass through the loop body adds to the log and to the
    counters. *)
Lemma handle_file_effect (c : Counts) (f : FileRecord) (w : World) :
  let r := handle_file bucket prefix svc c f w in
  exists events,
    log (snd r) = log w ++ events
    /\ count is_glue_call events = 0
    /\ forall c', fst r = Ret c' ->
        processed c' + skipped c'
        = processed c + skipped c + (if is_csv f then 1 else 0)
        /\ processed c' = processed c + count is_put_item events
        /\ count is_upload events = count is_put_item events
        /\ unmapped c <= unmapped c'
        /\ unmapped c' + processed c <= unmapped c + processed c'.
Proof.
  pose proof (handle_file_cases bucket prefix svc c f w) as H. cbv zeta in H |- *.
  destruct (is_csv f); simpl in H.
  2:{ rewrite H; simpl. exists []. rewrite app_nil_r.
      split; [done|]. split; [done|]. intros c' [= <-]. unfold count; simpl. lia. }
  destruct (stale (ddb w !! id f) f); simpl in H.
  2:{ destruct H as (Hf & _ & _ & Hl). exists [GetItem (id f)].
      split; [done|]. split; [done|]. rewrite Hf. intros c' [= <-].
      unfold count; simpl. lia. }
  destruct H as [Hw Hr]. rewrite Hw, Hr. clear Hw Hr.
  destruct (needs_transfer_spec f w) as (_ & _ & _ & Hn).
  pose proof (transfer_and_commit_cases bucket svc f (build_s3_key prefix (name f))
                (snd (needs_transfer f w))) as H. cbv zeta in H.
  rewrite !Hn in H. clear Hn.
  set (gets := if no_timestamp (modifiedTime f) then [] else [GetItem (id f)]) in *.
  assert (forall p, (forall i, p (GetItem i) = false) -> count p gets = 0) as Hgets.
  { intros p Hp. unfold gets, count.
    destruct (no_timestamp (modifiedTime f)); simpl; [done|]. by rewrite Hp. }
  destruct (get_media svc (id f)) as [partial|content].
  { destruct H as (Hf & _ & _ & Hl). eexists. rewrite Hl, <- app_assoc.
    split; [done|]. split; [by rewrite count_app, Hgets|]. by rewrite Hf. }
  destruct (upload_error svc bucket _) as [msg|].
  { destruct H as (Hf & _ & _ & Hl). eexists. rewrite Hl, <- app_assoc.
    split; [done|]. split; [by rewrite count_app, Hgets|]. by rewrite Hf. }
  destruct H as [Hl H]. eexists. rewrite Hl, <- app_assoc.
  split; [done|]. split; [by rewrite count_app, Hgets|].
  destruct (put_item_error svc (id f)) as [msg|].
  { destruct H as [Hf _]. by rewrite Hf. }
  destruct H as [Hf _]. rewrite Hf. intros c' [= <-]. simpl.
  rewrite !count_app, !Hgets by done. unfold count, bump_unmapped; simpl.
  destruct (String.eqb _ _); simpl; lia.
Qed.

Lemma handle_files_effect (c : Counts) (files : list FileRecord) (w : World) :
  let r := handle_files bucket prefix svc c files w in
  exists events,
    log (snd r) = log w ++ events
    /\ count is_glue_call events = 0
    /\ forall c', fst r = Ret c' ->
        processed c' + skipped c'
        = processed c + skipped c
          + List.length (filter (fun f => is_csv f = true) files)
        /\ processed c' = processed c + count is_put_item events
        /\ count is_upload events = count is_put_item events
        /\ unmapped c <= unmapped c'
        /\ unmapped c' + processed c <= unmapped c + processed c'.
Proof.
  cbv zeta. revert c w. induction files as [|f files IH]; intros c w; simpl.
  - exists []. rewrite app_nil_r. split; [done|]. split; [done|].
    intros c' [= <-]. unfold count; simpl. lia.
  - destruct (handle_file_effect c f w) as (ev1 & Hl1 & Hg1 & Hc1).
    unfold bind.
    destruct (handle_file bucket prefix svc c f w) as [[c1|e] w1]; simpl in *.
    + destruct (IH c1 w1) as (ev2 & Hl2 & Hg2 & Hc2).
      exists (ev1 ++ ev2). rewrite Hl2, Hl1, <- app_assoc.
      split; [done|]. split; [rewrite count_app; lia|].
      intros c' Hret. specialize (Hc2 c' Hret). specialize (Hc1 c1 eq_refl).
      rewrite !count_app.
      destruct (is_csv f) eqn:Hcsv.
      * rewrite filter_cons_True by done. simpl. lia.
      * rewrite filter_cons_False by (by rewrite Hcsv). lia.
    + exists ev1. split; [done|]. split; [done|]. done.
Qed.

(** The stores before and after one pass through the loop body. *)
Lemma handle_file_stores (c : Counts) (f : FileRecord) (w : World) :
  let r := handle_file bucket prefix svc c f w in
  let key := build_s3_key prefix (name f) in
  if is_csv f && stale (ddb w !! id f) f
  then match fst r with
       | Ret _ =>
           exists content,
             get_media svc (id f) = inr content
             /\ s3 (snd r) = <[(bucket, key) := content]> (s3 w)
             /\ ddb (snd r)
                = <[id f := state_item bucket key (now svc (clock w)) f]> (ddb w)
             /\ tmp (snd r) !! tmp_path_of f
                = (if remove_fails svc (tmp_path_of f) then Some content else None)
             /\ clock (snd r) = S (clock w)
       | Raise _ =>
           ddb (snd r) = ddb w
           /\ clock (snd r) <= S (clock w)
           /\ (s3 (snd r) = s3 w
               \/ exists content, s3 (snd r) = <[(bucket, key) := content]> (s3 w))
       end
  else s3 (snd r) = s3 w /\ ddb (snd r) = ddb w /\ tmp (snd r) = tmp w
       /\ clock (snd r) = clock w /\ is_Some (match fst r with Ret c' => Some c' | _ => None end).
Proof.
  cbv zeta. unfold handle_file.
  destruct (is_csv f); simpl; [|by repeat split].
  destruct (needs_transfer_spec f w) as (Hv & _).
  pose proof (needs_transfer_world f w) as Hw.
  unfold bind.
  destruct (needs_transfer f w) as [o w1]; simpl in *. subst o w1.
  destruct (stale (ddb w !! id f) f); simpl; [|by repeat split].
  fold (bump_unmapped c f).
  match goal with
  | |- context [transfer_and_commit _ _ _ ?k ?w0] =>
      pose proof (transfer_and_commit_stores f k w0) as H
  end.
  cbv zeta in H.
  destruct (transfer_and_commit _ _ _ _ _) as [[[]|e] w2]; simpl in *; exact H.
Qed.

Lemma backed_insert (objects : gmap (string * string) string)
    (at_key : string * string) (content k : string) (item : gmap string string) :
  backed bucket prefix objects k item ->
  backed bucket prefix (<[at_key := content]> objects) k item.
Proof.
  intros (H1 & H2 & file_name & H3 & H4 & H5 & H6).
  split; [done|]. split; [done|]. exists file_name. repeat split; try done.
  apply lookup_insert_is_Some'. by right.
Qed.

Lemma state_item_backed (objects : gmap (string * string) string)
    (content ts : string) (f : FileRecord) :
  backed bucket prefix
    (<[(bucket, build_s3_key prefix (name f)) := content]> objects)
    (id f) (state_item bucket (build_s3_key prefix (name f)) ts f).
Proof.
  unfold backed, state_item.
  split; [by simplify_map_eq|]. split; [by simplify_map_eq|].
  exists (name f). repeat split; by simplify_map_eq.
Qed.

Lemma handle_file_consistent (c : Counts) (f : FileRecord) (w : World) :
  consistent bucket prefix w ->
  consistent bucket prefix (snd (handle_file bucket prefix svc c f w)).
Proof.
  unfold consistent. intros Hw.
  pose proof (handle_file_stores c f w) as H. cbv zeta in H.
  destruct (is_csv f && stale (ddb w !! id f) f).
  - destruct (fst (handle_file bucket prefix svc c f w)).
    + destruct H as (content & _ & -> & -> & _).
      apply map_Forall_insert_2; [apply state_item_backed|].
      eapply map_Forall_impl; [exact Hw|]. intros k item. apply backed_insert.
    + destruct H as (-> & _ & [->|[content ->]]); [done|].
      eapply map_Forall_impl; [exact Hw|]. intros k item. apply backed_insert.
  - by destruct H as (-> & -> & _).
Qed.

Lemma handle_files_consistent (c : Counts) (files : list FileRecord) (w : World) :
  consistent bucket prefix w ->
  consistent bucket prefix (snd (handle_files bucket prefix svc c files w)).
Proof.
  revert c w. induction files as [|f files IH]; intros c w Hw; simpl; [done|].
  unfold bind. pose proof (handle_file_consistent c f w Hw) as H1.
  destruct (handle_file bucket prefix svc c f w) as [[c1|e] w1]; simpl in *; [|done].
  by apply IH.
Qed.

(** The trigger step touches neither the table nor the bucket. *)
Lemma start_glue_stores (job : option string) (p s u : Z) (w : World) :
  let r := start_glue_job_if_needed bucket prefix job svc p s u w in
  ddb (snd r) = ddb w /\ s3 (snd r) = s3 w /\ tmp (snd r) = tmp w.
Proof.
  cbv zeta.
  unfold start_glue_job_if_needed, require_env, bind, emit, utc_now_iso, ret, raise.
  repeat (case_match; simplify_eq/=; try done).
Qed.

End IngestLoop.

(** ** Files listed without a timestamp *)
Section Undated.
Import Ingest.

Variable bucket prefix : string.
Variable svc : Services.

(** A returning step over a CSV file without timestamp: the object it
    stores and the calls it makes. *)
Lemma undated_step_uploads (c c' : Counts) (f : FileRecord) (w : World) :
  is_csv f = true ->
  no_timestamp (modifiedTime f) = true ->
  fst (handle_file bucket prefix svc c f w) = Ret c' ->
  exists content,
    get_media svc (id f) = inr content
    /\ s3 (snd (handle_file bucket prefix svc c f w))
       = <[(bucket, build_s3_key prefix (name f)) := content]> (s3 w)
    /\ log (snd (handle_file bucket prefix svc c f w))
       = log w ++ [Download (id f); Upload bucket (build_s3_key prefix (name f));
                   Remove (tmp_path_of f); PutItem (id f)].
Proof.
  intros Hcsv Hno Hret.
  assert (stale (ddb w !! id f) f = true) as Hstale
    by (unfold stale; by rewrite Hno).
  pose proof (handle_file_stores bucket prefix svc c f w) as Hs. cbv zeta in Hs.
  rewrite Hcsv, Hstale, Hret in Hs. simpl in Hs.
  destruct Hs as (content & Hget & Hs3 & _).
  exists content. split; [done|]. split; [done|].
  pose proof (handle_file_cases bucket prefix svc c f w) as H. cbv zeta in H.
  rewrite Hcsv, Hstale in H. simpl in H. destruct H as [Hw Hr].
  rewrite Hw. rewrite Hr in Hret. clear Hw Hr.
  destruct (needs_transfer_spec f w) as (_ & _ & _ & Hl). rewrite Hno, app_nil_r in Hl.
  pose proof (transfer_and_commit_cases bucket svc f (build_s3_key prefix (name f))
                (snd (needs_transfer f w))) as H. cbv zeta in H.
  rewrite Hget in H.
  destruct (upload_error svc bucket _) as [msg|].
  { destruct H as [H _]. by rewrite H in Hret. }
  destruct H as [H _]. by rewrite H, Hl.
Qed.

End Undated.

(** C10: for a CSV file listed without a modification timestamp, a step
    that returns has committed an item whose [modifiedTime] is the empty
    string; against such an item [should_process_file] answers [True] for
    every candidate timestamp; and in every run, whatever the table holds,
    the file is downloaded again, is never counted as skipped, and is
    counted as processed whenever the step returns.  The step that
    returns has transferred the file: in this run and in every later one
    its calls are the download, the upload under the key of the file, the
    removal of the staged copy and the [put_item], and the bucket then
    holds the downloaded bytes under that key. *)
Theorem C10_undated_file_is_always_transferred
    (bucket prefix : string) (svc : Ingest.Services)
    (c c' : Ingest.Counts) (f : Ingest.FileRecord) (w : Ingest.World) :
  Ingest.is_csv f = true ->
  Ingest.no_timestamp (Ingest.modifiedTime f) = true ->
  fst (Ingest.handle_file bucket prefix svc c f w) = Ingest.Ret c' ->
  let w' := snd (Ingest.handle_file bucket prefix svc c f w) in
  let key := Ingest.build_s3_key prefix (Ingest.name f) in
  let transfer := [Ingest.Download (Ingest.id f); Ingest.Upload bucket key;
                   Ingest.Remove (Ingest.tmp_path_of f); Ingest.PutItem (Ingest.id f)] in
  (exists item,
      Ingest.ddb w' !! Ingest.id f = Some item /\ item !! "modifiedTime" = Some "")
  /\ (forall (candidate : string) (w2 : Ingest.World),
        Ingest.ddb w2 !! Ingest.id f = Ingest.ddb w' !! Ingest.id f ->
        fst (Ingest.should_process_file (Ingest.id f) candidate w2) = Ingest.Ret true)
  /\ (forall (svc2 : Ingest.Services) (c2 : Ingest.Counts) (w2 : Ingest.World),
      (exists after,
          Ingest.log (snd (Ingest.handle_file bucket prefix svc2 c2 f w2))
          = Ingest.log w2 ++ Ingest.Download (Ingest.id f) :: after)
      /\ forall c3,
          fst (Ingest.handle_file bucket prefix svc2 c2 f w2) = Ingest.Ret c3 ->
          Ingest.skipped c3 = Ingest.skipped c2
          /\ Ingest.processed c3 = Ingest.processed c2 + 1)
  /\ (exists content,
        Ingest.get_media svc (Ingest.id f) = inr content
        /\ Ingest.s3 w' = <[(bucket, key) := content]> (Ingest.s3 w)
        /\ Ingest.log w' = Ingest.log w ++ transfer)
  /\ forall (svc2 : Ingest.Services) (c2 c3 : Ingest.Counts) (w2 : Ingest.World),
      fst (Ingest.handle_file bucket prefix svc2 c2 f w2) = Ingest.Ret c3 ->
      exists content,
        Ingest.get_media svc2 (Ingest.id f) = inr content
        /\ Ingest.s3 (snd (Ingest.handle_file bucket prefix svc2 c2 f w2))
           = <[(bucket, key) := content]> (Ingest.s3 w2)
        /\ Ingest.log (snd (Ingest.handle_file bucket prefix svc2 c2 f w2))
           = Ingest.log w2 ++ transfer.
Proof.
  intros Hcsv Hno Hret.
  assert (forall entry, Ingest.stale entry f = true) as Hstale
    by (intros entry; unfold Ingest.stale; by rewrite Hno).
  destruct (handle_file_transfers bucket prefix svc c f w Hcsv (Hstale _)) as [_ Hdone].
  destruct (Hdone c' Hret) as (_ & _ & item & Hi & Hm).
  rewrite (or_empty_no_timestamp _ Hno) in Hm.
  cbv zeta. split; [|split; [|split; [|split]]].
  - exists item. by rewrite Hi, lookup_insert_eq.
  - intros candidate w2 Hentry.
    rewrite Hi, lookup_insert_eq in Hentry.
    unfold Ingest.should_process_file, Ingest.bind, Ingest.emit, Ingest.get_world,
      Ingest.ret; simpl.
    rewrite Hentry. case_bool_decide; [done|]. by rewrite Hm.
  - intros svc2 c2 w2.
    destruct (handle_file_transfers bucket prefix svc2 c2 f w2 Hcsv (Hstale _))
      as [[after Hl] Hdone2].
    rewrite Hno in Hl. split.
    + by exists after.
    + intros c3 Hc3. destruct (Hdone2 c3 Hc3) as (? & ? & _). by split.
  - by apply (undated_step_uploads bucket prefix svc c c').
  - intros svc2 c2 c3 w2 Hc3.
    by apply (undated_step_uploads bucket prefix svc2 c2 c3).
Qed.

(** C10 at a concrete run: the undated file is transferred with every
    service answering. *)
Lemma C10_undated_file_witness :
  exists item,
    Ingest.ddb (snd (Ingest.handle_file "bkt" "raw" Scenario.healthy Scenario.zero
                       Scenario.f_undated Ingest.empty_world))
      !! Ingest.id Scenario.f_undated = Some item
    /\ item !! "modifiedTime" = Some "".
Proof.
  refine (proj1 (C10_undated_file_is_always_transferred "bkt" "raw" Scenario.healthy
                   Scenario.zero
                   {| Ingest.processed := 1; Ingest.skipped := 0; Ingest.unmapped := 1 |}
                   Scenario.f_undated Ingest.empty_world _ _ _));
    vm_compute; reflexivity.
Defined.


(** X10: files whose name does not end in [.csv] (whatever the case of the
    letters) play no part in a batch: the loop over a listing does exactly
    what the loop over its CSV files does, to the counters, to the stores
    and to the call log. *)
Theorem handle_files_ignores_other_files
    (bucket prefix : string) (svc : Ingest.Services)
    (c : Ingest.Counts) (files : list Ingest.FileRecord) (w : Ingest.World) :
  Ingest.handle_files bucket prefix svc c files w
  = Ingest.handle_files bucket prefix svc c
      (filter (fun f => Ingest.is_csv f = true) files) w.
Proof.
  revert c w. induction files as [|f files IH]; intros c w; [done|].
  destruct (Ingest.is_csv f) eqn:Hcsv.
  - rewrite filter_cons_True by done. simpl. unfold Ingest.bind.
    destruct (Ingest.handle_file bucket prefix svc c f w) as [[c1|e] w1]; [|done].
    apply IH.
  - rewrite filter_cons_False by (by rewrite Hcsv). simpl. unfold Ingest.bind.
    pose proof (handle_file_cases bucket prefix svc c f w) as H. cbv zeta in H.
    rewrite Hcsv in H; simpl in H. rewrite H. apply IH.
Qed.

(** X11: when the file loop returns, its counters add up: every CSV file of
    the listing was counted once, as processed or as skipped; the unmapped
    files are among the processed ones; and the number of files counted as
    processed is the number of objects uploaded and the number of items
    written to the state table during the loop, none of whose calls went
    to Glue. *)
Theorem handle_files_counters_add_up
    (bucket prefix : string) (svc : Ingest.Services)
    (c c' : Ingest.Counts) (files : list Ingest.FileRecord) (w : Ingest.World) :
  fst (Ingest.handle_files bucket prefix svc c files w) = Ingest.Ret c' ->
  (Ingest.processed c' + Ingest.skipped c'
   = Ingest.processed c + Ingest.skipped c
     + List.length (filter (fun f => Ingest.is_csv f = true) files)
   /\ Ingest.unmapped c <= Ingest.unmapped c'
   /\ Ingest.unmapped c' - Ingest.unmapped c <= Ingest.processed c' - Ingest.processed c)
  /\ exists events,
      Ingest.log (snd (Ingest.handle_files bucket prefix svc c files w))
      = Ingest.log w ++ events
      /\ IngestLog.count IngestLog.is_put_item events
         = Ingest.processed c' - Ingest.processed c
      /\ IngestLog.count IngestLog.is_upload events
         = Ingest.processed c' - Ingest.processed c
      /\ IngestLog.count IngestLog.is_glue_call events = 0.
Proof.
  intros Hret.
  destruct (handle_files_effect bucket prefix svc c files w) as (events & Hl & Hg & Hc).
  destruct (Hc c' Hret) as (H1 & H2 & H3 & H4 & H5).
  split; [repeat split; lia|].
  exists events. repeat split; try done; lia.
Qed.

Lemma handle_files_counters_witness :
  Ingest.processed {| Ingest.processed := 2; Ingest.skipped := 0; Ingest.unmapped := 1 |}
  + Ingest.skipped {| Ingest.processed := 2; Ingest.skipped := 0; Ingest.unmapped := 1 |}
  = Ingest.processed Scenario.zero + Ingest.skipped Scenario.zero
    + List.length (filter (fun f => Ingest.is_csv f = true)
                     [Scenario.f_owner; Scenario.f_undated]).
Proof.
  refine (proj1 (proj1 (handle_files_counters_add_up "bkt" "raw" Scenario.healthy
                          Scenario.zero _ [Scenario.f_owner; Scenario.f_undated]
                          Ingest.empty_world _))).
  vm_compute. reflexivity.
Defined.

(** X12: a file whose step raises ends the invocation there: the exception of
    the step is the exception of the handler, the world is the one the
    failing step left (so no later file of the listing was looked at), and
    no call went to Glue, although the files before it were transferred
    and recorded. *)
Theorem file_failure_aborts_the_batch
    (bucket prefix : string) (job : option string) (svc : Ingest.Services)
    (before after : list Ingest.FileRecord) (f : Ingest.FileRecord)
    (c1 : Ingest.Counts) (w w1 : Ingest.World) (e : Ingest.Exn) :
  Ingest.handle_files bucket prefix svc
    {| Ingest.processed := 0; Ingest.skipped := 0; Ingest.unmapped := 0 |} before w
  = (Ingest.Ret c1, w1) ->
  fst (Ingest.handle_file bucket prefix svc c1 f w1) = Ingest.Raise e ->
  Ingest.ingest bucket prefix job svc (before ++ f :: after) w
  = (Ingest.Raise e, snd (Ingest.handle_file bucket prefix svc c1 f w1))
  /\ exists events,
      Ingest.log (snd (Ingest.ingest bucket prefix job svc (before ++ f :: after) w))
      = Ingest.log w ++ events
      /\ IngestLog.count IngestLog.is_glue_call events = 0.
Proof.
  intros Hbefore Hstep.
  assert (Ingest.ingest bucket prefix job svc (before ++ f :: after) w
          = (Ingest.Raise e, snd (Ingest.handle_file bucket prefix svc c1 f w1))) as Hrun.
  { unfold Ingest.ingest, Ingest.bind at 1.
    rewrite handle_files_app, Hbefore. simpl. unfold Ingest.bind at 1.
    destruct (Ingest.handle_file bucket prefix svc c1 f w1) as [[c2|e2] w2];
      simpl in *; [done|]. by injection Hstep as ->. }
  split; [exact Hrun|]. rewrite Hrun. simpl.
  destruct (handle_files_effect bucket prefix svc
              {| Ingest.processed := 0; Ingest.skipped := 0; Ingest.unmapped := 0 |}
              before w) as (ev1 & Hl1 & Hg1 & _).
  rewrite Hbefore in Hl1. simpl in Hl1.
  destruct (handle_file_effect bucket prefix svc c1 f w1) as (ev2 & Hl2 & Hg2 & _).
  exists (ev1 ++ ev2). rewrite Hl2, Hl1, <- app_assoc. split; [done|].
  rewrite count_app. lia.
Qed.

Lemma file_failure_witness :
  Ingest.ingest "bkt" "raw" (Some "refine-job") Scenario.s3_down
    ([] ++ Scenario.f_owner :: [Scenario.f_undated]) Ingest.empty_world
  = (Ingest.Raise (Ingest.S3Error "AccessDenied"),
     snd (Ingest.handle_file "bkt" "raw" Scenario.s3_down
            {| Ingest.processed := 0; Ingest.skipped := 0; Ingest.unmapped := 0 |}
            Scenario.f_owner Ingest.empty_world)).
Proof.
  refine (proj1 (file_failure_aborts_the_batch "bkt" "raw" (Some "refine-job")
                   Scenario.s3_down [] [Scenario.f_undated] Scenario.f_owner
                   _ Ingest.empty_world Ingest.empty_world
                   (Ingest.S3Error "AccessDenied") _ _)).
  - reflexivity.
  - vm_compute. reflexivity.
Defined.

(** X13: a CSV file whose entry is out of date, and whose step returns, is
    stored as the loop says: the bucket holds the downloaded bytes under
    the key built from the file name, nothing else in the bucket changed,
    the table holds for the file identifier the item with that bucket and
    key, the listed timestamp and the time of the step, and the staged
    copy is gone unless its removal failed. *)
Theorem processed_file_is_stored
    (bucket prefix : string) (svc : Ingest.Services)
    (c c' : Ingest.Counts) (f : Ingest.FileRecord) (w : Ingest.World) :
  Ingest.is_csv f = true ->
  Ingest.stale (Ingest.ddb w !! Ingest.id f) f = true ->
  fst (Ingest.handle_file bucket prefix svc c f w) = Ingest.Ret c' ->
  let w' := snd (Ingest.handle_file bucket prefix svc c f w) in
  let key := Ingest.build_s3_key prefix (Ingest.name f) in
  exists content,
    Ingest.get_media svc (Ingest.id f) = inr content
    /\ Ingest.s3 w' = <[(bucket, key) := content]> (Ingest.s3 w)
    /\ Ingest.ddb w'
       = <[Ingest.id f := IngestLog.state_item bucket key
                            (Ingest.now svc (Ingest.clock w)) f]> (Ingest.ddb w)
    /\ Ingest.tmp w' !! Ingest.tmp_path_of f
       = (if Ingest.remove_fails svc (Ingest.tmp_path_of f) then Some content else None).
Proof.
  intros Hcsv Hstale Hret. cbv zeta.
  pose proof (handle_file_stores bucket prefix svc c f w) as H. cbv zeta in H.
  rewrite Hcsv, Hstale, Hret in H. simpl in H.
  destruct H as (content & H1 & H2 & H3 & H4 & _). by exists content.
Qed.

Lemma processed_file_is_stored_witness :
  exists content,
    Ingest.get_media Scenario.healthy (Ingest.id Scenario.f_owner) = inr content
    /\ Ingest.s3 (snd (Ingest.handle_file "bkt" "raw" Scenario.healthy Scenario.zero
                         Scenario.f_owner Ingest.empty_world))
       = <[("bkt", Ingest.build_s3_key "raw" (Ingest.name Scenario.f_owner)) := content]>
           (Ingest.s3 Ingest.empty_world).
Proof.
  destruct (processed_file_is_stored "bkt" "raw" Scenario.healthy Scenario.zero
              {| Ingest.processed := 1; Ingest.skipped := 0; Ingest.unmapped := 0 |}
              Scenario.f_owner Ingest.empty_world) as (content & H1 & H2 & _).
  - vm_compute. reflexivity.
  - vm_compute. reflexivity.
  - vm_compute. reflexivity.
  - exists content. split; [exact H1|exact H2].
Defined.

(** X14: every item of the state table stays backed by an object: if, before
    an invocation, each item is stored under its own [file_id] and names
    the target bucket and a key, built from its file name, under which the
    bucket holds an object, then the same is true after the invocation,
    however it ended (returned, or raised at any file or at the trigger). *)
Theorem table_items_stay_backed
    (bucket prefix : string) (job : option string) (svc : Ingest.Services)
    (files : list Ingest.FileRecord) (w : Ingest.World) :
  IngestLog.consistent bucket prefix w ->
  IngestLog.consistent bucket prefix
    (snd (Ingest.ingest bucket prefix job svc files w)).
Proof.
  intros Hw. unfold Ingest.ingest, Ingest.bind at 1.
  pose proof (handle_files_consistent bucket prefix svc
                {| Ingest.processed := 0; Ingest.skipped := 0; Ingest.unmapped := 0 |}
                files w Hw) as H1.
  destruct (Ingest.handle_files _ _ _ _ _ _) as [[c1|e] w1]; simpl in *; [|done].
  unfold Ingest.bind.
  destruct (start_glue_stores bucket prefix svc job (Z.of_nat (Ingest.processed c1))
              (Z.of_nat (Ingest.skipped c1)) (Z.of_nat (Ingest.unmapped c1)) w1)
    as (Hd & Hs & _).
  destruct (Ingest.start_glue_job_if_needed _ _ _ _ _ _ _ _) as [[g|e] w2];
    simpl in *; unfold IngestLog.consistent; by rewrite Hd, Hs.
Qed.

Lemma table_items_stay_backed_witness :
  IngestLog.consistent "bkt" "raw"
    (snd (Ingest.ingest "bkt" "raw" (Some "refine-job") Scenario.healthy
            [Scenario.f_owner; Scenario.f_undated] Ingest.empty_world)).
Proof.
  refine (table_items_stay_backed "bkt" "raw" (Some "refine-job") Scenario.healthy
            [Scenario.f_owner; Scenario.f_undated] Ingest.empty_world _).
  apply map_Forall_empty.
Defined.

(** X15: when files were processed and GLUE_JOB_NAME is missing or empty, the
    invocation raises the ValueError of [require_env] only after the whole
    listing has been transferred and recorded, and without any call to
    Glue: the world it leaves is the world the file loop left. *)
Theorem missing_job_name_fails_after_the_transfers
    (bucket prefix : string) (job : option string) (svc : Ingest.Services)
    (files : list Ingest.FileRecord) (c1 : Ingest.Counts) (w w1 : Ingest.World) :
  Ingest.or_empty job = "" ->
  Ingest.handle_files bucket prefix svc
    {| Ingest.processed := 0; Ingest.skipped := 0; Ingest.unmapped := 0 |} files w
  = (Ingest.Ret c1, w1) ->
  0 < Ingest.processed c1 ->
  Ingest.ingest bucket prefix job svc files w
  = (Ingest.Raise (Ingest.ValueError "GLUE_JOB_NAME env var is not set"), w1).
Proof.
  intros Hjob Hloop Hpos.
  unfold Ingest.ingest, Ingest.bind at 1. rewrite Hloop.
  unfold Ingest.bind at 1, Ingest.start_glue_job_if_needed.
  destruct (Z.leb_spec (Z.of_nat (Ingest.processed c1)) 0) as [Hle|_]; [lia|].
  unfold Ingest.bind, Ingest.require_env.
  destruct job as [[|a j]|]; simpl in *; done.
Qed.

Lemma missing_job_name_witness :
  Ingest.ingest "bkt" "raw" None Scenario.healthy [Scenario.f_owner] Ingest.empty_world
  = (Ingest.Raise (Ingest.ValueError "GLUE_JOB_NAME env var is not set"),
     Scenario.after_owner).
Proof.
  refine (missing_job_name_fails_after_the_transfers "bkt" "raw" None Scenario.healthy
            [Scenario.f_owner]
            {| Ingest.processed := 1; Ingest.skipped := 0; Ingest.unmapped := 0 |}
            Ingest.empty_world Scenario.after_owner _ _ _).
  - reflexivity.
  - vm_compute. reflexivity.
  - simpl. lia.
Defined.

(** X16: a batch is offered to Glue once: after a file loop that returned over
    a listing whose CSV files all carry a timestamp, the next invocation
    over the same listing, whatever the trigger step of the first one did
    and whatever GLUE_JOB_NAME now holds, returns with nothing processed
    and the job not started, having made no call other than one
    [get_item] per CSV file. *)
Theorem rerun_never_starts_the_job
    (bucket prefix : string) (job : option string) (svc1 svc2 : Ingest.Services)
    (files : list Ingest.FileRecord)
    (c c1 : Ingest.Counts) (w w2 : Ingest.World) :
  Forall (fun f => Ingest.is_csv f = true -> Ingest.dated f = true) files ->
  fst (Ingest.handle_files bucket prefix svc1 c files w) = Ingest.Ret c1 ->
  Ingest.ddb w2 = Ingest.ddb (snd (Ingest.handle_files bucket prefix svc1 c files w)) ->
  let eligible := filter (fun f => Ingest.is_csv f = true) files in
  let r := Ingest.ingest bucket prefix job svc2 files w2 in
  fst r = Ingest.Ret ({| Ingest.processed := 0;
                         Ingest.skipped := List.length eligible;
                         Ingest.unmapped := 0 |},
                      Ingest.NotStarted "No new/changed files to process")
  /\ Ingest.ddb (snd r) = Ingest.ddb w2
  /\ Ingest.log (snd r)
     = Ingest.log w2 ++ map (fun f => Ingest.GetItem (Ingest.id f)) eligible.
Proof.
  intros Hdated Hret Hddb.
  pose proof (loop_settles bucket prefix svc1 files c w c1 Hdated Hret) as Hsettled.
  rewrite <- Hddb in Hsettled.
  destruct (settled_loop_skips bucket prefix svc2 files
              {| Ingest.processed := 0; Ingest.skipped := 0; Ingest.unmapped := 0 |} w2)
    as (Hf & Hd & _ & Hl).
  { rewrite Forall_forall in Hdated |- *. intros f Hin Hcsv.
    split; [by apply Hdated|].
    apply Hsettled; [by apply Hdated|]. right. by split. }
  cbv zeta in Hf, Hd, Hl |- *. clear Hsettled Hret Hddb.
  unfold Ingest.ingest, Ingest.bind at 1 3 5.
  destruct (Ingest.handle_files bucket prefix svc2 _ files w2) as [o w3];
    simpl in *. subst o.
  simpl. by repeat split.
Qed.

Lemma rerun_never_starts_the_job_witness :
  fst (Ingest.ingest "bkt" "raw" None Scenario.healthy [Scenario.f_owner]
         Scenario.after_owner)
  = Ingest.Ret ({| Ingest.processed := 0;
                   Ingest.skipped :=
                     List.length (filter (fun f => Ingest.is_csv f = true)
                                    [Scenario.f_owner]);
                   Ingest.unmapped := 0 |},
                Ingest.NotStarted "No new/changed files to process").
Proof.
  refine (proj1 (rerun_never_starts_the_job "bkt" "raw" None
                   Scenario.healthy Scenario.healthy [Scenario.f_owner]
                   Scenario.zero
                   {| Ingest.processed := 1; Ingest.skipped := 0; Ingest.unmapped := 0 |}
                   Ingest.empty_world Scenario.after_owner _ _ _)).
  - repeat constructor.
  - vm_compute. reflexivity.
  - reflexivity.
Defined.

(** ** The dataset loop, one dataset at a time *)
Section DatasetIndependence.
Import Refine Merge.

Variable opts : Options.
Variable spark : Spark.

Lemma state_app_initial_r (st : Trace * Results) : state_app st initial = st.
Proof.
  destruct st as [[l w] [p s f]]. unfold state_app, trace_app, results_app; simpl.
  by rewrite !app_nil_r.
Qed.

Lemma state_app_initial_l (st : Trace * Results) : state_app initial st = st.
Proof. by destruct st as [[l w] [p s f]]. Qed.

Lemma state_app_assoc (a b c : Trace * Results) :
  state_app (state_app a b) c = state_app a (state_app b c).
Proof.
  unfold state_app, trace_app, results_app; simpl. by rewrite !app_assoc.
Qed.

(** An iteration adds to the state what it would add to the empty one. *)
Lemma run_dataset_from (st : Trace * Results) (dataset : string) :
  run_dataset opts spark st dataset
  = state_app st (run_dataset opts spark initial dataset).
Proof.
  destruct st as [[l w] [p s f]].
  unfold run_dataset, initial, empty_results, on_exception,
    state_app, trace_app, results_app, add_skipped, add_failed, add_processed; simpl.
  destruct (load spark _) as [msg|columns]; simpl.
  - destruct (SKIP_MISSING opts && is_missing_path_error msg); simpl;
      by rewrite ?app_nil_r.
  - destruct (SKIP_MISSING opts && (List.length columns =? 0)); simpl;
      [by rewrite ?app_nil_r|].
    destruct (transform_and_write spark _ _) as [msg|]; simpl;
      [|by rewrite ?app_nil_r].
    destruct (SKIP_MISSING opts && is_missing_path_error msg); simpl;
      by rewrite ?app_nil_r.
Qed.

Lemma fold_run_dataset_from (datasets : list string) (st : Trace * Results) :
  fold_left (run_dataset opts spark) datasets st
  = state_app st (fold_left (run_dataset opts spark) datasets initial).
Proof.
  revert st. induction datasets as [|d ds IH]; intros st; cbn [fold_left].
  - by rewrite state_app_initial_r.
  - rewrite IH, (IH (run_dataset opts spark initial d)), <- state_app_assoc.
    by rewrite <- run_dataset_from.
Qed.

Lemma skipped_stays_empty (datasets : list string) (st : Trace * Results) :
  SKIP_MISSING opts = false ->
  skipped_missing (snd (fold_left (run_dataset opts spark) datasets st))
  = skipped_missing (snd st).
Proof.
  intros Hskip. revert st. induction datasets as [|d ds IH]; intros st; simpl; [done|].
  rewrite IH. destruct st as [tr r].
  unfold run_dataset, on_exception. rewrite Hskip. simpl.
  destruct (load spark _) as [msg|columns]; simpl; [done|].
  by destruct (transform_and_write spark _ _).
Qed.

End DatasetIndependence.

(** ** Messages taken for a missing path *)
Section MissingPath.

Lemma lower_app (a b : string) :
  PyStr.lower (a +:+ b) = PyStr.lower a +:+ PyStr.lower b.
Proof. unfold String.app. induction a as [|x a IH]; simpl; [done|]. by rewrite IH. Qed.

Lemma lower_char_idem (c : ascii) :
  PyStr.lower_char (PyStr.lower_char c) = PyStr.lower_char c.
Proof. destruct c as [[] [] [] [] [] [] [] []]; vm_compute; reflexivity. Qed.

Lemma lower_idem (s : string) : PyStr.lower (PyStr.lower s) = PyStr.lower s.
Proof. induction s as [|c s IH]; simpl; [done|]. by rewrite lower_char_idem, IH. Qed.

Lemma startswith_app (p s t : string) :
  PyStr.startswith p s = true -> PyStr.startswith p (s +:+ t) = true.
Proof.
  unfold String.app. revert s. induction p as [|a p IH]; intros [|b s]; simpl; try done.
  intros [H1 H2]%andb_true_iff. rewrite H1. simpl. by apply IH.
Qed.

Lemma contains_app_r (p s t : string) :
  PyStr.contains p s = true -> PyStr.contains p (s +:+ t) = true.
Proof.
  induction s as [|b s IH].
  - destruct p; [|done]. intros _. by destruct t.
  - intros H. cbn [PyStr.contains] in H.
    apply orb_true_iff in H as [H|H].
    + apply (startswith_app _ _ t) in H. unfold String.app in *. simpl in *.
      by rewrite H.
    + specialize (IH H). unfold String.app in *. simpl.
      rewrite IH. by rewrite orb_true_r.
Qed.

Lemma contains_app_l (p s t : string) :
  PyStr.contains p s = true -> PyStr.contains p (t +:+ s) = true.
Proof.
  intros H. unfold String.app. induction t as [|b t IH]; simpl; [done|].
  rewrite IH. by rewrite orb_true_r.
Qed.

End MissingPath.

(** ** The passes of [normalize_col], one at a time *)
Section Steps.
Import Shape Refine Chars.







Lemma word_ends (p : ascii -> bool) (w : string) :
  (forall c, small_alnum c = true -> p c = false) ->
  word w = true ->
  starts_with_char p w = false /\ ends_with_char p w = false.
Proof.
  intros Hp [_ Hw]%andb_true_iff.
  by apply (all_chars_ends p small_alnum).
Qed.

























End Steps.




(** X17: what the dataset loop does with a dataset does not depend on the
    datasets before it: the loop over a list made of two parts loads,
    writes and records what the loop over the first part does, followed by
    what the loop over the second part does on its own. *)
Theorem run_loop_is_dataset_by_dataset
    (opts : Refine.Options) (spark : Refine.Spark) (first second : list string) :
  Refine.run_loop opts spark (first ++ second)
  = Merge.state_app (Refine.run_loop opts spark first)
                    (Refine.run_loop opts spark second).
Proof.
  unfold Refine.run_loop. rewrite fold_left_app.
  apply (fold_run_dataset_from opts spark second).
Qed.

(** X18: with SKIP_MISSING off nothing is ever skipped: the skipped list stays
    empty, and the datasets recorded as processed and as failed are,
    together, a rearrangement of the dataset list. *)
Theorem without_skip_missing_nothing_is_skipped
    (opts : Refine.Options) (spark : Refine.Spark) :
  Refine.SKIP_MISSING opts = false ->
  let results := snd (Refine.run_loop opts spark (Refine.DATASETS opts)) in
  Refine.skipped_missing results = []
  /\ map fst (Refine.processed results) ++ map fst (Refine.failed results)
     ≡ₚ Refine.DATASETS opts.
Proof.
  intros Hskip. cbv zeta. unfold Refine.run_loop.
  pose proof (skipped_stays_empty opts spark (Refine.DATASETS opts)
                ({| Refine.loaded := []; Refine.written := [] |}, Refine.empty_results)
                Hskip) as Hs.
  pose proof (fold_run_dataset opts spark (Refine.DATASETS opts)
                {| Refine.loaded := []; Refine.written := [] |}
                Refine.empty_results) as (_ & Hr & _).
  simpl in Hs. split; [exact Hs|].
  unfold Refine.recorded in Hr. rewrite Hs in Hr. simpl in Hr.
  by rewrite app_nil_r in Hr.
Qed.

Lemma without_skip_missing_witness :
  Refine.skipped_missing
    (snd (Refine.run_loop Runs.strict Runs.partial_lake (Refine.DATASETS Runs.strict)))
  = [].
Proof.
  refine (proj1 (without_skip_missing_nothing_is_skipped Runs.strict Runs.partial_lake _)).
  reflexivity.
Defined.

(** X19: the test for a missing path looks for its phrases anywhere in the
    message and without regard to case: a message that passes still
    passes with any text put before and after it, and passes in lower
    case; so with SKIP_MISSING on, an exception carrying such a message
    inside a longer one is recorded as skipped and never as failed. *)
Theorem is_missing_path_error_by_substring
    (opts : Refine.Options) (msg before after dataset : string) (r : Refine.Results) :
  Refine.is_missing_path_error msg = true ->
  Refine.is_missing_path_error (before +:+ msg +:+ after) = true
  /\ Refine.is_missing_path_error (PyStr.lower msg) = true
  /\ (Refine.SKIP_MISSING opts = true ->
      Refine.on_exception opts dataset (before +:+ msg +:+ after) r
      = Refine.add_skipped (dataset, before +:+ msg +:+ after) r).
Proof.
  unfold Refine.is_missing_path_error. intros H.
  apply existsb_exists in H as (p & Hin & Hp).
  assert (existsb (fun p => PyStr.contains p (PyStr.lower (before +:+ msg +:+ after)))
            Refine.missing_path_patterns = true) as Hlong.
  { apply existsb_exists. exists p. split; [done|].
    rewrite !lower_app. by apply contains_app_l, contains_app_r. }
  split; [exact Hlong|]. split.
  - apply existsb_exists. exists p. split; [done|]. by rewrite lower_idem.
  - intros Hskip. unfold Refine.on_exception, Refine.is_missing_path_error.
    by rewrite Hskip, Hlong.
Qed.

Lemma is_missing_path_error_witness :
  Refine.is_missing_path_error
    ("AnalysisException: " +:+ "Path does not exist" +:+ ": s3://lake/raw/x/")
  = true.
Proof.
  refine (proj1 (is_missing_path_error_by_substring Runs.strict "Path does not exist"
                   "AnalysisException: " ": s3://lake/raw/x/" "x"
                   Refine.empty_results _)).
  vm_compute. reflexivity.
Defined.

(** X20: [uniqueify] does not always return distinct names: the name it makes
    up for a repeated column can be the name of a later column, which is
    then kept as it is.  For every name [c], the row [c, c, c_2] comes
    back as [c, c_2, c_2]. *)
Theorem uniqueify_may_repeat_a_name (c : string) :
  Refine.uniqueify [c; c; c +:+ "_2"] = [c; c +:+ "_2"; c +:+ "_2"]
  /\ ~ NoDup (Refine.uniqueify [c; c; c +:+ "_2"]).
Proof.
  assert (c +:+ "_2" <> c) as Hne.
  { intros Heq. apply (f_equal String.length) in Heq.
    rewrite str_app_length in Heq. simpl in Heq. lia. }
  assert (Refine.uniqueify [c; c; c +:+ "_2"] = [c; c +:+ "_2"; c +:+ "_2"]) as Heq.
  { unfold Refine.uniqueify. cbn [Refine.uniqueify_from].
    rewrite lookup_empty, lookup_insert_eq.
    rewrite lookup_insert_ne, lookup_insert_ne, lookup_empty by done.
    done. }
  split; [exact Heq|]. rewrite Heq. intros Hnd.
  apply NoDup_cons in Hnd as [_ Hnd]. apply NoDup_cons in Hnd as [Hnotin _].
  apply Hnotin, list_elem_of_here.
Qed.

(** ** The Athena runner *)
Section SortedKeys.
Import Athena.

Lemma gt_asym (a b : string) : PyStr.gt a b = true -> PyStr.gt b a = false.
Proof.
  revert b; induction a as [|x a IH]; intros [|y b]; simpl; try done.
  repeat match goal with
         | |- context [?m <? ?n] => destruct (Nat.ltb_spec m n)
         end; try done; try lia.
  apply IH.
Qed.

Lemma not_gt_trans (a b c : string) :
  PyStr.gt a b = false -> PyStr.gt b c = false -> PyStr.gt a c = false.
Proof.
  revert b c; induction a as [|x a IH]; intros [|y b] [|z c]; simpl; try done.
  repeat match goal with
         | |- context [?m <? ?n] => destruct (Nat.ltb_spec m n)
         end; try done; try lia.
  apply IH.
Qed.

Lemma insert_perm (x : string) (l : list string) : insert x l ≡ₚ x :: l.
Proof.
  induction l as [|y l IH]; simpl; [done|].
  destruct (PyStr.gt x y); [|done].
  rewrite IH. apply Permutation_swap.
Qed.

Lemma sort_perm (l : list string) : sort l ≡ₚ l.
Proof.
  induction l as [|x l IH]; simpl; [done|]. by rewrite insert_perm, IH.
Qed.

Lemma insert_ascending (x : string) (l : list string) :
  ascending l = true -> ascending (insert x l) = true.
Proof.
  induction l as [|y l IH]; simpl; [done|].
  intros [Hall Hs]%andb_true_iff.
  destruct (PyStr.gt x y) eqn:Hxy; simpl.
  - rewrite (IH Hs), andb_true_r.
    apply forallb_forall. intros z Hz.
    apply (Permutation_in _ (insert_perm x l)) in Hz. destruct Hz as [<-|Hz].
    + by rewrite (gt_asym _ _ Hxy).
    + by apply (proj1 (forallb_forall _ _) Hall).
  - rewrite Hxy, Hall, Hs. simpl. rewrite andb_true_r.
    apply forallb_forall. intros z Hz.
    apply negb_true_iff. apply (not_gt_trans _ y); [done|].
    apply negb_true_iff. by apply (proj1 (forallb_forall _ _) Hall).
Qed.

Lemma sort_ascending (l : list string) : ascending (sort l) = true.
Proof.
  induction l as [|x l IH]; simpl; [done|]. by apply insert_ascending.
Qed.

End SortedKeys.

Section Polling.
Import Athena.

Variable cfg : Config.
Variable svc : Services.

(** One turn of the polling loop. *)
Lemma wait_loop_S (n : nat) (qid : string) (w : World) :
  wait_loop cfg svc (S n) qid w
  = let w1 := {| polls := S (polls w); log := log w ++ [GetQueryExecution qid] |} in
    match get_query_execution svc qid (polls w) with
    | inl msg => (Raise (ClientError msg), w1)
    | inr status =>
        if terminal (State status) then (Ret status, w1)
        else if (POLL_SECONDS cfg <? 0)%Z
        then (Raise (ValueError "sleep length must be non-negative"), w1)
        else wait_loop cfg svc n qid
               {| polls := S (polls w);
                  log := log w ++ [GetQueryExecution qid; Sleep (POLL_SECONDS cfg)] |}
    end.
Proof.
  cbn [wait_loop]. unfold bind, emit, next_poll, sleep, ret, raise; simpl.
  destruct (get_query_execution svc qid (polls w)) as [msg|status]; [done|].
  destruct (terminal (State status)); [done|].
  destruct (POLL_SECONDS cfg <? 0)%Z; simpl; [done|].
  by rewrite <- app_assoc.
Qed.

Lemma wait_loop_finishes (n k : nat) (qid : string) (w : World) (status : Status) :
  (0 <= POLL_SECONDS cfg)%Z ->
  k < n ->
  forallb (pending svc qid) (seq (polls w) k) = true ->
  get_query_execution svc qid (polls w + k) = inr status ->
  terminal (State status) = true ->
  wait_loop cfg svc n qid w
  = (Ret status, {| polls := polls w + k + 1;
                    log := log w ++ turns (POLL_SECONDS cfg) qid k
                             ++ [GetQueryExecution qid] |}).
Proof.
  intros Hsec. revert n w. induction k as [|k IH]; intros n w Hk Hpend Hget Hterm.
  - destruct n as [|n]; [lia|]. rewrite wait_loop_S. cbv zeta.
    rewrite Nat.add_0_r in Hget. rewrite Hget, Hterm. simpl.
    do 2 f_equal. lia.
  - destruct n as [|n]; [lia|]. rewrite wait_loop_S. cbv zeta.
    simpl in Hpend. apply andb_true_iff in Hpend as [Hp Hpend].
    unfold pending in Hp.
    destruct (get_query_execution svc qid (polls w)) as [msg|s0]; [done|].
    apply negb_true_iff in Hp. rewrite Hp.
    destruct (Z.ltb_spec (POLL_SECONDS cfg) 0) as [Hneg|_]; [lia|].
    set (w1 := {| polls := S (polls w);
                  log := log w ++ [GetQueryExecution qid; Sleep (POLL_SECONDS cfg)] |}).
    rewrite (IH n w1); [|lia|exact Hpend| |exact Hterm].
    + simpl. do 2 f_equal; [lia|]. unfold turns. simpl. by rewrite <- app_assoc.
    + simpl. by replace (S (polls w + k)) with (polls w + S k) by lia.
Qed.

Lemma wait_loop_bounded (n : nat) (qid : string) (w : World) :
  let r := wait_loop cfg svc n qid w in
  polls w <= polls (snd r) <= polls w + n
  /\ fst r <> Running
  /\ (forall status, fst r = Ret status ->
        terminal (State status) = true
        /\ polls w < polls (snd r)
        /\ get_query_execution svc qid (polls (snd r) - 1) = inr status)
  /\ (forall msg, fst r = Raise (TimeoutError msg) ->
        polls (snd r) = polls w + n
        /\ forallb (pending svc qid) (seq (polls w) n) = true)
  /\ exists events,
      log (snd r) = log w ++ events
      /\ List.length (List.filter is_poll events) = polls (snd r) - polls w
      /\ List.length (List.filter is_start events) = 0.
Proof.
  cbv zeta. revert w. induction n as [|n IH]; intros w.
  - simpl. split; [lia|]. split; [done|]. split; [done|]. split.
    + intros msg _. split; [lia|done].
    + exists []. rewrite app_nil_r. repeat split; simpl; lia.
  - rewrite wait_loop_S. cbv zeta.
    assert (exists events : list Event,
               log w ++ [GetQueryExecution qid] = log w ++ events
               /\ List.length (List.filter is_poll events) = S (polls w) - polls w
               /\ List.length (List.filter is_start events) = 0) as Hone.
    { exists [GetQueryExecution qid]. repeat split; simpl; lia. }
    destruct (get_query_execution svc qid (polls w)) as [msg|status] eqn:Hget.
    { simpl. split; [lia|]. repeat split; try done. }
    destruct (terminal (State status)) eqn:Hterm.
    { simpl. split; [lia|]. split; [done|]. split.
      - intros s [= <-]. split; [done|]. split; [lia|].
        rewrite <- Hget. f_equal. lia.
      - split; [done|exact Hone]. }
    destruct (POLL_SECONDS cfg <? 0)%Z.
    { simpl. split; [lia|]. repeat split; try done. }
    specialize (IH {| polls := S (polls w);
                      log := log w ++ [GetQueryExecution qid;
                                       Sleep (POLL_SECONDS cfg)] |}).
    simpl in IH. destruct IH as (Hb & Hr & Hret & Hto & events & Hl & Hp & Hs).
    split; [lia|]. split; [done|]. split; [|split].
    + intros s Hs'. destruct (Hret s Hs') as (? & ? & ?). repeat split; try done. lia.
    + intros msg Hmsg. destruct (Hto msg Hmsg) as [Hn Hall]. split; [lia|].
      simpl. unfold pending at 1. by rewrite Hget, Hterm, Hall.
    + exists ([GetQueryExecution qid; Sleep (POLL_SECONDS cfg)] ++ events).
      rewrite Hl, <- app_assoc. split; [done|].
      rewrite !List.filter_app, !List.length_app. simpl. split; lia.
Qed.

Lemma wait_loop_no_runtime_error (n : nat) (qid : string) (w : World) (msg : string) :
  fst (wait_loop cfg svc n qid w) <> Raise (RuntimeError msg).
Proof.
  revert w. induction n as [|n IH]; intros w; [done|].
  rewrite wait_loop_S. cbv zeta.
  destruct (get_query_execution svc qid (polls w)) as [m|status]; [done|].
  destruct (terminal (State status)); [done|].
  destruct (POLL_SECONDS cfg <? 0)%Z; [done|]. apply IH.
Qed.

End Polling.

Section QueryLoop.
Import Athena.

Variable cfg : Config.
Variable svc : Services.

Lemma run_keys_app (results : list Result) (before rest : list string) (w : World) :
  run_keys cfg svc results (before ++ rest) w
  = match run_keys cfg svc results before w with
    | (Ret results1, w1) => run_keys cfg svc results1 rest w1
    | (Raise e, w1) => (Raise e, w1)
    | (Running, w1) => (Running, w1)
    end.
Proof.
  revert results w. induction before as [|k before IH]; intros results w; simpl; [done|].
  unfold bind. by destruct (run_key cfg svc results k w) as [[r1|e|] w1].
Qed.

(** What one SQL file adds to the log and to the results. *)
Lemma run_key_effect (results : list Result) (key : string) (w : World) :
  let r := run_key cfg svc results key w in
  fst r <> Running
  /\ (exists events,
        log (snd r) = log w ++ events
        /\ forall results', fst r = Ret results' ->
            exists new,
              results' = results ++ new
              /\ Forall (fun x => state x = "SUCCEEDED") new
              /\ map sql_key new `sublist_of` [key]
              /\ List.length (List.filter is_start events) = List.length new)
  /\ forall msg, fst r = Raise (RuntimeError msg) ->
      exists final : Status,
        terminal (State final) = true
        /\ State final <> "SUCCEEDED"
        /\ msg = "Athena query failed for " +:+ key +:+ ". State=" +:+ State final
                   +:+ ". Reason=" +:+ default "" (StateChangeReason final).
Proof.
  cbv zeta. unfold run_key, get_sql, start_query, wait_for_query, bind, emit, ret, raise.
  simpl.
  destruct (get_object svc (SQL_BUCKET cfg) key) as [msg|body]; simpl.
  { split; [done|]. split; [|done]. eexists. split; [done|]. done. }
  destruct (PyStr.truthy (PyStr.strip body)); simpl.
  2:{ split; [done|]. split; [|done]. exists [GetObject (SQL_BUCKET cfg) key].
      split; [done|]. intros results' [= <-]. exists [].
      rewrite app_nil_r. repeat split; try done. apply sublist_nil_l. }
  destruct (start_query_execution svc (PyStr.strip body)) as [msg|qid]; simpl.
  { split; [done|]. split; [|done]. eexists. rewrite <- app_assoc.
    split; [done|]. done. }
  match goal with
  | |- context [wait_loop cfg svc ?n qid ?w0] =>
      pose proof (wait_loop_bounded cfg svc n qid w0) as H; cbv zeta in H;
      pose proof (wait_loop_no_runtime_error cfg svc n qid w0) as Hnr;
      destruct (wait_loop cfg svc n qid w0) as [[final|e|] w2]
  end; simpl in *.
  - destruct H as (_ & _ & Hret & _ & events & Hl & _ & Hs).
    destruct (Hret final eq_refl) as (Hterm & _).
    destruct (String.eqb_spec (State final) "SUCCEEDED") as [Heq|Hne]; simpl.
    + split; [done|]. split; [|done].
      eexists. rewrite Hl, <- !app_assoc. split; [done|].
      intros results' [= <-]. eexists [_]. split; [done|].
      split; [by repeat constructor|]. split; [done|].
      rewrite !List.filter_app, !List.length_app, Hs. done.
    + split; [done|]. split.
      * eexists. rewrite Hl, <- !app_assoc. split; [done|]. done.
      * intros msg [= <-]. by exists final.
  - destruct H as (_ & _ & _ & _ & events & Hl & _).
    split; [done|]. split.
    + eexists. rewrite Hl, <- !app_assoc. done.
    + intros msg [= ->]. by destruct (Hnr msg).
  - by destruct H as (_ & H & _).
Qed.

Lemma run_keys_effect (results : list Result) (keys : list string) (w : World) :
  let r := run_keys cfg svc results keys w in
  fst r <> Running
  /\ exists events,
      log (snd r) = log w ++ events
      /\ forall results', fst r = Ret results' ->
          exists new,
            results' = results ++ new
            /\ Forall (fun x => state x = "SUCCEEDED") new
            /\ map sql_key new `sublist_of` keys
            /\ List.length (List.filter is_start events) = List.length new.
Proof.
  cbv zeta. revert results w. induction keys as [|key keys IH]; intros results w; simpl.
  - split; [done|]. exists []. rewrite app_nil_r. split; [done|].
    intros results' [= <-]. exists []. rewrite app_nil_r. by repeat split.
  - destruct (run_key_effect results key w) as (Hr1 & (ev1 & Hl1 & Hc1) & _).
    unfold bind.
    destruct (run_key cfg svc results key w) as [[r1|e|] w1]; simpl in *; [| |done].
    + destruct (IH r1 w1) as (Hr2 & ev2 & Hl2 & Hc2).
      split; [done|]. exists (ev1 ++ ev2). rewrite Hl2, Hl1, <- app_assoc.
      split; [done|]. intros results' Hret.
      destruct (Hc1 r1 eq_refl) as (new1 & -> & Hs1 & Hsub1 & Hn1).
      destruct (Hc2 results' Hret) as (new2 & -> & Hs2 & Hsub2 & Hn2).
      exists (new1 ++ new2). rewrite <- app_assoc. split; [done|].
      split; [by apply Forall_app|]. split.
      * rewrite map_app. by apply (sublist_app _ [key] _ keys).
      * rewrite List.filter_app, !List.length_app. lia.
    + split; [done|]. exists ev1. split; [done|]. done.
Qed.

End QueryLoop.

Section KeyListing.
Import Athena.

Variable svc : Services.

Lemma ascending_sublist (l1 l2 : list string) :
  l1 `sublist_of` l2 -> ascending l2 = true -> ascending l1 = true.
Proof.
  induction 1 as [|x l1 l2 Hsub IH|x l1 l2 Hsub IH]; simpl; [done| |].
  - intros [Hall Hs]%andb_true_iff. rewrite (IH Hs), andb_true_r.
    apply forallb_forall. intros y Hy.
    apply (proj1 (forallb_forall _ _) Hall).
    apply list_elem_of_In. apply list_elem_of_In in Hy.
    by apply (elem_of_sublist l1 l2).
  - intros [_ Hs]%andb_true_iff. by apply IH.
Qed.

(** The requests of the listing loop never start a query. *)
Lemma list_pages_effect (steps : nat) (bucket prefix : string)
    (token : option string) (keys : list string) (w : World) :
  let r := list_pages svc steps bucket prefix token keys w in
  polls (snd r) = polls w
  /\ exists events,
      log (snd r) = log w ++ events
      /\ List.length events <= steps
      /\ List.filter is_start events = [].
Proof.
  cbv zeta. revert token keys w.
  induction steps as [|steps IH]; intros token keys w; cbn [list_pages].
  - split; [done|]. exists []. by rewrite app_nil_r.
  - unfold bind, emit, ret, raise. simpl.
    destruct (list_objects_v2 svc bucket prefix (request_token token)) as [msg|page].
    { split; [done|]. eexists [_]. repeat split; simpl; try done; lia. }
    destruct (IsTruncated page).
    2:{ split; [done|]. eexists [_]. repeat split; simpl; try done; lia. }
    match goal with
    | |- context [list_pages svc steps bucket prefix ?t ?k ?w0] =>
        destruct (IH t k w0) as (Hp & events & Hl & Hn & Hs)
    end.
    split; [by rewrite Hp|]. eexists (_ :: events).
    rewrite Hl. simpl. rewrite <- app_assoc. repeat split; simpl; try done; lia.
Qed.

Lemma list_pages_serves (steps : nat) (bucket prefix : string)
    (token : option string) (keys : list string) (pages : list Page) (w : World) :
  serves svc bucket prefix (request_token token) pages ->
  List.length pages <= steps ->
  fst (list_pages svc steps bucket prefix token keys w)
  = Ret (keys ++ List.filter is_sql (List.concat (map Contents pages)))
  /\ List.length (log (snd (list_pages svc steps bucket prefix token keys w)))
     = List.length (log w) + List.length pages.
Proof.
  intros Hserves. remember (request_token token) as sent eqn:Hsent.
  revert token Hsent steps keys w.
  induction Hserves as [sent page Hget Htr|sent page next pages Hget Htr Hnext Htruthy _ IH];
    intros token Hsent [|steps] keys w Hlen; simpl in Hlen; try lia;
    cbn [list_pages]; unfold bind, emit, ret, raise; simpl;
    rewrite <- Hsent, Hget, Htr.
  - simpl. rewrite app_nil_r, List.length_app. simpl. split; [done|lia].
  - rewrite Hnext.
    destruct (IH (Some next)) with (steps := steps)
      (keys := keys ++ List.filter is_sql (Contents page))
      (w := {| polls := polls w;
               log := log w ++ [ListObjects bucket prefix sent] |}) as [Hr Hl].
    { simpl. by rewrite Htruthy. }
    { lia. }
    rewrite Hr, Hl. simpl.
    rewrite List.filter_app, <- app_assoc, List.length_app. simpl. split; [done|lia].
Qed.

Lemma list_pages_restarts (steps : nat) (bucket prefix : string) (page : Page)
    (token : option string) (keys : list string) (w : World) :
  list_objects_v2 svc bucket prefix None = inr page ->
  IsTruncated page = true ->
  request_token (NextContinuationToken page) = None ->
  request_token token = None ->
  fst (list_pages svc steps bucket prefix token keys w) = Running
  /\ log (snd (list_pages svc steps bucket prefix token keys w))
     = log w ++ replicate steps (ListObjects bucket prefix None).
Proof.
  intros Hget Htr Hnext. revert token keys w.
  induction steps as [|steps IH]; intros token keys w Htok; cbn [list_pages].
  - simpl. by rewrite app_nil_r.
  - unfold bind, emit, ret, raise. simpl. rewrite Htok, Hget, Htr.
    match goal with
    | |- context [list_pages svc steps bucket prefix ?t ?k ?w0] =>
        destruct (IH t k w0 Hnext) as [Hr Hl]
    end.
    rewrite Hr, Hl. simpl. by rewrite <- app_assoc.
Qed.

Lemma slept_turns (seconds : Z) (qid : string) (k : nat) (rest : list Event) :
  slept (turns seconds qid k ++ rest) = (Z.of_nat k * seconds + slept rest)%Z.
Proof.
  unfold turns. induction k as [|k IH]; [simpl; lia|].
  cbn [replicate List.concat]. rewrite <- app_assoc. simpl.
  unfold turns in IH. rewrite IH. lia.
Qed.

End KeyListing.

(** X21: [wait_for_query] always comes back, after at most MAX_POLLS calls of
    [get_query_execution] (none when MAX_POLLS is zero or negative) and
    without starting any query.  What it returns is a status in one of
    the states SUCCEEDED, FAILED, CANCELLED, namely the last answer it
    got; and it raises TimeoutError only after MAX_POLLS answers that all
    showed the query still going. *)
Theorem wait_for_query_is_bounded
    (cfg : Athena.Config) (svc : Athena.Services) (qid : string) (w : Athena.World) :
  let r := Athena.wait_for_query cfg svc qid w in
  let made := Athena.polls (snd r) - Athena.polls w in
  made <= Z.to_nat (Athena.MAX_POLLS cfg)
  /\ fst r <> Athena.Running
  /\ (forall status, fst r = Athena.Ret status ->
        Athena.terminal (Athena.State status) = true
        /\ 0 < made
        /\ Athena.get_query_execution svc qid (Athena.polls (snd r) - 1) = inr status)
  /\ (forall msg, fst r = Athena.Raise (Athena.TimeoutError msg) ->
        made = Z.to_nat (Athena.MAX_POLLS cfg)
        /\ forallb (Athena.pending svc qid)
             (seq (Athena.polls w) (Z.to_nat (Athena.MAX_POLLS cfg))) = true)
  /\ exists events,
      Athena.log (snd r) = Athena.log w ++ events
      /\ List.length (List.filter Athena.is_poll events) = made
      /\ List.length (List.filter Athena.is_start events) = 0.
Proof.
  cbv zeta. unfold Athena.wait_for_query.
  destruct (wait_loop_bounded cfg svc (Z.to_nat (Athena.MAX_POLLS cfg)) qid w)
    as (Hb & Hr & Hret & Hto & Hev).
  split; [lia|]. split; [done|]. split; [|split; [|done]].
  - intros status Hs. destruct (Hret status Hs) as (? & ? & ?).
    repeat split; try done. lia.
  - intros msg Hm. destruct (Hto msg Hm) as [? ?]. split; [lia|done].
Qed.

(** X22: when POLL_SECONDS is not negative and the first answer that shows a
    finished query is number [k], with [k] below MAX_POLLS,
    [wait_for_query] returns that answer after [k + 1] calls and [k]
    sleeps of POLL_SECONDS each. *)
Theorem wait_for_query_returns_first_final_answer
    (cfg : Athena.Config) (svc : Athena.Services) (qid : string) (w : Athena.World)
    (k : nat) (status : Athena.Status) :
  (0 <= Athena.POLL_SECONDS cfg)%Z ->
  (Z.of_nat k < Athena.MAX_POLLS cfg)%Z ->
  forallb (Athena.pending svc qid) (seq (Athena.polls w) k) = true ->
  Athena.get_query_execution svc qid (Athena.polls w + k) = inr status ->
  Athena.terminal (Athena.State status) = true ->
  let calls := Athena.turns (Athena.POLL_SECONDS cfg) qid k
               ++ [Athena.GetQueryExecution qid] in
  Athena.wait_for_query cfg svc qid w
  = (Athena.Ret status,
     {| Athena.polls := Athena.polls w + k + 1;
        Athena.log := Athena.log w ++ calls |})
  /\ Athena.slept calls = (Z.of_nat k * Athena.POLL_SECONDS cfg)%Z.
Proof.
  intros Hsec Hk Hpend Hget Hterm. cbv zeta. split.
  - unfold Athena.wait_for_query. apply wait_loop_finishes; try done. lia.
  - rewrite slept_turns. simpl. lia.
Qed.

Lemma wait_for_query_returns_witness :
  Athena.wait_for_query AthenaRuns.cfg AthenaRuns.two_pages "q-1" Athena.empty_world
  = (Athena.Ret {| Athena.State := "SUCCEEDED"; Athena.StateChangeReason := None |},
     {| Athena.polls := Athena.polls Athena.empty_world + 2 + 1;
        Athena.log := Athena.log Athena.empty_world
                        ++ Athena.turns (Athena.POLL_SECONDS AthenaRuns.cfg) "q-1" 2
                        ++ [Athena.GetQueryExecution "q-1"] |}).
Proof.
  refine (proj1 (wait_for_query_returns_first_final_answer AthenaRuns.cfg
                   AthenaRuns.two_pages "q-1" Athena.empty_world 2
                   {| Athena.State := "SUCCEEDED"; Athena.StateChangeReason := None |}
                   _ _ _ _ _)).
  - vm_compute. discriminate.
  - reflexivity.
  - reflexivity.
  - reflexivity.
  - reflexivity.
Defined.

(** X23: a SQL file whose step raises ends the run there: the exception is the
    one of that step, the world is the one that step left, so that no
    later file is fetched and no later query started.  When the exception
    is the RuntimeError of the loop, the query of that file had ended in
    FAILED or CANCELLED, and the message names the file, the state and
    the reason. *)
Theorem failed_query_stops_the_run
    (cfg : Athena.Config) (svc : Athena.Services)
    (before after : list string) (key : string)
    (results results1 : list Athena.Result) (w w1 : Athena.World) (e : Athena.Exn) :
  Athena.run_keys cfg svc results before w = (Athena.Ret results1, w1) ->
  fst (Athena.run_key cfg svc results1 key w1) = Athena.Raise e ->
  Athena.run_keys cfg svc results (before ++ key :: after) w
  = (Athena.Raise e, snd (Athena.run_key cfg svc results1 key w1))
  /\ forall msg, e = Athena.RuntimeError msg ->
      exists final : Athena.Status,
        Athena.State final ∈ ["FAILED"; "CANCELLED"]
        /\ msg = "Athena query failed for " +:+ key +:+ ". State="
                   +:+ Athena.State final +:+ ". Reason="
                   +:+ default "" (Athena.StateChangeReason final).
Proof.
  intros Hbefore Hstep. split.
  - rewrite run_keys_app, Hbefore. simpl. unfold Athena.bind.
    destruct (Athena.run_key cfg svc results1 key w1) as [[r|e'|] w2];
      simpl in *; try done. by injection Hstep as ->.
  - intros msg ->.
    destruct (run_key_effect cfg svc results1 key w1) as (_ & _ & Hrt).
    destruct (Hrt msg Hstep) as (final & Hterm & Hne & ->).
    exists final. split; [|done].
    unfold Athena.terminal in Hterm. apply bool_decide_eq_true in Hterm.
    apply elem_of_cons in Hterm as [Heq|Hin]; [done|exact Hin].
Qed.

Lemma failed_query_witness :
  Athena.run_keys AthenaRuns.cfg AthenaRuns.failing []
    ([] ++ "views/001_base.SQL" :: ["views/002_totals.sql"]) Athena.empty_world
  = (Athena.Raise
       (Athena.RuntimeError
          "Athena query failed for views/001_base.SQL. State=FAILED. Reason=SYNTAX_ERROR"),
     snd (Athena.run_key AthenaRuns.cfg AthenaRuns.failing [] "views/001_base.SQL"
            Athena.empty_world)).
Proof.
  refine (proj1 (failed_query_stops_the_run AthenaRuns.cfg AthenaRuns.failing
                   [] ["views/002_totals.sql"] "views/001_base.SQL" [] []
                   Athena.empty_world Athena.empty_world _ _ _)).
  - reflexivity.
  - vm_compute. reflexivity.
Defined.

(** X24: when the bucket hands out its keys in finitely many pages,
    [list_sql_keys] returns, once allowed one request per page: its result
    is the list of the keys of all pages that end in [.sql] (in any case),
    in ascending order, as many times as they were listed; it makes one
    request per page. *)
Theorem list_sql_keys_returns_sorted_sql_keys
    (svc : Athena.Services) (steps : nat) (bucket prefix : string)
    (pages : list Athena.Page) (w : Athena.World) :
  Athena.serves svc bucket prefix None pages ->
  List.length pages <= steps ->
  let listed := List.concat (map Athena.Contents pages) in
  let r := Athena.list_sql_keys svc steps bucket prefix w in
  exists keys,
    fst r = Athena.Ret keys
    /\ keys = Athena.sort (List.filter Athena.is_sql listed)
    /\ Athena.ascending keys = true
    /\ keys ≡ₚ List.filter Athena.is_sql listed
    /\ List.length (Athena.log (snd r)) = List.length (Athena.log w) + List.length pages.
Proof.
  intros Hserves Hsteps. cbv zeta. unfold Athena.list_sql_keys, Athena.bind.
  destruct (list_pages_serves svc steps bucket prefix None [] pages w Hserves Hsteps)
    as [Hr Hl].
  destruct (Athena.list_pages svc steps bucket prefix None [] w) as [o w1];
    simpl in *. subst o. simpl.
  eexists. split; [done|]. split; [done|].
  split; [apply sort_ascending|]. split; [apply sort_perm|done].
Qed.

Lemma list_sql_keys_witness :
  exists keys,
    fst (Athena.list_sql_keys AthenaRuns.two_pages 2 "sql-bkt" "views/" Athena.empty_world)
    = Athena.Ret keys
    /\ keys = Athena.sort (List.filter Athena.is_sql
                             (List.concat (map Athena.Contents
                                             [AthenaRuns.page_1; AthenaRuns.page_2]))).
Proof.
  destruct (list_sql_keys_returns_sorted_sql_keys AthenaRuns.two_pages 2
              "sql-bkt" "views/" [AthenaRuns.page_1; AthenaRuns.page_2]
              Athena.empty_world) as (keys & H1 & H2 & _).
  - eapply Athena.serves_more; [reflexivity|reflexivity|reflexivity|reflexivity|].
    apply Athena.serves_last; reflexivity.
  - simpl. lia.
  - exists keys. split; [exact H1|exact H2].
Defined.

(** X25: a page that says it is truncated and carries no token, or an empty
    one, makes the listing start over: the next request is the first one
    again, so that against a bucket answering it the same way
    [list_sql_keys] is still running after any number of requests, all of
    them the same. *)
Theorem truncated_listing_without_token_never_ends
    (svc : Athena.Services) (bucket prefix : string) (page : Athena.Page)
    (steps : nat) (w : Athena.World) :
  Athena.list_objects_v2 svc bucket prefix None = inr page ->
  Athena.IsTruncated page = true ->
  Athena.request_token (Athena.NextContinuationToken page) = None ->
  fst (Athena.list_sql_keys svc steps bucket prefix w) = Athena.Running
  /\ Athena.log (snd (Athena.list_sql_keys svc steps bucket prefix w))
     = Athena.log w ++ replicate steps (Athena.ListObjects bucket prefix None).
Proof.
  intros Hget Htr Hnext. unfold Athena.list_sql_keys, Athena.bind.
  destruct (list_pages_restarts svc steps bucket prefix page None [] w Hget Htr Hnext
              eq_refl) as [Hr Hl].
  destruct (Athena.list_pages svc steps bucket prefix None [] w) as [o w1];
    simpl in *. by subst o.
Qed.

Lemma truncated_listing_witness :
  fst (Athena.list_sql_keys AthenaRuns.no_token 50 "sql-bkt" "views/" Athena.empty_world)
  = Athena.Running.
Proof.
  refine (proj1 (truncated_listing_without_token_never_ends AthenaRuns.no_token
                   "sql-bkt" "views/"
                   {| Athena.Contents := ["views/001_base.sql"];
                      Athena.IsTruncated := true;
                      Athena.NextContinuationToken := None |}
                   50 Athena.empty_world _ _ _)); reflexivity.
Defined.

(** X26: whenever the handler returns, every query it reports has SUCCEEDED:
    with no [.sql] key it reports none and starts none; otherwise its
    results are in ascending key order, all in state SUCCEEDED, as many as
    the queries it started, and the body gives their number. *)
Theorem handler_reports_only_succeeded_queries
    (cfg : Athena.Config) (svc : Athena.Services) (steps : nat)
    (w : Athena.World) (response : Athena.Response) :
  fst (Athena.lambda_handler cfg svc steps w) = Athena.Ret response ->
  exists events,
    Athena.log (snd (Athena.lambda_handler cfg svc steps w)) = Athena.log w ++ events
    /\ match response with
       | Athena.NoFiles body =>
           List.filter Athena.is_start events = []
           /\ body = "No .sql files found under " +:+ Athena.location cfg
       | Athena.Ran body results =>
           Forall (fun x => Athena.state x = "SUCCEEDED") results
           /\ Athena.ascending (map Athena.sql_key results) = true
           /\ List.length (List.filter Athena.is_start events) = List.length results
           /\ body = "Ran " +:+ PyStr.of_nat (List.length results)
                       +:+ " Athena queries successfully from " +:+ Athena.location cfg
       end.
Proof.
  unfold Athena.lambda_handler, Athena.list_sql_keys, Athena.bind, Athena.ret.
  destruct (list_pages_effect svc steps (Athena.SQL_BUCKET cfg) (Athena.SQL_PREFIX cfg)
              None [] w) as (_ & ev1 & Hl1 & _ & Hs1).
  destruct (Athena.list_pages svc steps _ _ None [] w) as [[listed|e|] w1];
    simpl in *; try done.
  pose proof (sort_ascending listed) as Hasc.
  destruct (Athena.sort listed) as [|key keys] eqn:Hsort.
  - simpl. intros [= <-]. exists ev1. by repeat split.
  - destruct (run_keys_effect cfg svc [] (key :: keys) w1) as (_ & ev2 & Hl2 & Hc2).
    destruct (Athena.run_keys cfg svc [] (key :: keys) w1) as [[results|e|] w2];
      simpl in *; try done.
    intros [= <-]. exists (ev1 ++ ev2). rewrite Hl2, Hl1, <- app_assoc.
    split; [done|].
    destruct (Hc2 results eq_refl) as (new & -> & Hsucc & Hsub & Hn).
    repeat split; try done.
    + by apply (ascending_sublist _ (key :: keys)).
    + by rewrite List.filter_app, List.length_app, Hs1.
Qed.

Lemma handler_reports_witness :
  exists events,
    Athena.log (snd (Athena.lambda_handler AthenaRuns.cfg AthenaRuns.two_pages 2
                       Athena.empty_world))
    = Athena.log Athena.empty_world ++ events.
Proof.
  destruct (handler_reports_only_succeeded_queries AthenaRuns.cfg AthenaRuns.two_pages 2
              Athena.empty_world
              (Athena.Ran "Ran 2 Athena queries successfully from s3://sql-bkt/views/"
                 [ {| Athena.sql_key := "views/001_base.SQL";
                      Athena.query_execution_id := "q-1";
                      Athena.state := "SUCCEEDED" |};
                   {| Athena.sql_key := "views/002_totals.sql";
                      Athena.query_execution_id := "q-1";
                      Athena.state := "SUCCEEDED" |} ])) as (events & H & _).
  - vm_compute. reflexivity.
  - exists events. exact H.
Defined.

(** ** The handler from its first line *)
Section DriveListing.
Import Ingest Entry.

Variable env : Env.
Variable front : Frontend.

Lemma drive_pages_serves (steps : nat) (page_token : option string)
    (listed : list FileRecord) (pages : list DrivePage) :
  serves env front page_token pages ->
  List.length pages <= steps ->
  list_pages env front steps page_token listed
  = Some (inr (listed ++ List.concat (map files pages))).
Proof.
  intros Hserves. revert steps listed.
  induction Hserves as [token page Hget Hlast|token page pages Hget Hmore _ IH];
    intros [|steps] listed Hlen; simpl in Hlen; try lia;
    cbn [list_pages]; rewrite Hget.
  - rewrite Hlast. simpl. by rewrite app_nil_r.
  - rewrite Hmore. rewrite IH by lia. simpl. by rewrite <- app_assoc.
Qed.

End DriveListing.

(** X27: with the three settings the handler insists on in place and the
    Drive client built, a folder that Drive lists in finitely many pages
    is handled as one batch: the invocation is the file loop and the
    trigger step over the files of all pages, in page order, with the
    target bucket of the environment and the S3_PREFIX stripped of its
    slashes. *)
Theorem handler_runs_the_batch_over_all_pages
    (env : Entry.Env) (front : Entry.Frontend) (svc : Ingest.Services)
    (steps : nat) (pages : list Entry.DrivePage) (w : Ingest.World) :
  Entry.complete env = true ->
  Entry.get_drive_service env front = None ->
  Entry.serves env front None pages ->
  List.length pages <= steps ->
  Entry.lambda_handler env front svc steps w
  = match Ingest.ingest (Ingest.or_empty (Entry.TARGET_S3_BUCKET env))
            (IngestConfig.S3_PREFIX (Entry.S3_PREFIX env))
            (Entry.GLUE_JOB_NAME env) svc
            (List.concat (map Entry.files pages)) w with
    | (Ingest.Ret (c, glue_result), w') => (Entry.Returned c glue_result, w')
    | (Ingest.Raise e, w') => (Entry.Failed e, w')
    end.
Proof.
  intros Hcomplete Hdrive Hserves Hsteps.
  unfold Entry.complete in Hcomplete.
  apply andb_true_iff in Hcomplete as [[Hb _]%andb_true_iff Ht].
  apply negb_true_iff in Hb, Ht.
  unfold Entry.lambda_handler, Entry.get_ddb_table, Entry.list_files_in_folder.
  rewrite Hb, Hdrive, Ht.
  by rewrite (drive_pages_serves env front steps None [] pages Hserves Hsteps).
Qed.

Lemma handler_runs_the_batch_witness :
  Entry.lambda_handler Invocations.env Invocations.two_pages Scenario.healthy 5
    Ingest.empty_world
  = match Ingest.ingest (Ingest.or_empty (Entry.TARGET_S3_BUCKET Invocations.env))
            (IngestConfig.S3_PREFIX (Entry.S3_PREFIX Invocations.env))
            (Entry.GLUE_JOB_NAME Invocations.env) Scenario.healthy
            (List.concat (map Entry.files
                            [Invocations.first_page; Invocations.second_page]))
            Ingest.empty_world with
    | (Ingest.Ret (c, glue_result), w') => (Entry.Returned c glue_result, w')
    | (Ingest.Raise e, w') => (Entry.Failed e, w')
    end.
Proof.
  refine (handler_runs_the_batch_over_all_pages Invocations.env Invocations.two_pages
            Scenario.healthy 5 [Invocations.first_page; Invocations.second_page]
            Ingest.empty_world _ _ _ _).
  - reflexivity.
  - reflexivity.
  - apply Entry.serves_more; [reflexivity|reflexivity|].
    apply Entry.serves_last; reflexivity.
  - simpl. lia.
Defined.

(** X28: when the target bucket, the name of the secret or the name of the
    state table is missing or empty, the invocation ends before the
    folder is listed: it changes nothing and makes no call that the log
    records, and it ends with the ValueError naming the first of the
    three that is missing, in that order, unless, the first two being
    set, building the Drive client fails first. *)
Theorem incomplete_settings_stop_the_handler
    (env : Entry.Env) (front : Entry.Frontend) (svc : Ingest.Services)
    (steps : nat) (w : Ingest.World) :
  Entry.complete env = false ->
  let r := Entry.lambda_handler env front svc steps w in
  snd r = w
  /\ (if Entry.missing (Entry.TARGET_S3_BUCKET env)
      then fst r = Entry.Failed (Ingest.ValueError "TARGET_S3_BUCKET env var is not set")
      else if Entry.missing (Entry.GOOGLE_SERVICE_ACCOUNT_SECRET_NAME env)
      then fst r = Entry.Failed
                     (Ingest.ValueError
                        "GOOGLE_SERVICE_ACCOUNT_SECRET_NAME env var is not set")
      else match Entry.get_drive_service env front with
           | Some failure => fst r = failure
           | None =>
               fst r = Entry.Failed (Ingest.ValueError "DDB_TABLE_NAME env var is not set")
           end).
Proof.
  intros Hc. cbv zeta. unfold Entry.complete in Hc.
  unfold Entry.lambda_handler, Entry.get_ddb_table.
  destruct (Entry.missing (Entry.TARGET_S3_BUCKET env)); [done|].
  destruct (Entry.missing (Entry.GOOGLE_SERVICE_ACCOUNT_SECRET_NAME env)) eqn:Hs.
  - unfold Entry.get_drive_service, Entry.get_service_account_info_from_secret.
    by rewrite Hs.
  - destruct (Entry.get_drive_service env front); [done|].
    simpl in Hc. apply negb_false_iff in Hc. by rewrite Hc.
Qed.

Lemma incomplete_settings_witness :
  snd (Entry.lambda_handler Invocations.no_table Invocations.two_pages Scenario.healthy 5
         Ingest.empty_world)
  = Ingest.empty_world.
Proof.
  refine (proj1 (incomplete_settings_stop_the_handler Invocations.no_table
                   Invocations.two_pages Scenario.healthy 5 Ingest.empty_world _)).
  reflexivity.
Defined.
